(* ===== verification/_CoqProject ===== *)
-Q . S2P
Prelude.v
JsString.v
Base64.v
Auth.v
Router.v
Uri.v
Url.v
KeyOrder.v
KvStore.v
Views.v
Handler.v
Concurrency.v
Client.v
Session.v
Links.v
Limits.v
