(* ===== verification/Prelude.v ===== *)
(** * A verification development of oscarotero/notes (src/server.ts)

    ** The program

    [src/server.ts] is a Deno web server for a single user's notes.  Its one
    handler, passed to [serve] (lines 10-61), reads the [authorization]
    header and lets the request in only if [checkAuthorization] (lines
    198-208) accepts it: the header must match the regex of line 199
    ([Basic], white space, a token), the token is decoded with [atob], the
    text is split on colons, and the first two pieces are compared with the
    environment variables USER and PASSWORD.  Otherwise the answer is 401
    with a Basic challenge.  An admitted request is routed by two
    URLPatterns (lines 3-6): [/] lists the ids of the notes stored in Deno
    KV under [["notes", id]] (lines 23-34); [/:id] decodes the id with
    [decodeURI] and reads the note, then a POST deletes it when the body
    trims to nothing and writes the body otherwise, answering [OK], and any
    other method renders the edit page (lines 36-55); any other path gets
    the 404 page.  The pages come from three template functions,
    [indexNote], [templateNote] and [layout] (lines 63-196).

    ** The library (files in dependency order)

    - [Prelude]: JavaScript strings as lists of UTF-16 code units
      ([jsstr], [js], [tpl]), the [completion] type of computations that
      throw ([Normal]/[Throw], with stdpp's monad notation), the hint
      databases [notes] and [notes_rw], the tactics [zlia], [norm_pow],
      [decide_closed], and list lemmas shared by the components.
    - [JsString]: [String.prototype.trim] (line 44) and [split] with a
      one-unit separator (line 202), with the white-space classes of
      ECMA-262; lemmas on the pieces of a split.
    - [Base64]: [atob] (line 202) as the WHATWG forgiving-base64 decode
      ([forgiving_base64_decode], [b64_decode_loop] over a bit buffer in
      [Z]), and the encoder [btoa] a browser uses.  Round trip
      [atob_btoa] and the bound [atob_bytes].
    - [Auth]: the environment record [env] (the two optional values of
      [Deno.env.get]), the regex as the backtracking matcher of ECMA-262
      ([BasicRegex.star_greedy], [BasicRegex.exec]) proved equal to a
      closed form ([exec_credentials]), and [checkAuthorization] with the
      theorems that characterise what it accepts and when it throws.
    - [Router]: the patterns [/] and [/:id] ([Router.home_test],
      [Router.note_exec]) on the pathname of the request URL, and the
      dispatch [Router.classify].
    - [Uri]: [decodeURI] (line 39) as the Decode operation of ECMA-262
      with UTF-8 validation, run as a loop with fuel.
    - [KeyOrder]: Deno KV's tuple encoding of keys ([encode_key]: 0x02,
      the UTF-8 bytes of the string with 0x00 escaped, 0x00) and the order
      the store sorts by ([key_compare]: code units after the surrogate
      fix-up of code point order), proved equal to the byte order of the
      encodings through a generic lemma on prefix codes
      ([list_compare_code]) applied to UTF-16, UTF-8 and the parts.
    - [KvStore]: the contract of the store as a class [KvStore] with its
      laws [KvStoreLaws]; the handler's theorems are proved against it.
      [gmap_kv] implements it on a stdpp [gmap], listing the entries under a
      prefix sorted in key order ([merge_sort] with [key_le]).
      [list_after] is the cursor of Deno KV's list iterator: the entries
      after the last key already read.
    - [Views]: the three templates, transcribed character for character.
    - [Handler]: requests and responses, the [Response] constructor
      ([new_response]), the handler as a program [prog] of awaited store
      operations ([route_request] for the routes, [handler] for the gate),
      [run] against any store, and [serve], whose default [onError] turns a
      thrown exception into a 500.
    - [Concurrency]: requests served concurrently.  A [pool] holds the
      store, the requests arrived, each handler invocation in flight (the
      rest of its [prog]) and the log of writes; [pstep] is one step of the
      server (a request arrives, an invocation performs its next awaited
      store operation atomically, a response is sent), [run_sched] an
      executable schedule of such steps.  The [for await] over [db.list]
      (line 26) reads the store in batches of 100 entries, one per step,
      each from the cursor after the last key read, as Deno KV's list
      iterator does; the batches are atomic, the listing is not.
    - [Client]: the browser scripts of the pages: the autosave of the edit
      page (lines 100-111) as the state machine [Autosave.step] over the
      textarea value, the [sending] flag and the unsettled fetches, and the
      target of the new-note form ([NewNote.submit], lines 77-86).
    - [Session]: the autosave script against a server (any function from
      a request and a store to a response and a store): each body the
      server receives is served as a POST to the page's path.
    - [Url]: how the browser resolves an href of a page into the request
      path: the WHATWG URL parser on a reference without scheme or host
      against the page's path ([Url.resolve_path]: stripping, the
      relative state for path-absolute and path-relative references, the
      path state with dot segments, UTF-8 percent-encoding with the path
      percent-encode set).
    - [Links]: the links of the pages followed through the HTML
      tokenizer's attribute value state ([attr_value]: the value ends at
      the closing quotation mark, U+0000 becomes U+FFFD), [Url], the
      router, decodeURI and the handler.
    - [Limits]: the size limits Deno KV checks before each operation (a
      key of at most 2048 encoded bytes, 2049 for a read; a value of at
      most 65536 bytes as V8 serializes it) with the TypeError a refused
      operation throws: [run_kv] runs the handler's program with the
      checks, [serve_kv] is the server that runs it.

    ** What is proved

    - The gate (C1): without valid credentials every request gets the 401
      challenge and the store is untouched, before any routing.
    - The persistence rules (C2, C3): a POST of a non-blank body is an
      upsert read back by the next GET; a blank POST deletes, idempotently.
    - The store invariant (C4): every request keeps notes under
      [["notes", id]] with bodies that are not blank.
    - The list page (C5): exactly the ids of the stored notes, once each,
      in key order.
    - The authenticator (C6-C8, C10, C11): a closed-form characterisation
      of acceptance, acceptance of the configured credentials, refusal of
      another user, the regex matcher against its closed form, and the
      exact condition under which it throws.
    - Base64 (C9, C21): [atob] inverts [btoa] and returns bytes.
    - Routing (C17): paths of more than one segment get the 404 page.
    - The store's order (C18): decodeURI of an ASCII pathname is
      well-formed UTF-16, so in every store the server reaches by such
      requests the note ids are well-formed, and on such keys the order of
      the model is Deno KV's byte order of the encoded keys: the list page
      shows the notes in the order Deno returns them.
    - The size limits (C19, C20): on an authorised request to a note, the
      server with Deno KV's checks answers and changes the store exactly as
      [serve] does if and only if the key and the written body are within
      the limits; past them the request answers 500 and the store is
      unchanged.
    - The views (C22, C23): the edit page shows the body verbatim in the
      editor and the id as the title; the list page holds a link per id.
    - Concurrency (C24-C26): under every interleaving of requests at
      their awaits the store stays well formed; while the listing of the
      notes fits in one batch on every store the writes pass through, every
      answered request got what [serve] gives it alone on the store some
      prefix of the write log leaves, with its writes right after that
      prefix (linearizability, a refinement of sequential serving); with
      100 notes a schedule exists whose list page no sequential order
      gives.
    - Autosave (C27-C30): at most one save is in flight; a keystroke made
      during a save is never sent; a rejected fetch stops autosave for
      good; when each keystroke waits for its save, the note on the
      server ends as the textarea's last value.
    - Links (C31-C33): decodeURI inverts the browser's encoding of a
      link-safe id, so the list link (read by the HTML tokenizer) and the
      new-note form open that note; an id ending in spaces or controls is
      linked to another note.
    - Findings, each proved: a malformed token gives 500, not 401 (C12);
      with PASSWORD unset the bare user name is accepted (C13); a password
      with a colon can never be entered (C14) and text after a second colon
      is ignored (C15); a note created at [/%25] is listed with a link that
      always fails (C16); a body is inserted in the page unescaped (C22,
      and [templateNote_injects_script]); the list page is read in batches
      and is not atomic (C26); the autosave drops the last keystroke typed
      during a save (C28) and stops for good after a network error (C29);
      an id ending in a space or control character is linked to another
      note (C33); a note whose key exceeds 2049 bytes cannot be read, and a
      body of 65533 code units or more cannot be saved (C20); once the
      textarea holds such a body every autosave fails with a 500 the
      script ignores, and the server keeps the last body that fitted (C34).

    ** Bounds and fuel

    [Uri.decode_loop] takes fuel; [Uri.decodeURI] gives it the length of
    the input, and the lemma [decode_loop_fuel] shows any fuel at least that long
    gives the same result, as every iteration consumes a character.  All
    other definitions are structural.  Code units are [Z]; well-formed
    strings have them in [0, 65536), and [atob] returns units below 256.
    Facts about the bytes of escapes and UTF-8 (ranges of at most 256
    values) are proved by evaluation over the range ([range_check]).  The
    server's executions ([pstar]) are finite sequences of steps.  A listing
    is read 100 entries per step, Deno KV's default batch size; a batch of
    fewer than 100 entries ends it.  A string of [n] code units serializes to at
    least [n + 4] and at most [2n + 9] bytes, which is why a body of 65533
    units or more is refused whichever representation V8 chose.

    ** Not modelled

    The URL parser on references with a scheme or a host (the pages have
    none; [resolve_path] gives [None] for them), the host, scheme and
    query parts of URLs, the server's re-parse of the serialized path (the
    identity on it), character references and carriage returns in
    attribute values ([attr_value] gives [None] on them), the HTTP server
    beyond the 500 of [onError] and the interleaving of its handler
    invocations, I/O failures of the store, and Deno KV's versionstamps
    and consistency options.  Deno KV
    converts a string key part to a Rust string, replacing lone surrogates
    by U+FFFD, so it identifies parts that differ only there; the store
    model keeps them apart, and [key_compare_encode_key] is stated for
    well-formed parts.  The ids the handler stores come from [decodeURI],
    which rejects encoded surrogates, applied to the pathname, which the
    URL parser makes ASCII.  The size of a V8-serialized string depends on
    whether V8 holds it in one byte per unit, which the program cannot
    see; the limit theorems hold for both representations.

    ** Plan for the next sittings

    1. The checks of [Limits] inside the concurrent server ([advance]),
       with the 500 a refused operation gives there.
    2. Several editing sessions on one note (two tabs) through the
       concurrent server: last writer wins between the tabs' saves.
*)

From stdpp Require Export base list options strings sets.
From Stdlib Require Export ZArith Ascii.
From Stdlib Require Import ZifyNat.

(** ** JavaScript strings

    A JavaScript string is a sequence of UTF-16 code units.  We model it as
    a list of integers, each of which is a code unit in [0, 65536). *)

Abbreviation jsstr := (list Z).

(** Literals of the source are ASCII; [js] turns a Rocq literal into the
    sequence of its code units. *)
Definition code_of (a : ascii) : Z := Z.of_nat (nat_of_ascii a).

Definition js (s : string) : jsstr := map code_of (String.list_ascii_of_string s).

(** The HTML templates of the source contain double quotes, which a Rocq
    literal cannot hold without doubling them.  [tpl] reads a backquote as a
    double quote: a template literal of the source never contains a raw
    backquote (it is the template's own delimiter), so the translation is
    unambiguous. *)
Definition tpl (s : string) : jsstr :=
  map (fun a => if decide (a = "`"%char) then 34%Z else code_of a)
      (String.list_ascii_of_string s).

Arguments js : simpl never.
Arguments tpl : simpl never.

Definition code_unit (c : Z) : Prop := (0 <= c < 65536)%Z.
Definition well_formed_str (s : jsstr) : Prop := Forall code_unit s.

(** [t] occurs in [s]: [s.includes(t)]. *)
Definition occurs_in {A} (t s : list A) : Prop := exists pre post, s = pre ++ t ++ post.

(** ** Completions

    Built-in functions of the platform ([atob], [decodeURI]) throw.  A
    computation that may throw returns a [completion], after the completion
    records of ECMA-262. *)

Inductive js_exn :=
| URIError                  (** thrown by [decodeURI] *)
| InvalidCharacterError     (** the DOMException thrown by [atob] *)
| TypeError.                (** thrown by Deno KV for a key or value over its size limit *)

#[export] Instance js_exn_eq_dec : EqDecision js_exn.
Proof. solve_decision. Defined.

Inductive completion (A : Type) :=
| Normal (a : A)
| Throw (e : js_exn).
Arguments Normal {A} a.
Arguments Throw {A} e.

#[export] Instance completion_ret : MRet completion := @Normal.
#[export] Instance completion_bind : MBind completion :=
  fun A B f c => match c with Normal a => f a | Throw e => Throw e end.

Declare Scope notes_scope.
Delimit Scope notes_scope with notes.
Notation "s ++' t" := (s ++ js t) (at level 60, right associativity) : notes_scope.

(** ** Automation *)

Create HintDb notes discriminated.
Create Rewrite HintDb notes_rw.

Ltac invc H := inversion H; subst; clear H.

(** [lia] after the characteristic equations of [Z.div] and [Z.modulo]. *)
Ltac zlia := zify; Z.div_mod_to_equations; lia.

(** Close a decidable goal on closed data by evaluation. *)
Ltac decide_closed := apply (bool_decide_unpack _); vm_compute; reflexivity.

(** Evaluate the powers of two with constant exponents in the goal. *)
Ltac norm_pow :=
  repeat match goal with
  | |- context [(2 ^ ?k)%Z] =>
      let v := eval vm_compute in (2 ^ k)%Z in change (2 ^ k)%Z with v
  end.

(** ** Generic lemmas *)

Lemma filter_all {A} (P : A -> Prop) `{!forall x, Decision (P x)} (l : list A) :
  Forall P l -> filter P l = l.
Proof. induction 1; [done|]. rewrite filter_cons_True by done. by f_equal. Qed.

Lemma filter_none {A} (P : A -> Prop) `{!forall x, Decision (P x)} (l : list A) :
  Forall (fun x => ~ P x) l -> filter P l = [].
Proof. induction 1; [done|]. by rewrite filter_cons_False. Qed.

Lemma js_app (s t : string) : js (s ++ t)%string = js s ++ js t.
Proof.
  unfold js. induction s as [|a s IH]; [reflexivity|].
  change (String a s ++ t)%string with (String a (s ++ t)). cbn. by rewrite IH.
Qed.

Lemma js_length (s : string) : length (js s) = String.length s.
Proof. unfold js. induction s; cbn; [done|]. by f_equal. Qed.

Lemma code_of_bound (a : ascii) : (0 <= code_of a < 256)%Z.
Proof. unfold code_of. pose proof (nat_ascii_bounded a). lia. Qed.

Lemma js_well_formed (s : string) : well_formed_str (js s).
Proof.
  unfold well_formed_str, js. apply Forall_forall. intros c Hc.
  apply list_elem_of_In, in_map_iff in Hc as (a & <- & _).
  pose proof (code_of_bound a). unfold code_unit. lia.
Qed.

Lemma mret_Normal {A} (a : A) : mret (M := completion) a = Normal a.
Proof. done. Qed.

Lemma bind_Normal {A B} (a : A) (f : A -> completion B) :
  mbind f (Normal a) = f a.
Proof. done. Qed.

Lemma bind_Throw {A B} (e : js_exn) (f : A -> completion B) :
  mbind f (Throw e) = Throw e.
Proof. done. Qed.

Lemma bind_Normal_inv {A B} (c : completion A) (f : A -> completion B) b :
  mbind f c = Normal b -> exists a, c = Normal a /\ f a = Normal b.
Proof. destruct c; cbn; [eauto | discriminate]. Qed.

#[export] Hint Rewrite @mret_Normal @bind_Normal @bind_Throw js_app : notes_rw.
#[export] Hint Resolve js_well_formed : notes.

(** Induction on a list by groups of three, the shape of the base64
    encoder's recursion. *)
Lemma list_ind3 {A} (P : list A -> Prop) :
  P [] -> (forall a, P [a]) -> (forall a b, P [a; b]) ->
  (forall a b c l, P l -> P (a :: b :: c :: l)) -> forall l, P l.
Proof.
  intros H0 H1 H2 H3. fix IH 1. intros [|a [|b [|c l]]]; [exact H0 | apply H1 | apply H2 | apply H3, IH].
Qed.

(** Appending [k] bits to a buffer is a shift and an addition when the
    appended value fits in [k] bits. *)
Lemma lor_shiftl_disjoint (buf k n : Z) :
  (0 <= k)%Z -> (0 <= n < 2 ^ k)%Z -> Z.lor (Z.shiftl buf k) n = (buf * 2 ^ k + n)%Z.
Proof.
  intros Hk Hn.
  assert (Hd : Z.land (Z.shiftl buf k) n = 0%Z).
  { apply Z.bits_inj'. intros i Hi. rewrite Z.land_spec, Z.bits_0.
    destruct (Z.lt_ge_cases i k).
    - rewrite Z.shiftl_spec_low; auto.
    - rewrite <- (Z.mod_small n (2 ^ k)) by lia.
      rewrite Z.mod_pow2_bits_high by lia. apply andb_false_r. }
  pose proof (Z.add_lor_land (Z.shiftl buf k) n) as Hadd.
  rewrite Z.shiftl_mul_pow2 in * by lia. lia.
Qed.

Lemma filter_Forall_id {A} (P : A -> Prop) `{forall x, Decision (P x)} (l : list A) :
  Forall P l -> filter P l = l.
Proof.
  induction 1 as [|x l Hx _ IH]; [done|].
  rewrite filter_cons_True by done. by rewrite IH.
Qed.

(** In a list of pairs whose first components are distinct, the first
    component determines the second. *)
Lemma NoDup_fst_functional {A B} (l : list (A * B)) x y1 y2 :
  NoDup l.*1 -> (x, y1) ∈ l -> (x, y2) ∈ l -> y1 = y2.
Proof.
  induction l as [|[a b] l IH]; [set_solver|]. csimpl. rewrite NoDup_cons, !elem_of_cons.
  intros [Ha Hnd] [?|H1] [?|H2]; simplify_eq; try done; try by apply IH.
  all: exfalso; apply Ha, list_elem_of_fmap; eexists; split; [|eassumption]; done.
Qed.

(** ** Prefixes *)

Fixpoint drop_while {A} (p : A -> bool) (l : list A) : list A :=
  match l with
  | [] => []
  | x :: l' => if p x then drop_while p l' else l
  end.

Fixpoint strip_prefix {A} `{EqDecision A} (p s : list A) : option (list A) :=
  match p, s with
  | [], _ => Some s
  | c :: p', d :: s' => if bool_decide (c = d) then strip_prefix p' s' else None
  | _ :: _, [] => None
  end.

Lemma strip_prefix_app {A} `{EqDecision A} (p s : list A) : strip_prefix p (p ++ s) = Some s.
Proof. induction p; cbn; [done|]. by rewrite bool_decide_true. Qed.

Lemma strip_prefix_Some {A} `{EqDecision A} (p s r : list A) :
  strip_prefix p s = Some r -> s = p ++ r.
Proof.
  revert s. induction p as [|c p IH]; intros [|d s]; cbn; try congruence.
  case_bool_decide; [subst; intros; f_equal; by apply IH | discriminate].
Qed.

Lemma drop_while_split {A} (p : A -> bool) l :
  exists w, l = w ++ drop_while p l /\ Forall (fun x => p x = true) w.
Proof.
  induction l as [|x l (w & Hw & Hf)]; cbn; [by exists []|].
  destruct (p x) eqn:E.
  - exists (x :: w). split; [by rewrite Hw at 1|]. by constructor.
  - by exists [].
Qed.

Lemma drop_while_app {A} (p : A -> bool) w l :
  Forall (fun x => p x = true) w -> drop_while p (w ++ l) = drop_while p l.
Proof. induction 1; cbn; [done|]. by rewrite H. Qed.

Lemma drop_while_head {A} (p : A -> bool) l x l' :
  drop_while p l = x :: l' -> p x = false.
Proof.
  induction l as [|y l IH]; cbn; [discriminate|].
  destruct (p y) eqn:E; [done|]. by intros [= <- _].
Qed.

(** Induction on a list through any shorter list. *)
Lemma list_strong_ind {A} (P : list A -> Prop) :
  (forall l, (forall l', length l' < length l -> P l') -> P l) -> forall l, P l.
Proof.
  intros H. assert (G : forall n l, length l < n -> P l).
  { induction n as [|n IH]; intros l Hl; [lia|]. apply H. intros l' Hl'. apply IH. lia. }
  intros l. apply (G (S (length l))). lia.
Qed.

(** A property of the integers of a finite range, checked by evaluation:
    [forallb] over the range, computed by [vm_compute], gives it for every
    integer of the range. *)
Definition Z_range (lo : Z) (n : nat) : list Z := map (fun i => (lo + Z.of_nat i)%Z) (seq 0 n).

Lemma Z_range_check (P : Z -> bool) lo n :
  forallb P (Z_range lo n) = true -> forall x, (lo <= x < lo + Z.of_nat n)%Z -> P x = true.
Proof.
  unfold Z_range. rewrite forallb_forall. intros H x Hx. apply H, in_map_iff.
  exists (Z.to_nat (x - lo)). split; [lia|]. apply in_seq. lia.
Qed.

(** Prove [forall x, lo <= x < hi -> P x] for a decidable [P] and
    constant bounds by evaluation over the range. *)
Ltac range_check :=
  let x := fresh "x" in let Hx := fresh "Hx" in
  intros x Hx;
  lazymatch type of Hx with
  | (?lo <= x < ?hi)%Z =>
      pattern x;
      lazymatch goal with
      | |- ?P x =>
          refine (bool_decide_eq_true_1 (P x) _);
          refine (Z_range_check (fun y => bool_decide (P y)) lo (Z.to_nat (hi - lo)) _ x _);
          [vm_compute; reflexivity | lia]
      end
  end.

Lemma drop_while_all {A} (p : A -> bool) w :
  Forall (fun x => p x = true) w -> drop_while p w = [].
Proof. induction 1 as [|x w Hx _ IH]; cbn; [done|]. by rewrite Hx. Qed.

(** Stripping the elements [p] accepts from both ends ignores a tail of
    such elements. *)
Lemma strip_app_trailing {A} (p : A -> bool) s w :
  Forall (fun x => p x = true) w ->
  rev (drop_while p (rev (drop_while p (s ++ w)))) = rev (drop_while p (rev (drop_while p s))).
Proof.
  intros Hw. destruct (drop_while_split p s) as (u & Hs & Hu).
  remember (drop_while p s) as s' eqn:Es. rewrite Hs, <- app_assoc, drop_while_app by done.
  destruct s' as [|x s'']; [cbn [app]; by rewrite (drop_while_all p w Hw)|].
  symmetry in Es. apply drop_while_head in Es. cbn. rewrite Es.
  rewrite app_comm_cons, rev_app_distr, drop_while_app; [done|]. by apply Forall_rev.
Qed.
