(* ===== verification/JsString.v ===== *)
(** * String built-ins of the JavaScript platform used by src/server.ts

    [String.prototype.trim] (server.ts line 44), the [\s] and [.] character
    classes of the authorisation regex (line 199) and
    [String.prototype.split] with a one-character separator (line 202), on
    strings as sequences of UTF-16 code units.  These are modelled from
    ECMA-262, not from the repository, which only calls them. *)

From S2P Require Import Prelude.

(** ** Character classes (ECMA-262, WhiteSpace and LineTerminator) *)

Definition is_line_terminator (c : Z) : bool :=
  bool_decide (c = 10 \/ c = 13 \/ c = 8232 \/ c = 8233)%Z.

(** WhiteSpace: TAB, VT, FF, ZWNBSP and the Space_Separator category
    (SPACE, NBSP, U+1680, U+2000 to U+200A, U+202F, U+205F, U+3000).  All
    are in the BMP outside the surrogate range, so a test on code units
    agrees with the standard's test on code points. *)
Definition is_whitespace (c : Z) : bool :=
  bool_decide (c = 9 \/ c = 11 \/ c = 12 \/ c = 32 \/ c = 160 \/ c = 5760
               \/ (8192 <= c <= 8202) \/ c = 8239 \/ c = 8287 \/ c = 12288
               \/ c = 65279)%Z.

(** The set removed by [trim] and matched by the regex class [\s]. *)
Definition is_trim_ws (c : Z) : bool := is_whitespace c || is_line_terminator c.

(** ** String.prototype.trim *)

Definition trim_start (s : jsstr) : jsstr := drop_while is_trim_ws s.

Definition trim_end (s : jsstr) : jsstr := rev (trim_start (rev s)).

Definition trim (s : jsstr) : jsstr := trim_end (trim_start s).

(** ** String.prototype.split with a separator of one code unit *)

Fixpoint split (sep : Z) (s : jsstr) : list jsstr :=
  match s with
  | [] => [[]]
  | c :: s' =>
      let rest := split sep s' in
      if bool_decide (c = sep) then [] :: rest
      else match rest with
           | p :: ps => (c :: p) :: ps
           | [] => [[c]]
           end
  end.

(** [Array.prototype.join] with a one-unit separator, the inverse of
    [split]. *)
Fixpoint join (sep : Z) (ps : list jsstr) : jsstr :=
  match ps with
  | [] => []
  | [p] => p
  | p :: ps' => p ++ sep :: join sep ps'
  end.

(** ** Lemmas *)

Lemma trim_start_all_ws s : trim_start s = [] <-> Forall (fun c => is_trim_ws c = true) s.
Proof.
  unfold trim_start. induction s as [|c s IH]; cbn; [split; auto|].
  rewrite Forall_cons, <- IH. destruct (is_trim_ws c); naive_solver.
Qed.

Lemma trim_start_head s :
  trim_start s = [] \/ exists c t, trim_start s = c :: t /\ is_trim_ws c = false.
Proof.
  unfold trim_start. induction s as [|c s IH]; cbn; [by left|].
  destruct (is_trim_ws c) eqn:E; [done | right; eauto].
Qed.

Lemma trim_nil_iff s : trim s = [] <-> Forall (fun c => is_trim_ws c = true) s.
Proof.
  rewrite <- trim_start_all_ws. unfold trim, trim_end.
  destruct (trim_start_head s) as [-> | (c & t & -> & Hc)]; [done|].
  split; [|discriminate]. intros H.
  apply (f_equal (@rev Z)) in H. rewrite rev_involutive in H.
  cbn in H. apply trim_start_all_ws in H.
  apply Forall_app in H as [_ H]. apply Forall_cons in H as [H _]. congruence.
Qed.

Lemma split_not_nil sep s : split sep s <> [].
Proof.
  destruct s as [|c s]; cbn; [done|].
  case_bool_decide; [done|]. by destruct (split sep s).
Qed.

Lemma join_split sep s : join sep (split sep s) = s.
Proof.
  induction s as [|c s IH]; [done|]. cbn.
  pose proof (split_not_nil sep s) as Hne.
  case_bool_decide as Hc.
  - subst c. destruct (split sep s) as [|p ps]; [done|].
    destruct ps; cbn in *; by rewrite IH.
  - destruct (split sep s) as [|p ps]; [done|].
    destruct ps; cbn in *; by rewrite IH.
Qed.

Lemma split_pieces_no_sep sep s : Forall (fun p => sep ∉ p) (split sep s).
Proof.
  induction s as [|c s IH]; cbn; [repeat constructor; set_solver|].
  pose proof (split_not_nil sep s) as Hne.
  case_bool_decide as Hc.
  - constructor; [set_solver | done].
  - destruct (split sep s) as [|p ps]; [done|].
    apply Forall_cons in IH as [Hp Hps]. constructor; [|done].
    rewrite elem_of_cons. naive_solver.
Qed.

Lemma split_no_sep sep s : sep ∉ s -> split sep s = [s].
Proof.
  induction s as [|c s IH]; cbn; [done|].
  rewrite elem_of_cons. intros Hn.
  case_bool_decide; [naive_solver|]. rewrite IH; naive_solver.
Qed.

Lemma split_app_sep sep s t : sep ∉ s -> split sep (s ++ sep :: t) = s :: split sep t.
Proof.
  induction s as [|c s IH]; cbn; intros Hn.
  - by rewrite bool_decide_true.
  - rewrite elem_of_cons in Hn. rewrite bool_decide_false by naive_solver.
    rewrite IH by naive_solver. done.
Qed.

#[export] Hint Resolve split_not_nil : notes.

Lemma printable_not_ws c : (33 <= c <= 126)%Z -> is_trim_ws c = false.
Proof.
  intros Hc. unfold is_trim_ws, is_whitespace, is_line_terminator.
  rewrite !bool_decide_eq_false_2 by lia. done.
Qed.

Lemma printable_not_lt c : (33 <= c <= 126)%Z -> is_line_terminator c = false.
Proof. intros Hc. unfold is_line_terminator. apply bool_decide_eq_false. lia. Qed.

(** A string holds no separator, or splits at its first one. *)
Lemma first_sep (sep : Z) (s : jsstr) : sep ∉ s \/ exists u t, s = u ++ sep :: t /\ (sep ∉ u).
Proof.
  induction s as [|c s [IH | (u & t & -> & Hu)]]; [left; set_solver| |].
  - destruct (decide (c = sep)) as [->|Hc]; [right; exists [], s; set_solver|].
    left. rewrite elem_of_cons. naive_solver.
  - right. destruct (decide (c = sep)) as [->|Hc]; [exists [], (u ++ sep :: t); set_solver|].
    exists (c :: u), t. split; [done|]. rewrite elem_of_cons. naive_solver.
Qed.

(** The first two pieces of [s.split(sep)], as the destructuring
    [const [a, b] = s.split(sep)] reads them. *)
Lemma split_first_two (sep : Z) (s : jsstr) :
  (sep ∉ s /\ split sep s !! 0%nat = Some s /\ split sep s !! 1%nat = None) \/
  (exists u p, (sep ∉ u) /\ (sep ∉ p) /\ split sep s !! 0%nat = Some u /\
     split sep s !! 1%nat = Some p /\
     (s = u ++ sep :: p \/ exists rest, s = u ++ sep :: p ++ sep :: rest)).
Proof.
  destruct (first_sep sep s) as [Hn | (u & t & -> & Hu)].
  - left. by rewrite split_no_sep.
  - right. rewrite split_app_sep by done.
    destruct (first_sep sep t) as [Ht | (p & rest & -> & Hp)].
    + exists u, t. rewrite split_no_sep by done. naive_solver.
    + exists u, p. rewrite split_app_sep by done. naive_solver.
Qed.
