(* ===== verification/Base64.v ===== *)
(** * Base64: the [atob] decoder used by checkAuthorization

    [atob] (server.ts line 202) runs the forgiving-base64 decode of the
    WHATWG Infra standard and throws an InvalidCharacterError DOMException
    when it fails.  [btoa] is its encoder; the client side of HTTP Basic
    authentication produces a header with it, so it is what the decoder is
    proved against.  Both are platform functions, modelled from the
    standards (RFC 4648, WHATWG Infra and HTML); the buffer of bits is a
    [Z] grown with [Z.shiftl]/[Z.lor] and read with [Z.shiftr]/[Z.land]. *)

From S2P Require Import Prelude.

Local Open Scope Z_scope.

(** ** The alphabet (RFC 4648, table 1) *)

Definition b64_char (n : Z) : Z :=
  if decide (n < 26)%Z then 65 + n
  else if decide (n < 52)%Z then 97 + (n - 26)
  else if decide (n < 62)%Z then 48 + (n - 52)
  else if decide (n = 62)%Z then 43 else 47.

Definition b64_value (c : Z) : option Z :=
  if decide (65 <= c <= 90)%Z then Some (c - 65)
  else if decide (97 <= c <= 122)%Z then Some (c - 97 + 26)
  else if decide (48 <= c <= 57)%Z then Some (c - 48 + 52)
  else if decide (c = 43)%Z then Some 62
  else if decide (c = 47)%Z then Some 63
  else None.

Definition is_b64 (c : Z) : bool := bool_decide (is_Some (b64_value c)).

(** ASCII whitespace of WHATWG Infra: TAB, LF, FF, CR, SPACE. *)
Definition is_ascii_whitespace (c : Z) : bool :=
  bool_decide (c = 9 \/ c = 10 \/ c = 12 \/ c = 13 \/ c = 32)%Z.

Definition append_bits (buffer : Z) (k : Z) (n : Z) : Z := Z.lor (Z.shiftl buffer k) n.

(** ** Forgiving-base64 decode

    Step 8 of the standard: each sextet is appended to the buffer; once it
    holds 24 bits they leave as three bytes.  [nbits] is the number of bits
    in the buffer. *)
Fixpoint b64_decode_loop (data : jsstr) (buffer : Z) (nbits : nat) : list Z :=
  match data with
  | [] =>
      (* step 9 *)
      match nbits with
      | 12%nat => [Z.shiftr buffer 4]
      | 18%nat => [Z.shiftr buffer 10; Z.land (Z.shiftr buffer 2) 255]
      | _ => []
      end
  | c :: rest =>
      let buffer' := append_bits buffer 6 (default 0 (b64_value c)) in
      if (nbits =? 18)%nat then
        [Z.land (Z.shiftr buffer' 16) 255; Z.land (Z.shiftr buffer' 8) 255;
         Z.land buffer' 255] ++ b64_decode_loop rest 0 0
      else b64_decode_loop rest buffer' (nbits + 6)%nat
  end.

(** Step 2: a string whose length is a multiple of four loses one or two
    trailing [=]. *)
Definition strip_padding (data : jsstr) : jsstr :=
  match rev data with
  | c1 :: c2 :: r =>
      if bool_decide (c1 = 61 /\ c2 = 61) then rev r
      else if bool_decide (c1 = 61) then rev (c2 :: r) else data
  | [c1] => if bool_decide (c1 = 61) then [] else data
  | [] => data
  end.

(** The length used in steps 2 and 3 is the code-point length; code units
    are used here.  The two differ only on strings with a non-ASCII code
    unit, which step 4 rejects whatever the length. *)
Definition forgiving_base64_decode (data : jsstr) : option (list Z) :=
  let data := filter (fun c => is_ascii_whitespace c = false) data in
  let data := if decide (length data mod 4 = 0)%nat then strip_padding data else data in
  if decide (length data mod 4 = 1)%nat then None
  else if forallb is_b64 data then Some (b64_decode_loop data 0 0)
  else None.

Definition atob (data : jsstr) : completion jsstr :=
  match forgiving_base64_decode data with
  | Some bytes => Normal bytes
  | None => Throw InvalidCharacterError
  end.

(** ** btoa: the standard encoding with padding *)

Definition encode_group (a b c : Z) : jsstr :=
  [b64_char (Z.shiftr a 2);
   b64_char (Z.lor (Z.shiftl (Z.land a 3) 4) (Z.shiftr b 4));
   b64_char (Z.lor (Z.shiftl (Z.land b 15) 2) (Z.shiftr c 6));
   b64_char (Z.land c 63)].

Fixpoint base64_encode (bytes : list Z) : jsstr :=
  match bytes with
  | [] => []
  | [a] => take 2 (encode_group a 0 0) ++ [61; 61]%Z
  | [a; b] => take 3 (encode_group a b 0) ++ [61]%Z
  | a :: b :: c :: rest => encode_group a b c ++ base64_encode rest
  end.

Definition is_byte (c : Z) : Prop := (0 <= c < 256)%Z.

Definition btoa (s : jsstr) : completion jsstr :=
  if decide (Forall is_byte s) then Normal (base64_encode s)
  else Throw InvalidCharacterError.

(** ** Lemmas on the alphabet and the bit buffer *)

Lemma b64_value_char n : 0 <= n < 64 -> b64_value (b64_char n) = Some n.
Proof.
  intros Hn. unfold b64_char, b64_value.
  repeat case_decide; solve [f_equal; lia | exfalso; lia].
Qed.

Lemma b64_char_is_b64 n : 0 <= n < 64 -> is_b64 (b64_char n) = true.
Proof. intros Hn. unfold is_b64. rewrite b64_value_char by done. by apply bool_decide_eq_true. Qed.

Lemma b64_char_not_ws n : 0 <= n < 64 -> is_ascii_whitespace (b64_char n) = false.
Proof.
  intros Hn. unfold is_ascii_whitespace, b64_char.
  apply bool_decide_eq_false. repeat case_decide; lia.
Qed.

Lemma append_bits_spec buf k n :
  0 <= k -> 0 <= n < 2 ^ k -> append_bits buf k n = buf * 2 ^ k + n.
Proof. apply lor_shiftl_disjoint. Qed.

Lemma land_mask a k : 0 <= k -> Z.land a (Z.ones k) = a mod 2 ^ k.
Proof. apply Z.land_ones. Qed.

(** Bits of a buffer read as arithmetic, for the shifts and masks of this
    file. *)
Ltac b64_arith :=
  repeat match goal with
  | |- context [Z.land ?a 3] => change (Z.land a 3) with (Z.land a (Z.ones 2))
  | |- context [Z.land ?a 15] => change (Z.land a 15) with (Z.land a (Z.ones 4))
  | |- context [Z.land ?a 63] => change (Z.land a 63) with (Z.land a (Z.ones 6))
  | |- context [Z.land ?a 255] => change (Z.land a 255) with (Z.land a (Z.ones 8))
  end;
  rewrite ?land_mask, ?Z.shiftr_div_pow2 by lia; norm_pow.

Lemma encode_group_spec a b c :
  is_byte a -> is_byte b -> is_byte c ->
  encode_group a b c =
  map b64_char [a / 4; a mod 4 * 16 + b / 16; b mod 16 * 4 + c / 64; c mod 64].
Proof.
  unfold is_byte. intros Ha Hb Hc. unfold encode_group. b64_arith.
  rewrite !lor_shiftl_disjoint; norm_pow; try zlia.
  cbn [map]. repeat f_equal; lia.
Qed.

(** ** The encoder without its padding *)

Fixpoint encode_unpadded (bytes : list Z) : jsstr :=
  match bytes with
  | [] => []
  | [a] => take 2 (encode_group a 0 0)
  | [a; b] => take 3 (encode_group a b 0)
  | a :: b :: c :: rest => encode_group a b c ++ encode_unpadded rest
  end.

Fixpoint padding (bytes : list Z) : jsstr :=
  match bytes with
  | [] => []
  | [_] => [61; 61]
  | [_; _] => [61]
  | _ :: _ :: _ :: rest => padding rest
  end.

Lemma base64_encode_split bytes :
  base64_encode bytes = encode_unpadded bytes ++ padding bytes.
Proof.
  induction bytes as [| a | a b | a b c l IH] using list_ind3; try reflexivity.
  cbn [base64_encode encode_unpadded padding]. by rewrite IH, app_assoc.
Qed.

Lemma decode_group a b c rest :
  is_byte a -> is_byte b -> is_byte c ->
  b64_decode_loop (encode_group a b c ++ rest) 0 0 = [a; b; c] ++ b64_decode_loop rest 0 0.
Proof.
  unfold is_byte. intros Ha Hb Hc. rewrite encode_group_spec by done.
  cbn [map app]. cbn -[append_bits Z.div Z.modulo Z.land Z.shiftr b64_value b64_char].
  rewrite !b64_value_char by zlia. cbn [default id].
  rewrite !append_bits_spec by (norm_pow; zlia). b64_arith.
  cbn [app]. repeat f_equal; zlia.
Qed.

Lemma decode_unpadded bytes :
  Forall is_byte bytes -> b64_decode_loop (encode_unpadded bytes) 0 0 = bytes.
Proof.
  induction bytes as [| a | a b | a b c l IH] using list_ind3; intros Hall;
    rewrite ?Forall_cons in Hall; unfold is_byte in Hall; cbn [encode_unpadded]; try done.
  - rewrite encode_group_spec by (unfold is_byte; lia).
    cbn -[append_bits Z.div Z.modulo Z.land Z.shiftr b64_value b64_char].
    rewrite !b64_value_char by zlia. cbn [default id].
    rewrite !append_bits_spec by (norm_pow; zlia). norm_pow. b64_arith. f_equal. zlia.
  - rewrite encode_group_spec by (unfold is_byte; lia).
    cbn -[append_bits Z.div Z.modulo Z.land Z.shiftr b64_value b64_char].
    rewrite !b64_value_char by zlia. cbn [default id].
    rewrite !append_bits_spec by (norm_pow; zlia). norm_pow. b64_arith.
    repeat f_equal; zlia.
  - cbn [encode_unpadded]. rewrite decode_group by (unfold is_byte; tauto).
    cbn [app]. rewrite IH; [done|]. repeat constructor; tauto.
Qed.

Lemma encode_unpadded_b64 bytes :
  Forall is_byte bytes -> Forall (fun c => exists n, 0 <= n < 64 /\ c = b64_char n) (encode_unpadded bytes).
Proof.
  induction bytes as [| a | a b | a b c l IH] using list_ind3; intros Hall;
    rewrite ?Forall_cons in Hall; unfold is_byte in Hall; cbn [encode_unpadded];
    rewrite ?encode_group_spec by (unfold is_byte; lia); try constructor.
  all: cbn [map take]; rewrite ?Forall_app; repeat constructor; try (eexists; split; [|reflexivity]; zlia).
  apply IH. repeat constructor; tauto.
Qed.

Lemma length_encode_unpadded bytes :
  (length (encode_unpadded bytes) mod 4 <> 1 /\
   (length (encode_unpadded bytes) + length (padding bytes)) mod 4 = 0)%nat.
Proof.
  induction bytes as [| a | a b | a b c l IH] using list_ind3; try (cbn; lia).
  cbn [encode_unpadded padding]. rewrite length_app. cbn [length encode_group].
  zlia.
Qed.

Lemma b64_char_ne_pad n : 0 <= n < 64 -> b64_char n <> 61.
Proof. intros Hn. unfold b64_char. repeat case_decide; lia. Qed.

Lemma strip_padding_app u pad :
  Forall (fun c => c <> 61) u -> pad = [] \/ pad = [61] \/ pad = [61; 61] ->
  strip_padding (u ++ pad) = u.
Proof.
  intros Hu Hpad. unfold strip_padding.
  destruct u as [|x u _] using rev_ind.
  { destruct Hpad as [-> | [-> | ->]]; cbn; by rewrite ?bool_decide_true. }
  apply Forall_app in Hu as [_ Hx]. apply Forall_cons in Hx as [Hx _].
  rewrite rev_app_distr, rev_unit.
  destruct Hpad as [-> | [-> | ->]]; cbn [rev app].
  - destruct (rev u) as [|y r] eqn:E; cbv beta iota;
      rewrite ?bool_decide_false by naive_solver; by rewrite app_nil_r.
  - cbv beta iota. rewrite bool_decide_false, bool_decide_true by naive_solver.
    cbn [rev]. by rewrite rev_involutive.
  - cbv beta iota. rewrite bool_decide_true by naive_solver.
    cbn [rev]. by rewrite rev_involutive.
Qed.

Lemma encode_no_ws bytes :
  Forall is_byte bytes ->
  Forall (fun c => is_ascii_whitespace c = false) (base64_encode bytes).
Proof.
  intros Hb. rewrite base64_encode_split. apply Forall_app. split.
  - eapply Forall_impl; [by apply encode_unpadded_b64|].
    intros c (n & Hn & ->). by apply b64_char_not_ws.
  - clear Hb. induction bytes as [| a | a b | a b c l IH] using list_ind3;
      cbn; repeat constructor; done.
Qed.

Lemma padding_shape bytes : padding bytes = [] \/ padding bytes = [61] \/ padding bytes = [61; 61].
Proof. induction bytes using list_ind3; cbn; auto. Qed.

(** ** Round trip *)

Lemma forgiving_base64_decode_encode bytes :
  Forall is_byte bytes -> forgiving_base64_decode (base64_encode bytes) = Some bytes.
Proof.
  intros Hb. unfold forgiving_base64_decode.
  rewrite filter_Forall_id by (by apply encode_no_ws).
  pose proof (length_encode_unpadded bytes) as [Hl1 Hl2].
  pose proof (encode_unpadded_b64 bytes Hb) as Hu.
  assert (H0 : (length (encode_unpadded bytes ++ padding bytes) mod 4 = 0)%nat)
    by (rewrite length_app; exact Hl2).
  rewrite base64_encode_split, (decide_True _ _ H0).
  rewrite strip_padding_app; [| |apply padding_shape].
  2: { eapply Forall_impl; [exact Hu|]. intros c (n & Hn & ->). by apply b64_char_ne_pad. }
  rewrite decide_False by done.
  replace (forallb is_b64 (encode_unpadded bytes)) with true.
  - by rewrite decode_unpadded.
  - symmetry. apply forallb_forall. intros c Hc. apply list_elem_of_In in Hc.
    rewrite Forall_forall in Hu. destruct (Hu c Hc) as (n & Hn & ->).
    by apply b64_char_is_b64.
Qed.

(** C9: [atob] inverts [btoa]: decoding the standard base64
    encoding of a binary string gives the string back. *)
Theorem atob_btoa s e : btoa s = Normal e -> atob e = Normal s.
Proof.
  unfold btoa, atob. case_decide as Hs; [|discriminate].
  intros [= <-]. by rewrite forgiving_base64_decode_encode.
Qed.

(** ** Bounds: [atob] returns a binary string *)

Lemma decode_loop_bytes data buf (n : nat) :
  (n = 0 \/ n = 6 \/ n = 12 \/ n = 18)%nat -> 0 <= buf < 2 ^ Z.of_nat n ->
  Forall is_byte (b64_decode_loop data buf n).
Proof.
  unfold is_byte. revert buf n.
  induction data as [|c data IH]; intros buf n Hn Hbuf; cbn [b64_decode_loop].
  - destruct Hn as [-> | [-> | [-> | ->]]]; cbn in Hbuf |- *; repeat constructor;
      b64_arith; zlia.
  - assert (Hv : 0 <= default 0 (b64_value c) < 2 ^ 6).
    { unfold b64_value. norm_pow. repeat case_decide; cbn; lia. }
    rewrite append_bits_spec by (lia || done).
    destruct (Nat.eqb_spec n 18) as [->|Hne].
    + rewrite Forall_app. split.
      * repeat constructor; b64_arith; cbn in Hbuf; zlia.
      * apply IH; [lia | cbn; lia].
    + apply IH; [lia|]. rewrite Nat2Z.inj_add, Z.pow_add_r by lia.
      norm_pow. destruct Hn as [-> | [-> | [-> | ->]]]; cbn in Hbuf |- *; nia.
Qed.

(** C21: what [atob] returns is a binary string: every code unit is
    a byte, below 256. *)
Theorem atob_bytes s r : atob s = Normal r -> Forall is_byte r.
Proof.
  unfold atob, forgiving_base64_decode.
  repeat case_match; intros; simplify_eq; try discriminate;
    apply decode_loop_bytes; cbn; lia.
Qed.

Lemma b64_char_range n : 0 <= n < 64 -> 43 <= b64_char n <= 122.
Proof. intros Hn. unfold b64_char. repeat case_decide; lia. Qed.

(** The encoding is printable ASCII: letters, digits, [+], [/], [=]. *)
Lemma base64_encode_printable bytes :
  Forall is_byte bytes -> Forall (fun c => 33 <= c <= 126) (base64_encode bytes).
Proof.
  intros Hb. rewrite base64_encode_split. apply Forall_app. split.
  - eapply Forall_impl; [by apply encode_unpadded_b64|].
    intros c (n & Hn & ->). pose proof (b64_char_range n Hn). lia.
  - destruct (padding_shape bytes) as [-> | [-> | ->]]; repeat constructor; lia.
Qed.

(** ** Witnesses *)

Lemma atob_btoa_witness :
  btoa (js "alice:secret") = Normal (js "YWxpY2U6c2VjcmV0") /\
  atob (js "YWxpY2U6c2VjcmV0") = Normal (js "alice:secret").
Proof.
  split; [vm_compute; reflexivity|].
  apply atob_btoa. vm_compute. reflexivity.
Defined.

Lemma atob_bytes_witness : atob (js "YQ==") = Normal [97] /\ Forall is_byte [97].
Proof.
  split; [vm_compute; reflexivity|].
  apply (atob_bytes (js "YQ==")). vm_compute. reflexivity.
Defined.
