(* ===== verification/Auth.v ===== *)
(** * The authenticator: checkAuthorization (server.ts lines 198-208)

    [checkAuthorization] matches the header against the regex of line 199
    (anchored at both ends: the literal [Basic], [\s+], a group of [.] repeated
    with [*], the end of input), decodes the captured token with [atob], splits the result on every
    colon and compares the first two pieces with the environment variables
    USER and PASSWORD by strict equality.  The regex is modelled as the
    backtracking matcher of ECMA-262 (RepeatMatcher for the greedy [+] and
    [*]) and proved equal to a closed form; the environment is a record of
    the two optional values [Deno.env.get] returns. *)

From S2P Require Import Prelude JsString Base64.

Local Open Scope Z_scope.

(** ** The process environment read by Deno.env.get *)

Record env := mk_env {
  env_USER : option jsstr;
  env_PASSWORD : option jsstr
}.

(** ** The regex of line 199 *)

Module BasicRegex.

(** The class [.] without the [s] flag: any code unit but a line
    terminator. *)
Definition dot (c : Z) : bool := negb (is_line_terminator c).

(** The class [\s]: WhiteSpace and LineTerminator, the set [trim]
    removes. *)
Definition space (c : Z) : bool := is_trim_ws c.

(** RepeatMatcher of ECMA-262 for a greedy quantifier [{min,}] over a
    one-character class: while [min] is positive an iteration is
    required; once it is zero, one more iteration is tried first and the
    continuation [k] on the current input only when that fails. *)
Fixpoint star_greedy {R} (cls : Z -> bool) (min : nat) (s : jsstr)
    (k : jsstr -> option R) : option R :=
  let more := match s with
              | c :: s' => if cls c then star_greedy cls (pred min) s' k else None
              | [] => None
              end in
  match min with
  | O => match more with Some r => Some r | None => k s end
  | S _ => more
  end.

(** [^] at position 0 (the match has no [g] or [y] flag, so later start
    positions fail at [^]), the literal [Basic], [\s+], the group
    of [.] repeated by [*], and [$].  The result is [match[1]], the text of the group. *)
Definition exec (s : jsstr) : option jsstr :=
  match strip_prefix (js "Basic") s with
  | None => None
  | Some r1 =>
      star_greedy space 1 r1 (fun r2 =>
        star_greedy dot 0 r2 (fun r3 =>
          match r3 with
          | [] => Some (take (length r2 - length r3) r2)
          | _ => None
          end))
  end.

(** The closed form: after [Basic], at least one white space, then the
    rest, which must hold no line terminator. *)
Definition credentials (s : jsstr) : option jsstr :=
  match strip_prefix (js "Basic") s with
  | None => None
  | Some r =>
      let u := drop_while space r in
      if bool_decide (length u < length r)%nat && forallb dot u then Some u else None
  end.

End BasicRegex.

(** ** checkAuthorization *)

(** [const [user, password] = atob(match[1]).split(":")] reads the first
    two pieces, [undefined] for a missing one; [===] on a string and
    [undefined] is false, and on two [undefined] true, which [option]
    equality reproduces. *)
Definition checkAuthorization (e : env) (authorization : jsstr) : completion bool :=
  match BasicRegex.exec authorization with
  | Some token =>
      decoded ← atob token;
      let parts := split 58 decoded in
      let user := parts !! 0%nat in
      let password := parts !! 1%nat in
      mret (bool_decide (env_USER e = user) && bool_decide (env_PASSWORD e = password))
  | None => mret false
  end.

(** ** The regex matcher agrees with its closed form *)

Section RegexLemmas.
Import BasicRegex.

(** A continuation that fails on a suffix fails on any longer string: the
    shape of every continuation of the pattern. *)
Definition antitone {R} (k : jsstr -> option R) : Prop :=
  forall c t, k t = None -> k (c :: t) = None.

Lemma antitone_app {R} (k : jsstr -> option R) w t :
  antitone k -> k t = None -> k (w ++ t) = None.
Proof. intros Hk Ht. induction w; cbn; auto. Qed.

(** With no iteration required, the greedy star behaves as its
    continuation run after the longest run of the class. *)
Lemma star_greedy_0 {R} cls s (k : jsstr -> option R) :
  antitone k -> star_greedy cls 0 s k = k (drop_while cls s).
Proof.
  intros Hk. induction s as [|c s IH]; cbn; [done|].
  destruct (cls c) eqn:E; [|done].
  rewrite IH. destruct (k (drop_while cls s)) eqn:Ek; [done|].
  destruct (drop_while_split cls s) as (w & Hw & _).
  rewrite Hw. change (c :: w ++ drop_while cls s) with ((c :: w) ++ drop_while cls s).
  by apply antitone_app.
Qed.

Lemma drop_while_nil_forallb {A} (p : A -> bool) l :
  drop_while p l = [] <-> forallb p l = true.
Proof.
  induction l as [|x l IH]; cbn; [done|].
  destruct (p x); cbn; [done|]. split; discriminate.
Qed.

Lemma drop_while_length {A} (p : A -> bool) l : (length (drop_while p l) <= length l)%nat.
Proof. induction l as [|x l IH]; cbn; [lia|]. destruct (p x); cbn; lia. Qed.

Definition end_group (r2 r3 : jsstr) : option jsstr :=
  match r3 with
  | [] => Some (take (length r2 - length r3) r2)
  | _ => None
  end.

Lemma dot_star_end r2 :
  star_greedy dot 0 r2 (end_group r2) = if forallb dot r2 then Some r2 else None.
Proof.
  rewrite star_greedy_0 by (by intros c t _).
  destruct (forallb dot r2) eqn:E.
  - apply drop_while_nil_forallb in E. rewrite E. cbn. by rewrite Nat.sub_0_r, take_ge.
  - destruct (drop_while dot r2) eqn:E2; [|done].
    apply drop_while_nil_forallb in E2. congruence.
Qed.

(** C10: the backtracking matcher of the regex computes the
    closed form: after [Basic], the longest run of white space (at least
    one character), then the rest of the header as the captured token,
    which must hold no line terminator. *)
Theorem exec_credentials s : exec s = credentials s.
Proof.
  unfold exec, credentials. destruct (strip_prefix (js "Basic") s) as [r1|]; [|done].
  change (fun r2 => star_greedy dot 0 r2 _) with (fun r2 => star_greedy dot 0 r2 (end_group r2)).
  destruct r1 as [|c r]; [done|]. cbn [star_greedy pred drop_while].
  destruct (space c) eqn:Ec.
  - rewrite star_greedy_0.
    + rewrite dot_star_end. pose proof (drop_while_length space r).
      rewrite bool_decide_true by (cbn; lia). done.
    + intros c' t. cbv beta. rewrite !dot_star_end. cbn [forallb].
      destruct (dot c'), (forallb dot t); cbn; congruence.
  - cbv beta iota. rewrite bool_decide_false by (cbn; lia). done.
Qed.

Lemma credentials_intro w cap :
  w <> [] -> Forall (fun c => space c = true) w ->
  forallb dot cap = true -> (forall c t, cap = c :: t -> space c = false) ->
  credentials (js "Basic" ++ w ++ cap) = Some cap.
Proof.
  intros Hw Hws Hdot Hhead. unfold credentials. rewrite strip_prefix_app.
  rewrite drop_while_app by done.
  assert (Hd : drop_while space cap = cap).
  { destruct cap as [|c t]; [done|]. cbn. by rewrite (Hhead c t eq_refl). }
  rewrite Hd, Hdot, length_app, bool_decide_true; [done|].
  destruct w; [done|]. cbn; lia.
Qed.
End RegexLemmas.

(** ** What checkAuthorization accepts *)

(** The credential test on a decoded token, as the code performs it. *)
Definition credentials_match (e : env) (decoded : jsstr) : Prop :=
  exists u, env_USER e = Some u /\ (58 ∉ u) /\
    ((env_PASSWORD e = None /\ decoded = u) \/
     (exists p, env_PASSWORD e = Some p /\ (58 ∉ p) /\
        (decoded = u ++ 58 :: p \/ exists rest, decoded = u ++ 58 :: p ++ 58 :: rest))).

Lemma split_match e decoded :
  bool_decide (env_USER e = split 58 decoded !! 0%nat) &&
  bool_decide (env_PASSWORD e = split 58 decoded !! 1%nat) = true <->
  credentials_match e decoded.
Proof.
  rewrite andb_true_iff, !bool_decide_eq_true. unfold credentials_match. split.
  - destruct (split_first_two 58 decoded)
      as [(Hn & -> & ->) | (u & p & Hu & Hp & -> & -> & Hs)]; intros [HU HP].
    + exists decoded. naive_solver.
    + exists u. naive_solver.
  - intros (u & HU & Hu & [(HP & ->) | (p & HP & Hp & [-> | (rest & ->)])]);
      rewrite HU, HP.
    + by rewrite split_no_sep.
    + by rewrite split_app_sep, split_no_sep.
    + by rewrite !split_app_sep.
Qed.

Lemma checkAuthorization_decode e a :
  checkAuthorization e a =
  match BasicRegex.credentials a with
  | Some token =>
      decoded ← atob token;
      mret (bool_decide (env_USER e = split 58 decoded !! 0%nat) &&
            bool_decide (env_PASSWORD e = split 58 decoded !! 1%nat))
  | None => mret false
  end.
Proof. unfold checkAuthorization. by rewrite exec_credentials. Qed.

(** The header a client sends: [Basic], one space, a printable token. *)
Lemma credentials_basic_header tok :
  Forall (fun c => 33 <= c <= 126) tok ->
  BasicRegex.credentials (js "Basic " ++ tok) = Some tok.
Proof.
  intros Htok. change (js "Basic ") with (js "Basic" ++ [32]). rewrite <- app_assoc.
  apply credentials_intro; [done | by repeat constructor | |].
  - apply forallb_forall. intros c Hc.
    rewrite Forall_forall in Htok. unfold BasicRegex.dot.
    by rewrite printable_not_lt by (apply Htok, list_elem_of_In, Hc).
  - intros c t ->. apply Forall_cons in Htok as [Hc _]. by apply printable_not_ws.
Qed.

Lemma checkAuthorization_btoa e decoded tok :
  btoa decoded = Normal tok ->
  checkAuthorization e (js "Basic " ++ tok) = Normal (bool_decide (env_USER e = split 58 decoded !! 0%nat) &&
            bool_decide (env_PASSWORD e = split 58 decoded !! 1%nat)).
Proof.
  intros Hb. rewrite checkAuthorization_decode.
  assert (Hbytes : Forall is_byte decoded) by (unfold btoa in Hb; case_decide; congruence).
  assert (Htok : tok = base64_encode decoded) by (unfold btoa in Hb; case_decide; congruence).
  rewrite credentials_basic_header by (subst; by apply base64_encode_printable).
  by rewrite (atob_btoa _ _ Hb).
Qed.

(** ** Properties of the authenticator *)

Lemma checkAuthorization_accepted_inv e a :
  checkAuthorization e a = Normal true ->
  exists token decoded, BasicRegex.exec a = Some token /\
    atob token = Normal decoded /\ credentials_match e decoded.
Proof.
  rewrite checkAuthorization_decode, exec_credentials.
  destruct (BasicRegex.credentials a) as [token|]; rewrite ?mret_Normal; [|discriminate].
  destruct (atob token) as [decoded|ex] eqn:Ea; cbn; rewrite ?mret_Normal; [|discriminate].
  intros [= Hm]. exists token, decoded. split; [done|]. split; [done|]. by apply split_match.
Qed.

(** C6: checkAuthorization returns [true] exactly when the header
    is [Basic], white space and a token, the token decodes, and the decoded
    text splits into USER and PASSWORD as [credentials_match] describes:
    the user before the first colon, and either no colon at all with
    PASSWORD unset, or the password between the first and the second
    colon. *)
Theorem checkAuthorization_true_iff e a :
  checkAuthorization e a = Normal true <->
  exists token decoded, BasicRegex.exec a = Some token /\
    atob token = Normal decoded /\ credentials_match e decoded.
Proof.
  rewrite checkAuthorization_decode, exec_credentials.
  destruct (BasicRegex.credentials a) as [token|]; [|split; [discriminate | naive_solver]].
  destruct (atob token) as [decoded|ex] eqn:Ea; cbn; rewrite ?mret_Normal.
  - split.
    + intros [= Hm]. exists token, decoded. split; [done|]. split; [done|].
      by apply split_match.
    + intros (? & d & [= <-] & Ha & H). rewrite Ea in Ha. injection Ha as <-.
      apply split_match in H. by rewrite H.
  - split; [discriminate | intros (? & ? & [= <-] & Ha & _); congruence].
Qed.

(** C11: checkAuthorization throws exactly when the header has
    the Basic shape and its token is not valid base64; it never throws
    otherwise. *)
Theorem checkAuthorization_throw e a ex :
  checkAuthorization e a = Throw ex <->
  exists token, BasicRegex.exec a = Some token /\ atob token = Throw ex.
Proof.
  rewrite checkAuthorization_decode, exec_credentials.
  destruct (BasicRegex.credentials a) as [token|]; cbn; rewrite ?mret_Normal.
  - destruct (atob token) eqn:Ea; cbn; rewrite ?mret_Normal; split.
    + discriminate.
    + intros (? & [= <-] & Ha). congruence.
    + intros [= ->]. eauto.
    + intros (? & [= <-] & Ha). congruence.
  - split; [discriminate | intros (? & [=] & _)].
Qed.

(** C7: a browser that sends the configured USER and PASSWORD
    (neither holding a colon, both binary strings so that [btoa] encodes
    them) is let in. *)
Theorem checkAuthorization_accepts u p tok :
  (58 ∉ u) -> (58 ∉ p) -> btoa (u ++ 58 :: p) = Normal tok ->
  checkAuthorization (mk_env (Some u) (Some p)) (js "Basic " ++ tok) = Normal true.
Proof.
  intros Hu Hp Hb. rewrite (checkAuthorization_btoa _ _ _ Hb). f_equal.
  apply split_match. exists u. naive_solver.
Qed.

(** C8: credentials whose user differs from USER are refused,
    whatever the password. *)
Theorem checkAuthorization_rejects_user e u p tok :
  (58 ∉ u) -> env_USER e <> Some u -> btoa (u ++ 58 :: p) = Normal tok ->
  checkAuthorization e (js "Basic " ++ tok) = Normal false.
Proof.
  intros Hu HU Hb. rewrite (checkAuthorization_btoa _ _ _ Hb). f_equal.
  rewrite split_app_sep by done. cbn. by rewrite bool_decide_false.
Qed.

(** C13: with PASSWORD unset in the environment, the
    token of the bare user name (no colon, no password) is accepted:
    [password] is [undefined] and so is [Deno.env.get("PASSWORD")]. *)
Theorem unset_password_bypass u tok :
  (58 ∉ u) -> btoa u = Normal tok ->
  checkAuthorization (mk_env (Some u) None) (js "Basic " ++ tok) = Normal true.
Proof.
  intros Hu Hb. rewrite (checkAuthorization_btoa _ _ _ Hb). f_equal.
  apply split_match. exists u. naive_solver.
Qed.

(** C14: a configured password that holds a colon can
    never be entered: the decoded text is split on every colon, so the
    second piece never holds one. *)
Theorem colon_password_rejected e a p :
  env_PASSWORD e = Some p -> 58 ∈ p -> checkAuthorization e a <> Normal true.
Proof.
  intros HP Hp Hacc. apply checkAuthorization_accepted_inv in Hacc
    as (token & decoded & _ & _ & u & _ & _ & [(HP' & _) | (p' & HP' & Hp' & _)]);
    congruence.
Qed.

(** C15: text after a second colon is ignored: the token of
    [user:password:anything] is accepted for USER=user, PASSWORD=password,
    where a split on the first colon only would compare
    [password:anything]. *)
Theorem extra_colon_accepted u p rest tok :
  (58 ∉ u) -> (58 ∉ p) -> btoa (u ++ 58 :: p ++ 58 :: rest) = Normal tok ->
  checkAuthorization (mk_env (Some u) (Some p)) (js "Basic " ++ tok) = Normal true.
Proof.
  intros Hu Hp Hb. rewrite (checkAuthorization_btoa _ _ _ Hb). f_equal.
  apply split_match. exists u. naive_solver.
Qed.

(** ** Witnesses *)

Definition alice_env : env := mk_env (Some (js "alice")) (Some (js "secret")).

Lemma checkAuthorization_accepts_witness :
  btoa (js "alice:secret") = Normal (js "YWxpY2U6c2VjcmV0") /\
  checkAuthorization alice_env (js "Basic " ++ js "YWxpY2U6c2VjcmV0") = Normal true.
Proof.
  split; [vm_compute; reflexivity|].
  apply (checkAuthorization_accepts (js "alice") (js "secret")); [decide_closed | decide_closed |].
  vm_compute. reflexivity.
Defined.

Lemma checkAuthorization_rejects_user_witness :
  btoa (js "mallory:secret") = Normal (js "bWFsbG9yeTpzZWNyZXQ=") /\
  checkAuthorization alice_env (js "Basic " ++ js "bWFsbG9yeTpzZWNyZXQ=") = Normal false.
Proof.
  split; [vm_compute; reflexivity|].
  apply (checkAuthorization_rejects_user alice_env (js "mallory") (js "secret"));
    [decide_closed | vm_compute; discriminate | vm_compute; reflexivity].
Defined.

Lemma unset_password_bypass_witness :
  btoa (js "alice") = Normal (js "YWxpY2U=") /\
  checkAuthorization (mk_env (Some (js "alice")) None) (js "Basic " ++ js "YWxpY2U=") = Normal true.
Proof.
  split; [vm_compute; reflexivity|].
  apply (unset_password_bypass (js "alice")); [decide_closed | vm_compute; reflexivity].
Defined.

Lemma colon_password_rejected_witness :
  checkAuthorization (mk_env (Some (js "alice")) (Some (js "se:cret"))) (js "Basic YWxpY2U6c2U6Y3JldA==")
    <> Normal true.
Proof.
  apply (colon_password_rejected _ _ (js "se:cret")); [reflexivity | decide_closed].
Defined.

Lemma extra_colon_accepted_witness :
  btoa (js "alice:secret:junk") = Normal (js "YWxpY2U6c2VjcmV0Omp1bms=") /\
  checkAuthorization alice_env (js "Basic " ++ js "YWxpY2U6c2VjcmV0Omp1bms=") = Normal true.
Proof.
  split; [vm_compute; reflexivity|].
  apply (extra_colon_accepted (js "alice") (js "secret") (js "junk"));
    [decide_closed | decide_closed | vm_compute; reflexivity].
Defined.
