(* ===== verification/Router.v ===== *)
(** * The router: the two URLPatterns of server.ts (lines 3-6, 23, 36)

    [routes.home] is [new URLPattern({ pathname: "/" })] and [routes.note]
    is [new URLPattern({ pathname: "/:id" })]; every other component of
    both patterns is the wildcard.  A request is matched on the pathname of
    its URL, as the URL parser serialises it (percent-encoded, dot segments
    removed).  The pattern ["/"] compiles to the regex [^\/$] and ["/:id"]
    to [^\/([^\/]+?)$]: one non-empty segment without a slash, captured as
    [groups.id].  The handler tests [home] first, then [note]. *)

From S2P Require Import Prelude.

Local Open Scope Z_scope.

Module Router.

(** [routes.home.test(req.url)] *)
Definition home_test (pathname : jsstr) : bool := bool_decide (pathname = js "/").

(** [routes.note.exec(req.url)?.pathname.groups.id]: the anchored lazy
    group [[^\/]+?] can only end at the end of input, so it captures the
    whole rest of the pathname, which must be non-empty and slash-free. *)
Definition note_exec (pathname : jsstr) : option jsstr :=
  match pathname with
  | c :: id => if bool_decide (c = 47 /\ id <> [] /\ 47 ∉ id) then Some id else None
  | [] => None
  end.

(** The dispatch of the handler: the home route, a note route with the
    raw (still percent-encoded) id, or no route (the 404 page). *)
Inductive route :=
| Home
| Note (raw_id : jsstr)
| NoRoute.

Definition classify (pathname : jsstr) : route :=
  if home_test pathname then Home
  else match note_exec pathname with
       | Some id => Note id
       | None => NoRoute
       end.

End Router.

Section RouterLemmas.
Import Router.

Lemma note_exec_spec p id :
  note_exec p = Some id <-> p = 47 :: id /\ id <> [] /\ (47 ∉ id).
Proof.
  unfold note_exec. destruct p as [|c rest]; [naive_solver|].
  case_bool_decide; naive_solver.
Qed.

(** A pathname of one non-empty segment without a slash is the note
    route, with that segment as its raw id. *)
Lemma classify_note id :
  id <> [] -> (47 ∉ id) -> classify (47 :: id) = Note id.
Proof.
  intros Hne Hn. unfold classify, home_test.
  rewrite bool_decide_false.
  - by rewrite (proj2 (note_exec_spec (47 :: id) id)).
  - intros [= ->]. done.
Qed.

(** A pathname of two or more segments (or an empty segment) matches
    neither route: the handler answers 404. *)
Lemma classify_nested a b :
  classify (47 :: a ++ 47 :: b) = NoRoute.
Proof.
  unfold classify, home_test. rewrite bool_decide_false.
  - destruct (note_exec _) eqn:E; [|done].
    apply note_exec_spec in E as ([= <-] & _ & Hn). set_solver.
  - destruct a; discriminate.
Qed.

(** The two patterns never both match. *)
Lemma home_not_note p : home_test p = true -> note_exec p = None.
Proof. unfold home_test. case_bool_decide; [subst; done | discriminate]. Qed.

Lemma classify_home : classify (js "/") = Home.
Proof. done. Qed.
End RouterLemmas.
