(* ===== verification/Uri.v ===== *)
(** * decodeURI (server.ts line 39)

    The handler decodes the raw id of the note route with [decodeURI], the
    Decode operation of ECMA-262 with the reserved set [;/?:@&=+$,#]: each
    [%XY] escape of an ASCII byte becomes that character, except a reserved
    one, which stays escaped; a run of escapes of a multi-byte sequence must
    be well-formed UTF-8 and becomes the code point's UTF-16 encoding; a
    malformed escape throws URIError.  Modelled from the standard, as a loop
    with fuel (one unit per iteration, the length of the input suffices). *)

From S2P Require Import Prelude.

Local Open Scope Z_scope.

Module Uri.

Definition hex_digit (c : Z) : option Z :=
  if decide (48 <= c <= 57) then Some (c - 48)
  else if decide (65 <= c <= 70) then Some (c - 55)
  else if decide (97 <= c <= 102) then Some (c - 87)
  else None.

(** ParseHexOctet *)
Definition parse_hex_octet (c1 c2 : Z) : option Z :=
  d1 ← hex_digit c1; d2 ← hex_digit c2; Some (d1 * 16 + d2).

(** The number of leading one bits of a byte. *)
Definition leading_ones (b : Z) : nat :=
  if negb (Z.testbit b 7) then 0
  else if negb (Z.testbit b 6) then 1
  else if negb (Z.testbit b 5) then 2
  else if negb (Z.testbit b 4) then 3
  else if negb (Z.testbit b 3) then 4
  else 5.

(** The reserved set of decodeURI: [; / ? : @ & = + $ , #]. *)
Definition uri_reserved (c : Z) : bool :=
  bool_decide (c = 59 \/ c = 47 \/ c = 63 \/ c = 58 \/ c = 64 \/ c = 38
               \/ c = 61 \/ c = 43 \/ c = 36 \/ c = 44 \/ c = 35).

(** Step 4.c.viii.4: [j] more escapes [%XY], each a continuation octet. *)
Fixpoint read_octets (j : nat) (s : jsstr) : completion (list Z * jsstr) :=
  match j with
  | O => Normal ([], s)
  | S j' =>
      match s with
      | c :: h1 :: h2 :: rest =>
          if bool_decide (c = 37) then
            match parse_hex_octet h1 h2 with
            | Some b => '(bs, rest') ← read_octets j' rest; Normal (b :: bs, rest')
            | None => Throw URIError
            end
          else Throw URIError
      | _ => Throw URIError
      end
  end.

Definition is_continuation (b : Z) : bool := bool_decide (128 <= b < 192).

(** The UTF-8 transformation of 2 to 4 octets, with the checks of a valid
    encoding (RFC 3629): continuation octets, no overlong form, no
    surrogate, at most U+10FFFF. *)
Definition utf8_decode (octets : list Z) : option Z :=
  let v :=
    match octets with
    | [b1; b2] => Some (Z.land b1 31 * 64 + Z.land b2 63, 128)
    | [b1; b2; b3] => Some ((Z.land b1 15 * 64 + Z.land b2 63) * 64 + Z.land b3 63, 2048)
    | [b1; b2; b3; b4] =>
        Some (((Z.land b1 7 * 64 + Z.land b2 63) * 64 + Z.land b3 63) * 64 + Z.land b4 63, 65536)
    | _ => None
    end in
  match v with
  | Some (cp, least) =>
      if forallb is_continuation (tail octets) &&
         bool_decide (least <= cp <= 1114111 /\ ~ (55296 <= cp <= 57343))
      then Some cp else None
  | None => None
  end.

(** UTF16EncodeCodePoint *)
Definition utf16_encode (cp : Z) : jsstr :=
  if decide (cp <= 65535) then [cp]
  else [55296 + (cp - 65536) / 1024; 56320 + (cp - 65536) mod 1024].

Fixpoint decode_loop (fuel : nat) (reserved : Z -> bool) (s : jsstr) : completion jsstr :=
  match fuel with
  | O => Normal []
  | S fuel' =>
      match s with
      | [] => Normal []
      | c :: rest =>
          if bool_decide (c = 37) then
            match rest with
            | h1 :: h2 :: rest' =>
                match parse_hex_octet h1 h2 with
                | None => Throw URIError
                | Some b =>
                    match leading_ones b with
                    | O =>
                        r ← decode_loop fuel' reserved rest';
                        Normal ((if reserved b then [37; h1; h2] else [b]) ++ r)
                    | n =>
                        if bool_decide (n = 1%nat \/ (4 < n)%nat) then Throw URIError
                        else
                          '(octets, rest'') ← read_octets (pred n) rest';
                          match utf8_decode (b :: octets) with
                          | None => Throw URIError
                          | Some cp =>
                              r ← decode_loop fuel' reserved rest'';
                              Normal (utf16_encode cp ++ r)
                          end
                    end
                end
            | _ => Throw URIError
            end
          else r ← decode_loop fuel' reserved rest; Normal (c :: r)
      end
  end.

Definition decodeURI (s : jsstr) : completion jsstr :=
  decode_loop (length s) uri_reserved s.

End Uri.

Section UriLemmas.
Import Uri.

Lemma read_octets_length j s bs rest :
  read_octets j s = Normal (bs, rest) -> (length rest + 3 * j = length s)%nat.
Proof.
  revert s bs rest. induction j as [|j IH]; intros s bs rest; cbn.
  - intros [= <- <-]. lia.
  - destruct s as [|c [|h1 [|h2 s]]]; try discriminate.
    case_bool_decide; [|discriminate].
    destruct (parse_hex_octet h1 h2); [|discriminate].
    destruct (read_octets j s) as [[bs' rest']|] eqn:E; cbn; [|discriminate].
    intros [= <- <-]. apply IH in E. cbn. lia.
Qed.

(** The loop runs one iteration per escape or character, so
    any fuel at least the length of the input gives the same result as
    the length: [decodeURI] is the total function the standard
    describes. *)
Lemma decode_loop_fuel f1 f2 reserved s :
  (length s <= f1)%nat -> (length s <= f2)%nat ->
  decode_loop f1 reserved s = decode_loop f2 reserved s.
Proof.
  revert f2 s. induction f1 as [|f1 IH]; intros [|f2] s H1 H2.
  - done.
  - destruct s; [done | cbn in H1; lia].
  - destruct s; [done | cbn in H2; lia].
  - destruct s as [|c rest]; [done|]. cbn in H1, H2 |- *.
    case_bool_decide.
    + destruct rest as [|h1 [|h2 rest']]; try done.
      destruct (parse_hex_octet h1 h2) as [b|]; [|done]. cbn in H1, H2.
      destruct (leading_ones b) as [|n].
      * rewrite (IH f2) by lia. done.
      * case_bool_decide; [done|].
        destruct (read_octets n rest') as [[octs rest'']|] eqn:E;
          rewrite ?bind_Normal, ?bind_Throw; [|done].
        apply read_octets_length in E.
        destruct (utf8_decode (b :: octs)); [|done].
        rewrite (IH f2) by lia. done.
    + rewrite (IH f2) by lia. done.
Qed.

(** A string with no percent sign decodes to itself. *)
Lemma decode_loop_no_percent f reserved s :
  (length s <= f)%nat -> (37 ∉ s) -> decode_loop f reserved s = Normal s.
Proof.
  revert s. induction f as [|f IH]; intros [|c s] Hf Hn; cbn in *; try done; [lia|].
  rewrite elem_of_cons in Hn. rewrite bool_decide_false by naive_solver.
  rewrite IH by (lia || naive_solver). done.
Qed.
End UriLemmas.

Section UriProperties.
Import Uri.

(** [decodeURI] leaves a string without a percent sign unchanged, so a
    note id typed without one is its own path segment. *)
Lemma decodeURI_no_percent s : (37 ∉ s) -> decodeURI s = Normal s.
Proof. intros Hn. by apply decode_loop_no_percent. Qed.
End UriProperties.
