(* ===== verification/Url.v ===== *)
(** * How the browser turns a link into a request path

    The list page links each note as [href="/${id}"] (line 69) and the
    new-note form sets [document.location = '/' + name] (line 83); neither
    encodes the id.  The browser resolves that text with the WHATWG URL
    parser against the page's [http(s)] URL, and the request it sends
    carries the serialized path, which is what [req.url]'s pathname is on
    the server.  The edit page's Back link is the path-relative [../]
    (line 96).  [Url.resolve_path] models the parser on a reference without
    a scheme or host against the page's path: stripping of C0 controls and
    spaces at the ends, removal of tabs and newlines, the relative state
    (a path-absolute reference starts from an empty path, a path-relative
    one from the base path without its last segment), the path state with
    its [.] and [..] segments, [\] as a separator, the end of the path at
    [?] or [#], and UTF-8 percent-encoding with the path percent-encode
    set.  Modelled from the URL and Encoding standards. *)

From S2P Require Import Prelude JsString Router Uri.

Local Open Scope Z_scope.

Module Url.

(** The scalar values of a JavaScript string (a USVString conversion:
    a lone surrogate becomes U+FFFD). *)
Fixpoint to_scalars (s : jsstr) : list Z :=
  match s with
  | [] => []
  | c :: rest =>
      if decide (55296 <= c <= 56319) then
        match rest with
        | d :: rest' =>
            if decide (56320 <= d <= 57343) then
              (65536 + (c - 55296) * 1024 + (d - 56320)) :: to_scalars rest'
            else 65533 :: to_scalars rest
        | [] => [65533]
        end
      else if decide (56320 <= c <= 57343) then 65533 :: to_scalars rest
      else c :: to_scalars rest
  end.

(** A well-formed UTF-16 string: code units, every high surrogate
    followed by a low one, no low surrogate alone. *)
Fixpoint utf16_well_formed (s : jsstr) : bool :=
  match s with
  | [] => true
  | c :: rest =>
      if decide (55296 <= c <= 56319) then
        match rest with
        | d :: rest' => bool_decide (56320 <= d <= 57343) && utf16_well_formed rest'
        | [] => false
        end
      else bool_decide (0 <= c < 65536 /\ ~ (56320 <= c <= 57343)) && utf16_well_formed rest
  end.

(** Encoding standard, UTF-8 encoder: the lead byte [(cp >> 6 count) +
    offset], then [count] bytes [0x80 | ((cp >> 6 i) & 0x3F)]. *)
Definition utf8_encode (cp : Z) : list Z :=
  if decide (cp < 128) then [cp]
  else
    let '(count, offset) :=
      if decide (cp < 2048) then (1%nat, 192)
      else if decide (cp < 65536) then (2%nat, 224) else (3%nat, 240) in
    (Z.shiftr cp (6 * Z.of_nat count) + offset)
      :: map (fun i => Z.lor 128 (Z.land (Z.shiftr cp (6 * Z.of_nat i)) 63)) (rev (seq 0 count)).

(** An ASCII upper hex digit. *)
Definition hex_upper (d : Z) : Z := if decide (d < 10) then 48 + d else 55 + d.

(** Percent-encode a byte: [%] and two upper-case hex digits. *)
Definition percent_byte (b : Z) : jsstr := [37; hex_upper (b / 16); hex_upper (b mod 16)].

(** The path percent-encode set: C0 controls, non-ASCII, space, U+0022 (quotation mark), [#],
    [<], [>], [?], [^], [`], [{] and [}]. *)
Definition in_path_set (c : Z) : bool :=
  bool_decide (c < 32 \/ 126 < c \/ c = 32 \/ c = 34 \/ c = 35 \/ c = 60 \/ c = 62
               \/ c = 63 \/ c = 94 \/ c = 96 \/ c = 123 \/ c = 125).

(** UTF-8 percent-encode a scalar value. *)
Definition encode_scalar (c : Z) : jsstr :=
  if in_path_set c then utf8_encode c ≫= percent_byte else [c].

Definition ascii_lower (s : jsstr) : jsstr :=
  map (fun c => if decide (65 <= c <= 90) then c + 32 else c) s.

Definition single_dot (buf : jsstr) : bool :=
  bool_decide (ascii_lower buf ∈ [js "."; js "%2e"]).

Definition double_dot (buf : jsstr) : bool :=
  bool_decide (ascii_lower buf ∈ [js ".."; js ".%2e"; js "%2e."; js "%2e%2e"]).

(** The end of a segment in the path state: [at_slash] when the
    character that ends it is a separator (not [?], [#] or the end). *)
Definition end_segment (buf : jsstr) (path : list jsstr) (at_slash : bool) : list jsstr :=
  if double_dot buf then
    removelast path ++ (if at_slash then [] else [[]])
  else if single_dot buf then (if at_slash then path else path ++ [[]])
  else path ++ [buf].

(** The path state over the scalar values after the leading slash. *)
Fixpoint path_state (buf : jsstr) (path : list jsstr) (cs : list Z) : list jsstr :=
  match cs with
  | [] => end_segment buf path false
  | c :: rest =>
      if bool_decide (c = 47 \/ c = 92) then path_state [] (end_segment buf path true) rest
      else if bool_decide (c = 63 \/ c = 35) then end_segment buf path false
      else path_state (buf ++ encode_scalar c) path rest
  end.

(** The URL path serializer. *)
Definition serialize_path (path : list jsstr) : jsstr := path ≫= fun seg => 47 :: seg.

Definition is_c0_or_space (c : Z) : bool := bool_decide (c <= 32).

Definition is_tab_or_newline (c : Z) : bool := bool_decide (c = 9 \/ c = 10 \/ c = 13).

(** The pathname of the URL a reference resolves to against the page
    whose path has the segments [base].  After the stripping, a reference
    that starts with a slash is path-absolute (the relative slash state,
    then the path state from an empty path); one that starts with [?] or
    [#], or is empty, keeps the base path; any other is path-relative (the
    relative state shortens the base path, then the path state reads the
    whole reference).  [None] when the reference starts with two slashes
    (another host) or with a scheme (an ASCII letter, letters, digits,
    [+], [-] or [.], then [:]), which the development does not follow. *)
Definition resolve_path (base : list jsstr) (href : jsstr) : option jsstr :=
  let s := filter (fun c => negb (is_tab_or_newline c))
             (rev (drop_while is_c0_or_space (rev (drop_while is_c0_or_space href)))) in
  match s with
  | c :: rest =>
      if bool_decide (c = 47 \/ c = 92) then
        match rest with
        | d :: _ => if bool_decide (d = 47 \/ d = 92) then None
                    else Some (serialize_path (path_state [] [] (to_scalars rest)))
        | [] => Some (serialize_path (path_state [] [] []))
        end
      else if bool_decide (65 <= c <= 90 \/ 97 <= c <= 122) &&
              bool_decide (head (drop_while (fun d => bool_decide (65 <= d <= 90 \/ 97 <= d <= 122
                                   \/ 48 <= d <= 57 \/ d = 43 \/ d = 45 \/ d = 46)) rest) = Some 58)
      then None
      else if bool_decide (c = 63 \/ c = 35) then Some (serialize_path base)
      else Some (serialize_path (path_state [] (removelast base) (to_scalars s)))
  | [] => Some (serialize_path base)
  end.

End Url.

(** ** Bytes and escapes *)

Section ByteFacts.
Import Url.

Lemma parse_percent_byte :
  forall b, 0 <= b < 256 -> Uri.parse_hex_octet (hex_upper (b / 16)) (hex_upper (b mod 16)) = Some b.
Proof. range_check. Qed.

Lemma lor_128 : forall x, 0 <= x < 64 -> Z.lor 128 x = 128 + x.
Proof. range_check. Qed.

Lemma leading_ones_ascii : forall b, 0 <= b < 128 -> Uri.leading_ones b = 0%nat.
Proof. range_check. Qed.

Lemma leading_ones_lead2 : forall b, 192 <= b < 224 -> Uri.leading_ones b = 2%nat.
Proof. range_check. Qed.

Lemma leading_ones_lead3 : forall b, 224 <= b < 240 -> Uri.leading_ones b = 3%nat.
Proof. range_check. Qed.

Lemma leading_ones_lead4 : forall b, 240 <= b < 248 -> Uri.leading_ones b = 4%nat.
Proof. range_check. Qed.

Lemma land_lead2 : forall b, 192 <= b < 224 -> Z.land b 31 = b - 192.
Proof. range_check. Qed.

Lemma land_lead3 : forall b, 224 <= b < 240 -> Z.land b 15 = b - 224.
Proof. range_check. Qed.

Lemma land_lead4 : forall b, 240 <= b < 248 -> Z.land b 7 = b - 240.
Proof. range_check. Qed.

Lemma land_cont : forall b, 128 <= b < 192 -> Z.land b 63 = b - 128.
Proof. range_check. Qed.

(** The ASCII characters both percent-encoded in a path and reserved by
    decodeURI are [#] and [?]. *)
Lemma path_set_reserved : forall b, 0 <= b < 128 ->
  in_path_set b = true -> Uri.uri_reserved b = true -> b = 35 \/ b = 63.
Proof. range_check. Qed.

(** An escape never reads [%2e] in any case: [.] is not in the path set,
    and the lead byte of a longer sequence is at least 0xC0. *)
Lemma percent_byte_not_dot : forall b, 0 <= b < 256 ->
  (b < 128 -> in_path_set b = true) -> ascii_lower (percent_byte b) <> js "%2e".
Proof. range_check. Qed.

Lemma percent_byte_chars : forall b, 0 <= b < 256 ->
  Forall (fun x => x = 37 \/ 48 <= x <= 57 \/ 65 <= x <= 70) (percent_byte b).
Proof. range_check. Qed.
End ByteFacts.

(** ** The UTF-8 encoder *)

Section Utf8.
Import Url.

Lemma land_63_shiftr cp k : 0 <= k -> Z.lor 128 (Z.land (Z.shiftr cp k) 63) = 128 + (cp / 2 ^ k) mod 64.
Proof.
  intros Hk. rewrite Z.shiftr_div_pow2 by done. change 63 with (Z.ones 6).
  rewrite Z.land_ones by lia. apply lor_128. apply Z.mod_pos_bound. lia.
Qed.

Lemma utf8_encode_2 cp : 128 <= cp < 2048 -> utf8_encode cp = [cp / 64 + 192; 128 + cp mod 64].
Proof.
  intros Hc. unfold utf8_encode. rewrite decide_False, decide_True by lia. cbn.
  rewrite Z.shiftr_div_pow2, land_63_shiftr by lia. norm_pow. by rewrite Z.div_1_r.
Qed.

Lemma utf8_encode_3 cp : 2048 <= cp < 65536 ->
  utf8_encode cp = [cp / 4096 + 224; 128 + (cp / 64) mod 64; 128 + cp mod 64].
Proof.
  intros Hc. unfold utf8_encode. rewrite decide_False, decide_False, decide_True by lia. cbn.
  rewrite Z.shiftr_div_pow2, !land_63_shiftr by lia. norm_pow. by rewrite Z.div_1_r.
Qed.

Lemma utf8_encode_4 cp : 65536 <= cp ->
  utf8_encode cp = [cp / 262144 + 240; 128 + (cp / 4096) mod 64; 128 + (cp / 64) mod 64;
                    128 + cp mod 64].
Proof.
  intros Hc. unfold utf8_encode. rewrite decide_False, decide_False, decide_False by lia. cbn.
  rewrite Z.shiftr_div_pow2, !land_63_shiftr by lia. norm_pow. by rewrite Z.div_1_r.
Qed.

(** A scalar value: a code point that is not a surrogate. *)
Definition scalar (cp : Z) : Prop := 0 <= cp <= 1114111 /\ ~ (55296 <= cp <= 57343).

Local Ltac utf8_goals :=
  split_and!;
  first [ reflexivity | cbn; lia | zlia
        | rewrite !Forall_cons; repeat split; first [done | zlia]
        | cbn; unfold Uri.is_continuation; rewrite !bool_decide_true by zlia; cbn; f_equal; zlia ].

(** A non-ASCII scalar value encodes to a lead byte announcing the length
    and continuation bytes, which the decoder of decodeURI reads back. *)
Lemma utf8_encode_multi cp : scalar cp -> 128 <= cp ->
  exists b1 bs, utf8_encode cp = b1 :: bs /\ 192 <= b1 < 248 /\
    Uri.leading_ones b1 = S (length bs) /\ (1 <= length bs <= 3)%nat /\
    Forall (fun b => 128 <= b < 192) bs /\ Uri.utf8_decode (b1 :: bs) = Some cp.
Proof.
  intros [Hr Hs] H128. unfold Uri.utf8_decode.
  destruct (decide (cp < 2048)); [|destruct (decide (cp < 65536))].
  - rewrite utf8_encode_2 by lia. eexists _, _. split; [done|].
    rewrite leading_ones_lead2, land_lead2, land_cont by zlia.
    utf8_goals.
  - rewrite utf8_encode_3 by lia. eexists _, _. split; [done|].
    rewrite leading_ones_lead3, land_lead3, !land_cont by zlia.
    utf8_goals.
  - rewrite utf8_encode_4 by lia. eexists _, _. split; [done|].
    rewrite leading_ones_lead4, land_lead4, !land_cont by zlia.
    utf8_goals.
Qed.
End Utf8.

(** ** Scalar values of a string *)

Section Scalars.
Import Url.

Lemma to_scalars_well_formed s :
  utf16_well_formed s = true -> Forall scalar (to_scalars s) /\ to_scalars s ≫= Uri.utf16_encode = s.
Proof.
  induction s as [s IH] using list_strong_ind.
  destruct s as [|c rest]; [done|]. cbn.
  destruct (decide (55296 <= c <= 56319)).
  - destruct rest as [|d rest']; [done|]. intros [Hd Hw]%andb_prop.
    apply bool_decide_eq_true_1 in Hd. rewrite decide_True by done.
    destruct (IH rest' ltac:(cbn; lia) Hw) as [Hs He]. split.
    + constructor; [unfold scalar; lia|done].
    + cbn. rewrite He. unfold Uri.utf16_encode. rewrite decide_False by lia.
      cbn. do 2 f_equal; [|f_equal]; zlia.
  - intros [Hc Hw]%andb_prop. apply bool_decide_eq_true_1 in Hc.
    rewrite decide_False by lia. destruct (IH rest ltac:(cbn; lia) Hw) as [Hs He]. split.
    + constructor; [unfold scalar; lia|done].
    + cbn. rewrite He. unfold Uri.utf16_encode. by rewrite decide_True by lia.
Qed.

(** An ASCII character among the scalar values was in the string. *)
Lemma to_scalars_ascii s x : 0 <= x < 55296 -> x ∈ to_scalars s -> x ∈ s.
Proof.
  induction s as [s IH] using list_strong_ind. intros Hx.
  destruct s as [|c rest]; cbn; [set_solver|].
  destruct (decide (55296 <= c <= 56319)).
  - destruct rest as [|d rest']; [intros ->%list_elem_of_singleton; lia|].
    destruct (decide (56320 <= d <= 57343)); intros [->|Hin]%elem_of_cons; try lia.
    + apply IH in Hin; [|cbn; lia|done]. set_solver.
    + right. apply IH; [cbn; lia|done|done].
  - destruct (decide (56320 <= c <= 57343)); intros [->|Hin]%elem_of_cons;
      try lia; [| by left |]; right; apply IH; [cbn; lia|done|done|cbn; lia|done|done].
Qed.
End Scalars.

(** ** decodeURI of an ASCII path gives well-formed UTF-16 *)

Section DecodeWellFormed.
Import Url.

Lemma utf16_well_formed_app a b :
  utf16_well_formed a = true -> utf16_well_formed b = true -> utf16_well_formed (a ++ b) = true.
Proof.
  induction a as [a IH] using list_strong_ind. intros Ha Hb.
  destruct a as [|c rest]; [done|]. cbn in *.
  destruct (decide (55296 <= c <= 56319)).
  - destruct rest as [|d rest']; [done|]. apply andb_prop in Ha as [Hd Hw].
    cbn. rewrite Hd. apply IH; [cbn; lia|done|done].
  - apply andb_prop in Ha as [Hc Hw]. rewrite Hc. apply IH; [cbn; lia|done|done].
Qed.

Lemma utf16_encode_well_formed cp : scalar cp -> utf16_well_formed (Uri.utf16_encode cp) = true.
Proof.
  intros [? ?]. unfold Uri.utf16_encode. case_decide; cbn.
  - rewrite decide_False by lia. rewrite bool_decide_true by lia. done.
  - rewrite decide_True by zlia. rewrite bool_decide_true by zlia. done.
Qed.

Lemma ascii_well_formed c : 0 <= c < 128 -> utf16_well_formed [c] = true.
Proof. intros ?. cbn. rewrite decide_False by lia. by rewrite bool_decide_true by lia. Qed.

Lemma utf8_decode_scalar octets cp : Uri.utf8_decode octets = Some cp -> scalar cp.
Proof.
  unfold Uri.utf8_decode. destruct octets as [|b1 [|b2 [|b3 [|b4 [|? ?]]]]]; try discriminate;
    case_match; try discriminate; intros [= <-]; apply andb_prop in H as [_ H];
    apply bool_decide_eq_true_1 in H; unfold scalar; lia.
Qed.

Lemma parse_hex_octet_range h1 h2 b : Uri.parse_hex_octet h1 h2 = Some b -> 0 <= b < 256.
Proof.
  unfold Uri.parse_hex_octet, Uri.hex_digit.
  repeat case_decide; cbn; intros; simplify_eq; lia.
Qed.

Lemma leading_ones_zero : forall b, 0 <= b < 256 -> Uri.leading_ones b = 0%nat -> b < 128.
Proof. range_check. Qed.

Lemma read_octets_forall (P : Z -> Prop) j s bs rest :
  Forall P s -> Uri.read_octets j s = Normal (bs, rest) -> Forall P rest.
Proof.
  revert s bs. induction j as [|j IH]; intros s bs Hs; cbn; [by intros [= _ <-]|].
  destruct s as [|c [|h1 [|h2 s']]]; try discriminate.
  case_bool_decide; [|discriminate]. destruct (Uri.parse_hex_octet h1 h2); [|discriminate].
  destruct (Uri.read_octets j s') as [[bs' r]|] eqn:E; cbn; [|discriminate].
  intros [= _ <-]. apply (IH s' bs'); [by repeat apply Forall_cons in Hs as [_ Hs] | done].
Qed.

(** Every code unit decodeURI copies from an ASCII input, and every code
    point it decodes from escapes, gives well-formed UTF-16. *)
Lemma decode_loop_well_formed fuel reserved s r :
  Forall (fun c => 0 <= c < 128) s -> Uri.decode_loop fuel reserved s = Normal r ->
  utf16_well_formed r = true.
Proof.
  revert s r. induction fuel as [|fuel IH]; intros s r Hs; cbn; [by intros [= <-]|].
  destruct s as [|c rest]; [by intros [= <-]|]. apply Forall_cons in Hs as [Hc Hs].
  case_bool_decide.
  - destruct rest as [|h1 [|h2 rest']]; try discriminate.
    apply Forall_cons in Hs as [Hh1 Hs]. apply Forall_cons in Hs as [Hh2 Hs].
    destruct (Uri.parse_hex_octet h1 h2) as [b|] eqn:Eb; [|discriminate].
    apply parse_hex_octet_range in Eb.
    destruct (Uri.leading_ones b) as [|n] eqn:En.
    + destruct (Uri.decode_loop fuel reserved rest') as [r'|] eqn:E; cbn; [|discriminate].
      intros [= <-]. apply utf16_well_formed_app; [|by eapply IH].
      destruct (reserved b).
      2:{ apply ascii_well_formed. split; [lia | by apply leading_ones_zero]. }
      cbn. rewrite !decide_False by lia. rewrite !bool_decide_true by lia. done.
    + case_bool_decide; [discriminate|].
      destruct (Uri.read_octets _ rest') as [[octets rest'']|] eqn:Eo; cbn; [|discriminate].
      destruct (Uri.utf8_decode _) as [cp|] eqn:Ecp; [|discriminate].
      destruct (Uri.decode_loop fuel reserved rest'') as [r'|] eqn:E; cbn; [|discriminate].
      intros [= <-]. apply utf16_well_formed_app.
      * by apply utf16_encode_well_formed, (utf8_decode_scalar (b :: octets)).
      * eapply IH; [|done]. by eapply read_octets_forall.
  - destruct (Uri.decode_loop fuel reserved rest) as [r'|] eqn:E; cbn; [|discriminate].
    intros [= <-]. apply (utf16_well_formed_app [c]); [by apply ascii_well_formed | by eapply IH].
Qed.
End DecodeWellFormed.

(** ** decodeURI undoes the encoding of a path segment *)

Section DecodeEncoded.
Import Url.

(** A character an id may hold for its link to survive: a scalar value
    other than [%], the separators [/] and [\], and [?] and [#], which end
    the path. *)
Definition link_char (c : Z) : Prop := scalar c /\ c ∉ [37; 47; 92; 63; 35].

Lemma not_in_path_set c : in_path_set c = false -> 32 < c <= 126 /\ c <> 34.
Proof. unfold in_path_set. case_bool_decide; [done|]. lia. Qed.

Lemma read_percent_bytes bs r :
  Forall (fun b => 0 <= b < 256) bs ->
  Uri.read_octets (length bs) ((bs ≫= percent_byte) ++ r) = Normal (bs, r).
Proof.
  induction 1 as [|b bs Hb _ IH]; [done|]. cbn -[percent_byte].
  change (percent_byte b) with [37; hex_upper (b / 16); hex_upper (b mod 16)]. cbn.
  rewrite parse_percent_byte by done. rewrite bool_decide_true by done. by rewrite IH.
Qed.

Lemma decode_encoded fuel cs :
  Forall link_char cs -> (length cs <= fuel)%nat ->
  Uri.decode_loop fuel Uri.uri_reserved (cs ≫= encode_scalar) = Normal (cs ≫= Uri.utf16_encode).
Proof.
  revert fuel. induction cs as [|c cs IH]; intros fuel Hok Hf; [by destruct fuel|].
  apply Forall_cons in Hok as [[Hsc Hc] Hok]. destruct fuel as [|fuel]; [cbn in Hf; lia|].
  rewrite !elem_of_cons in Hc.
  assert (IH' := IH fuel Hok ltac:(cbn in Hf; lia)).
  cbn -[encode_scalar Uri.utf16_encode]. unfold encode_scalar at 1.
  destruct (in_path_set c) eqn:Hset.
  - destruct (decide (c < 128)) as [Ha|Ha].
    + unfold utf8_encode. rewrite decide_True by done. cbn -[Uri.utf16_encode].
      rewrite parse_percent_byte by (unfold scalar in Hsc; lia).
      rewrite leading_ones_ascii by (unfold scalar in Hsc; lia).
      rewrite IH'. cbn -[Uri.utf16_encode].
      destruct (Uri.uri_reserved c) eqn:Hr.
      { destruct (path_set_reserved c) as [->| ->]; unfold scalar in Hsc; try lia; done. }
      unfold Uri.utf16_encode. by rewrite decide_True by lia.
    + destruct (utf8_encode_multi c Hsc ltac:(lia)) as (b1 & bs & He & Hb1 & Hl & Hn & Hbs & Hd).
      rewrite He. cbn [mbind list_bind]. fold (bs ≫= percent_byte).
      change (percent_byte b1) with [37; hex_upper (b1 / 16); hex_upper (b1 mod 16)].
      cbn -[Uri.utf16_encode]. rewrite parse_percent_byte by lia. rewrite Hl.
      rewrite (bool_decide_true (37 = 37)) by done. rewrite bool_decide_false by lia. cbn [pred].
      rewrite read_percent_bytes by (eapply Forall_impl; [exact Hbs|]; cbn; lia).
      cbn -[Uri.utf16_encode]. rewrite Hd, IH'. done.
  - apply not_in_path_set in Hset. cbn -[Uri.utf16_encode]. rewrite bool_decide_false by lia.
    rewrite IH'. cbn. unfold Uri.utf16_encode. by rewrite decide_True by lia.
Qed.
End DecodeEncoded.

(** ** The path state on one segment *)

Section Segment.
Import Url.

Lemma path_state_segment buf path cs :
  Forall (fun c => c ∉ [47; 92; 63; 35]) cs ->
  path_state buf path cs = end_segment (buf ++ (cs ≫= encode_scalar)) path false.
Proof.
  revert buf. induction cs as [|c cs IH]; intros buf Hcs; cbn; [by rewrite app_nil_r|].
  apply Forall_cons in Hcs as [Hc Hcs]. rewrite !elem_of_cons in Hc.
  rewrite !bool_decide_false by tauto. rewrite IH by done. by rewrite app_assoc.
Qed.

Lemma encode_scalar_not_nil c : encode_scalar c <> [].
Proof.
  unfold encode_scalar, utf8_encode. destruct (in_path_set c); [|done].
  destruct (decide (c < 128)); [done|]. by repeat case_decide.
Qed.

Lemma lower_encoded_nil cs : ascii_lower (cs ≫= encode_scalar) = [] -> cs = [].
Proof.
  destruct cs as [|c cs]; [done|]. cbn. unfold ascii_lower. rewrite map_app.
  pose proof (encode_scalar_not_nil c). destruct (encode_scalar c); done.
Qed.

Lemma lower_ascii_char c : (if decide (65 <= c <= 90) then c + 32 else c) = 46 -> c = 46.
Proof. case_decide; lia. Qed.

(** A segment whose encoding starts with [.] starts with [.]. *)
Lemma lower_encoded_dot cs rest :
  Forall link_char cs -> ascii_lower (cs ≫= encode_scalar) = 46 :: rest ->
  exists cs', cs = 46 :: cs' /\ rest = ascii_lower (cs' ≫= encode_scalar).
Proof.
  destruct cs as [|c cs]; [done|]. intros _. cbn -[encode_scalar]. unfold ascii_lower at 1. rewrite map_app.
  unfold encode_scalar at 1. destruct (in_path_set c) eqn:Hs.
  - unfold utf8_encode. by repeat case_decide.
  - cbn. intros [= Hc <-]. apply lower_ascii_char in Hc. subst. by exists cs.
Qed.

(** No encoded segment reads [%2e], in any case. *)
Lemma lower_encoded_no_pct2e cs rest :
  Forall link_char cs -> ascii_lower (cs ≫= encode_scalar) <> js "%2e" ++ rest.
Proof.
  destruct cs as [|c cs]; [done|]. intros [[Hsc Hc] _]%Forall_cons. cbn -[encode_scalar].
  try unfold ascii_lower. rewrite map_app. unfold encode_scalar at 1.
  rewrite !elem_of_cons in Hc. destruct Hsc as [Hr Hsur].
  destruct (in_path_set c) eqn:Hs.
  - assert (Hlead : exists b1 bs, utf8_encode c = b1 :: bs /\ 0 <= b1 < 256 /\
              (b1 < 128 -> b1 = c)).
    { destruct (decide (c < 128)).
      - exists c, []. unfold utf8_encode. rewrite decide_True by done. split_and!; auto with lia.
      - destruct (utf8_encode_multi c (conj Hr Hsur) ltac:(lia)) as (b1 & bs & -> & ? & _).
        exists b1, bs. split_and!; auto with lia. }
    destruct Hlead as (b1 & bs & -> & Hb & Hc1). cbn [mbind list_bind].
    rewrite map_app, <- app_assoc. change (js "%2e") with [37; 50; 101].
    intros Heq. apply (percent_byte_not_dot b1 Hb); [intros ?; rewrite Hc1 by done; done|].
    apply app_inj_1 in Heq as [Heq _]; [exact Heq | rewrite length_map; reflexivity].
  - change (js "%2e") with [37; 50; 101]. cbn. intros [= Hc' _]. case_decide; lia.
Qed.
End Segment.

(** ** Which ids a link carries to the server unchanged *)

Section Roundtrip.
Import Url.

Lemma encoded_not_dots cs :
  Forall link_char cs -> cs <> [46] -> cs <> [46; 46] ->
  single_dot (cs ≫= encode_scalar) = false /\ double_dot (cs ≫= encode_scalar) = false.
Proof.
  intros Hok H1 H2. unfold single_dot, double_dot.
  change (js ".") with [46]. change (js "..") with [46; 46]. change (js "%2e") with [37; 50; 101].
  change (js ".%2e") with [46; 37; 50; 101]. change (js "%2e.") with [37; 50; 101; 46].
  change (js "%2e%2e") with [37; 50; 101; 37; 50; 101].
  assert (Hp : forall cs' rest, Forall link_char cs' ->
                 ascii_lower (cs' ≫= encode_scalar) <> [37; 50; 101] ++ rest)
    by (intros; by apply lower_encoded_no_pct2e).
  assert (Hdot : forall rest, ascii_lower (cs ≫= encode_scalar) = 46 :: rest ->
                  exists cs', cs = 46 :: cs' /\ Forall link_char cs' /\
                    ascii_lower (cs' ≫= encode_scalar) = rest).
  { intros rest Hd. destruct (lower_encoded_dot cs _ Hok Hd) as (cs' & -> & Hr).
    apply Forall_cons in Hok as [_ Hok']. eauto. }
  split; apply bool_decide_false; rewrite !elem_of_cons, elem_of_nil.
  - intros [Hd|[Hd|[]]].
    + destruct (Hdot _ Hd) as (cs' & -> & _ & Hr). apply lower_encoded_nil in Hr. by subst.
    + apply (Hp cs [] Hok). by rewrite app_nil_r.
  - intros [Hd|[Hd|[Hd|[Hd|[]]]]].
    + destruct (Hdot _ Hd) as (cs' & -> & Hok' & Hr).
      apply lower_encoded_dot in Hr as (cs'' & -> & Hr'); [|done].
      symmetry in Hr'. apply lower_encoded_nil in Hr'. by subst.
    + destruct (Hdot _ Hd) as (cs' & -> & Hok' & Hr).
      apply (Hp cs' [] Hok'). by rewrite app_nil_r.
    + by apply (Hp cs [46] Hok).
    + by apply (Hp cs [37; 50; 101] Hok).
Qed.

Lemma utf8_bytes c : scalar c -> Forall (fun b => 0 <= b < 256) (utf8_encode c).
Proof.
  intros Hc. destruct (decide (c < 128)).
  - unfold utf8_encode. rewrite decide_True by done. constructor; [destruct Hc; lia|done].
  - destruct (utf8_encode_multi c Hc ltac:(lia)) as (b1 & bs & -> & Hb1 & _ & _ & Hbs & _).
    constructor; [lia|]. eapply Forall_impl; [exact Hbs|]. cbn. lia.
Qed.

(** The characters of an encoded segment: its own, [%] and upper hex
    digits. *)
Lemma encoded_chars cs x :
  Forall scalar cs -> x ∈ cs ≫= encode_scalar ->
  x ∈ cs \/ x = 37 \/ 48 <= x <= 57 \/ 65 <= x <= 70.
Proof.
  induction 1 as [|c cs Hc _ IH]; [set_solver|]. cbn. rewrite elem_of_app, elem_of_cons.
  intros [Hx|Hx]; [|destruct (IH Hx) as [?|?]; tauto].
  unfold encode_scalar in Hx. destruct (in_path_set c); [|set_solver].
  apply list_elem_of_bind in Hx as (b & Hx & Hb).
  pose proof (proj1 (Forall_forall _ _) (utf8_bytes c Hc) b Hb) as Hr.
  pose proof (percent_byte_chars b Hr) as Hp. rewrite Forall_forall in Hp.
  destruct (Hp x Hx) as [?|[?|?]]; tauto.
Qed.

(** The leading slash of the href survives the stripping of C0 controls
    and spaces when the id does not end in one, and no tab or newline is
    removed from an id without them. *)
Lemma strip_href id c :
  last id = Some c -> 32 < c -> Forall (fun x => is_tab_or_newline x = false) id ->
  filter (fun c => negb (is_tab_or_newline c))
    (rev (drop_while is_c0_or_space (rev (drop_while is_c0_or_space (47 :: id))))) = 47 :: id.
Proof.
  intros Hl Hc Ht. cbn [drop_while]. change (is_c0_or_space 47) with false. cbn iota.
  destruct (exists_last (l := id) ltac:(by intros ->)) as (id' & c' & ->).
  rewrite last_app in Hl. cbn in Hl. injection Hl as ->.
  assert (Hc' : is_c0_or_space c = false) by (apply bool_decide_false; lia).
  rewrite app_comm_cons, rev_app_distr. cbn [rev app drop_while]. rewrite Hc'.
  change (c :: rev id' ++ [47]) with ([c] ++ rev id' ++ [47]).
  rewrite !rev_app_distr, rev_involutive. cbn [rev app].
  rewrite filter_Forall_id; [done|]. constructor; [done|].
  eapply Forall_impl; [exact Ht|]. intros x ->. done.
Qed.

(** The ids whose link reaches their note: well-formed UTF-16, not empty,
    not [.] or [..], none of [%], [/], [\], [?], [#], tab or newline, and
    not ending in a C0 control or a space. *)
Definition link_safe_id (id : jsstr) : bool :=
  utf16_well_formed id && bool_decide (id <> [] /\ id <> js "." /\ id <> js "..") &&
  forallb (fun c => bool_decide (c ∉ [37; 47; 92; 63; 35; 9; 10; 13])) id &&
  match last id with Some c => bool_decide (32 < c) | None => false end.

Lemma encoded_length cs : (length cs <= length (cs ≫= encode_scalar))%nat.
Proof.
  induction cs as [|c cs IH]; [done|]. cbn. rewrite length_app.
  pose proof (encode_scalar_not_nil c). destruct (encode_scalar c); cbn in *; [done|lia].
Qed.

Lemma link_safe_id_spec id :
  link_safe_id id = true ->
  utf16_well_formed id = true /\ id <> [] /\ id <> js "." /\ id <> js ".." /\
  Forall (fun c => c ∉ [37; 47; 92; 63; 35; 9; 10; 13]) id /\
  exists c, last id = Some c /\ 32 < c.
Proof.
  unfold link_safe_id. intros H.
  apply andb_prop in H as [H Hlast]. apply andb_prop in H as [H Hall].
  apply andb_prop in H as [Hwf Hne]. apply bool_decide_eq_true_1 in Hne as (? & ? & ?).
  destruct (last id) as [c|] eqn:Hl; [|done]. apply bool_decide_eq_true_1 in Hlast.
  split_and!; eauto. apply Forall_forall. intros x Hx. rewrite forallb_forall in Hall.
  apply list_elem_of_In in Hx. specialize (Hall x Hx). by apply bool_decide_eq_true_1 in Hall.
Qed.

(** The path of a link-safe id's link, its capture by the note route and
    its decoding. *)
Lemma link_path base id :
  link_safe_id id = true ->
  exists raw, resolve_path base (js "/" ++ id) = Some (js "/" ++ raw) /\
    Router.note_exec (js "/" ++ raw) = Some raw /\ Uri.decodeURI raw = Normal id.
Proof.
  intros (Hwf & Hne & Hd1 & Hd2 & Hch & c & Hl & Hc)%link_safe_id_spec.
  destruct (to_scalars_well_formed id Hwf) as [Hs He].
  remember (to_scalars id) as cs eqn:Ecs.
  assert (Hok : Forall link_char cs).
  { apply Forall_forall. intros x Hx. split; [by eapply Forall_forall|].
    intros Hbad. assert (Hxs : x ∈ id).
    { apply (to_scalars_ascii id x); [|by rewrite <- Ecs]. repeat (apply elem_of_cons in Hbad as [->|Hbad]; [lia|]).
      by apply elem_of_nil in Hbad. }
    eapply Forall_forall in Hch; [|exact Hxs]. apply Hch. set_solver. }
  assert (Hdots : cs <> [46] /\ cs <> [46; 46]).
  { split; intros Heq; [apply Hd1 | apply Hd2]; rewrite <- He, Heq; reflexivity. }
  destruct (encoded_not_dots cs Hok (proj1 Hdots) (proj2 Hdots)) as [Hsd Hdd].
  assert (Hcs : cs <> []) by (intros Heq; apply Hne; rewrite <- He, Heq; done).
  exists (cs ≫= encode_scalar). split_and!.
  - unfold resolve_path. change (js "/" ++ id) with (47 :: id).
    rewrite (strip_href id c Hl Hc).
    2:{ eapply Forall_impl; [exact Hch|]. intros x Hx. apply bool_decide_false.
        intros Hx'. apply Hx. set_solver. }
    destruct id as [|d id'] eqn:Eid; [done|]. cbv beta iota.
    rewrite bool_decide_true by lia. apply Forall_cons in Hch as [Hd _].
    rewrite bool_decide_false by (intros Hx; apply Hd; set_solver).
    rewrite <- Ecs, path_state_segment.
    2:{ eapply Forall_impl; [exact Hok|]. intros x [_ Hx]. set_solver. }
    unfold end_segment. rewrite app_nil_l, Hdd, Hsd. cbn. by rewrite app_nil_r.
  - apply Router.note_exec_spec. split_and!; [done| |].
    + destruct cs as [|c0 cs']; [done|]. cbn. pose proof (encode_scalar_not_nil c0).
      by destruct (encode_scalar c0).
    + intros Hin. apply encoded_chars in Hin; [|done].
      destruct Hin as [Hin|Hin]; [|lia]. eapply Forall_forall in Hok; [|exact Hin].
      apply (proj2 Hok). set_solver.
  - unfold Uri.decodeURI. rewrite decode_encoded; [by rewrite He|done|apply encoded_length].
Qed.

(** C31: an id that is link-safe survives its link: the
    browser resolves [/id] to the path [/] followed by the id's
    percent-encoding, the note route captures that encoding, and
    decodeURI gives back the id. *)
Theorem link_roundtrip base id :
  link_safe_id id = true ->
  exists raw, resolve_path base (js "/" ++ id) = Some (js "/" ++ raw) /\
    Router.note_exec (js "/" ++ raw) = Some raw /\ Uri.decodeURI raw = Normal id.
Proof. apply link_path. Qed.
End Roundtrip.
