(* ===== verification/KeyOrder.v ===== *)
(** * The order of Deno KV keys

    [db.list({ prefix: ["notes"] })] (server.ts line 24) returns the
    entries in the order of their keys, and Deno KV orders keys by their
    byte encoding, the tuple layer of its codec: a string part is the byte
    0x02, the UTF-8 bytes of the string with each 0x00 escaped as 0x00
    0xFF, and a terminating 0x00; a key is the concatenation of its parts.
    A JavaScript string reaches the store as a Rust string, its lone
    surrogates replaced by U+FFFD ([Url.to_scalars]).  [encode_key] is that
    encoding, modelled from the documentation of Deno KV.

    [key_compare] is the order the store model sorts by: parts compared
    code unit by code unit after the surrogate fix-up of code point order
    ([unit_fixup]), which moves the surrogates above every other unit of
    the Basic Multilingual Plane.  It is a total order on all keys, and
    [key_compare_encode_key] shows it is the byte order of [encode_key] on
    keys whose parts are well-formed UTF-16, which every id the handler
    stores from an ASCII pathname is ([Handler.ids_wf]). *)

From stdpp Require Import list.
From S2P Require Import Prelude Uri Url.

Local Open Scope Z_scope.

Abbreviation kv_key := (list jsstr).

(** ** Deno's encoding of a key *)

(** Each 0x00 byte of a string is escaped as 0x00 0xFF. *)
Definition escape_bytes (bs : list Z) : list Z :=
  bs ≫= (fun b => if decide (b = 0) then [0; 255] else [b]).

Definition encode_part (s : jsstr) : list Z :=
  2 :: escape_bytes (Url.to_scalars s ≫= Url.utf8_encode) ++ [0].

Definition encode_key (k : kv_key) : list Z := k ≫= encode_part.

(** Deno KV compares encoded keys byte by byte. *)
Abbreviation byte_compare := (list_compare Z.compare).

(** ** The order of the model *)

(** Code units in code point order: [0xE000, 0xFFFF] moves down by 0x800
    and the surrogates [0xD800, 0xDFFF] move up by 0x2000. *)
Definition unit_fixup (c : Z) : Z :=
  if decide (55296 <= c < 57344) then c + 8192
  else if decide (57344 <= c < 65536) then c - 2048 else c.

Abbreviation unit_compare := (fun a b => Z.compare (unit_fixup a) (unit_fixup b)).
Definition str_compare : jsstr -> jsstr -> comparison := list_compare unit_compare.
Definition key_compare : kv_key -> kv_key -> comparison := list_compare str_compare.

(** ** The order is total *)

Lemma Z_compare_trans x y z c : (x ?= y)%Z = c -> (y ?= z)%Z = c -> (x ?= z)%Z = c.
Proof. destruct c; rewrite ?Z.compare_eq_iff, ?Z.compare_lt_iff, ?Z.compare_gt_iff; lia. Qed.

Lemma unit_fixup_inj a b : unit_fixup a = unit_fixup b -> a = b.
Proof. unfold unit_fixup. repeat case_decide; lia. Qed.

Lemma unit_compare_eq a b : unit_compare a b = Eq <-> a = b.
Proof.
  cbv beta. rewrite Z.compare_eq_iff. split; [apply unit_fixup_inj | by intros ->].
Qed.

Lemma unit_compare_antisym a b : unit_compare b a = CompOpp (unit_compare a b).
Proof. apply Z.compare_antisym. Qed.

Lemma unit_compare_trans a b c r : unit_compare a b = r -> unit_compare b c = r -> unit_compare a c = r.
Proof. apply Z_compare_trans. Qed.

Lemma str_compare_eq x y : str_compare x y = Eq <-> x = y.
Proof. apply list_compare_refl, unit_compare_eq. Qed.

Lemma str_compare_antisym x y : str_compare y x = CompOpp (str_compare x y).
Proof. apply list_compare_antisym; [apply unit_compare_eq | apply unit_compare_antisym]. Qed.

Lemma str_compare_trans x y z c :
  str_compare x y = c -> str_compare y z = c -> str_compare x z = c.
Proof.
  apply list_compare_trans; [apply unit_compare_eq | apply unit_compare_trans | apply unit_compare_antisym].
Qed.

Lemma key_compare_antisym x y : key_compare y x = CompOpp (key_compare x y).
Proof. apply list_compare_antisym; [apply str_compare_eq | apply str_compare_antisym]. Qed.

Lemma key_compare_eq x y : key_compare x y = Eq <-> x = y.
Proof. apply list_compare_refl, str_compare_eq. Qed.

Lemma key_compare_trans x y z c :
  key_compare x y = c -> key_compare y z = c -> key_compare x z = c.
Proof.
  apply list_compare_trans; [apply str_compare_eq | apply str_compare_trans | apply str_compare_antisym].
Qed.

(** ** Prefix codes preserve the lexicographic order

    A code [f] that maps distinct letters to words whose order, whatever
    follows them, is the order of the letters maps the lexicographic order
    of words to the lexicographic order of their codes.  The rest [R]
    describes what may follow a code word; the words end with [r1] and
    [r2], which come before any further code word. *)

Section PrefixCode.
Context {A B : Type} `{EqDecision A} (cmpA : A -> A -> comparison) (cmpB : B -> B -> comparison).
Context (ok : A -> Prop) (R : list B -> Prop) (f : A -> list B).
Hypothesis cmpA_eq : forall x y, cmpA x y = Eq <-> x = y.
Hypothesis cmpB_eq : forall x y, cmpB x y = Eq <-> x = y.
Hypothesis cmpB_antisym : forall x y, cmpB y x = CompOpp (cmpB x y).
Hypothesis code_R : forall x s, ok x -> R s -> R (f x ++ s).
Hypothesis code_ne : forall x y s1 s2, ok x -> ok y -> x <> y -> R s1 -> R s2 ->
  list_compare cmpB (f x ++ s1) (f y ++ s2) = cmpA x y.
#[local] Set Default Proof Using "Type*".

Lemma R_bind xs s : Forall ok xs -> R s -> R ((xs ≫= f) ++ s).
Proof.
  induction 1 as [|x xs Hx _ IH]; intros Hs; [done|].
  rewrite bind_cons, <- app_assoc. auto.
Qed.

Lemma list_compare_code xs ys r1 r2 :
  Forall ok xs -> Forall ok ys -> R r1 -> R r2 ->
  (forall y s, ok y -> R s -> list_compare cmpB r1 (f y ++ s) = Lt) ->
  (forall y s, ok y -> R s -> list_compare cmpB r2 (f y ++ s) = Lt) ->
  list_compare cmpB ((xs ≫= f) ++ r1) ((ys ≫= f) ++ r2) =
  match list_compare cmpA xs ys with Eq => list_compare cmpB r1 r2 | c => c end.
Proof.
  intros Hxs. revert ys. induction Hxs as [|x xs Hx Hxs IH]; intros ys Hys Hr1 Hr2 E1 E2;
    destruct Hys as [|y ys Hy Hys]; rewrite ?bind_cons, <- ?app_assoc; cbn [list_compare mbind list_bind app].
  - by destruct (list_compare cmpB r1 r2).
  - apply E1; [done|]. by apply R_bind.
  - rewrite list_compare_antisym, E2 by (done || by apply R_bind). done.
  - destruct (decide (x = y)) as [<-|Hne].
    + rewrite list_compare_app, (proj2 (cmpA_eq x x) eq_refl) by done. by apply IH.
    + rewrite code_ne by (done || by apply R_bind).
      destruct (cmpA x y) eqn:E; [by apply cmpA_eq in E|done|done].
Qed.
End PrefixCode.

(** ** The layers of the encoding *)

Section Layers.
Import Url.

(** Case analysis on the comparisons of integers in the goal, closing the
    impossible cases by arithmetic. *)
Local Ltac lex :=
  repeat (match goal with |- context [Z.compare ?a ?b] => destruct (Z.compare_spec a b) end;
          cbn iota);
  first [reflexivity | exfalso; zlia].

Lemma utf8_encode_1 cp : cp < 128 -> utf8_encode cp = [cp].
Proof. intros Hc. unfold utf8_encode. by rewrite decide_True. Qed.

Lemma unit_fixup_scalar c : scalar c -> c <= 65535 ->
  unit_fixup c = if decide (c < 55296) then c else c - 2048.
Proof. intros [? ?] ?. unfold unit_fixup. repeat case_decide; lia. Qed.

Lemma unit_fixup_surrogate k : 0 <= k < 2048 -> unit_fixup (55296 + k) = 63488 + k.
Proof. intros ?. unfold unit_fixup. rewrite decide_True by lia. lia. Qed.

Lemma unit_fixup_low k : 0 <= k < 1024 -> unit_fixup (56320 + k) = 64512 + k.
Proof. intros ?. unfold unit_fixup. rewrite decide_True by lia. lia. Qed.

(** The two surrogates of a supplementary code point compare, after the
    fix-up, as the code points do, and above every other unit. *)
Lemma utf16_encode_compare x y s1 s2 : scalar x -> scalar y -> x <> y ->
  list_compare unit_compare (Uri.utf16_encode x ++ s1) (Uri.utf16_encode y ++ s2) = Z.compare x y.
Proof.
  intros Hx Hy ?. pose proof Hx as [? ?]. pose proof Hy as [? ?]. unfold Uri.utf16_encode.
  repeat case_decide; cbn [app list_compare]; cbv beta;
    rewrite ?(unit_fixup_scalar x), ?(unit_fixup_scalar y) by done;
    rewrite ?(unit_fixup_surrogate ((x - 65536) / 1024)), ?(unit_fixup_surrogate ((y - 65536) / 1024)),
      ?(unit_fixup_low ((x - 65536) mod 1024)), ?(unit_fixup_low ((y - 65536) mod 1024)) by zlia;
    repeat case_decide; lex.
Qed.

(** The UTF-8 encoding of a scalar value, by its length. *)
Local Ltac utf8_shape cp :=
  destruct (decide (cp < 128)); [rewrite (utf8_encode_1 cp) by done|
  destruct (decide (cp < 2048)); [rewrite (utf8_encode_2 cp) by lia|
  destruct (decide (cp < 65536)); [rewrite (utf8_encode_3 cp) by lia|rewrite (utf8_encode_4 cp) by lia]]].

Lemma escape_bytes_app l1 l2 : escape_bytes (l1 ++ l2) = escape_bytes l1 ++ escape_bytes l2.
Proof. apply bind_app. Qed.

Lemma escape_bytes_bind l :
  escape_bytes (l ≫= utf8_encode) = l ≫= (fun cp => escape_bytes (utf8_encode cp)).
Proof. induction l as [|cp l IH]; [done|]. by rewrite !bind_cons, escape_bytes_app, IH. Qed.

(** Only U+0000 has a 0x00 byte in UTF-8. *)
Lemma escape_utf8 cp : scalar cp ->
  escape_bytes (utf8_encode cp) = if decide (cp = 0) then [0; 255] else utf8_encode cp.
Proof.
  intros [? ?]. utf8_shape cp; unfold escape_bytes; cbn;
    repeat case_decide; cbn; first [reflexivity | exfalso; zlia].
Qed.

(** UTF-8 with its escape is a prefix code in the order of code points. *)
Lemma escape_utf8_compare x y s1 s2 : scalar x -> scalar y -> x <> y ->
  byte_compare (escape_bytes (utf8_encode x) ++ s1) (escape_bytes (utf8_encode y) ++ s2) = Z.compare x y.
Proof.
  intros Hx Hy ?. pose proof Hx as [? ?]. pose proof Hy as [? ?].
  rewrite !escape_utf8 by done.
  repeat case_decide; [congruence|subst ..|]; [utf8_shape y|utf8_shape x|utf8_shape x; utf8_shape y];
    cbn [app list_compare]; lex.
Qed.

(** The 0x00 that ends a string part, followed by nothing or by the next
    part, comes before the bytes of any further code point. *)
Lemma terminator_first y s1 s : scalar y -> hd 2 s1 = 2 ->
  byte_compare (0 :: s1) (escape_bytes (utf8_encode y) ++ s) = Lt.
Proof.
  intros Hy Hs1. pose proof Hy as [? ?]. rewrite escape_utf8 by done.
  case_decide; [destruct s1; cbn in *; subst; done|]. utf8_shape y; cbn [app list_compare]; lex.
Qed.

(** On well-formed strings the order of the model is code point order. *)
Lemma str_compare_scalars x y : utf16_well_formed x = true -> utf16_well_formed y = true ->
  str_compare x y = list_compare Z.compare (to_scalars x) (to_scalars y).
Proof.
  intros Hx Hy. destruct (to_scalars_well_formed x Hx) as [Sx Ex].
  destruct (to_scalars_well_formed y Hy) as [Sy Ey].
  pose proof (list_compare_code Z.compare unit_compare scalar (fun _ => True) Uri.utf16_encode
    Z.compare_eq_iff unit_compare_eq unit_compare_antisym ltac:(done)
    ltac:(intros; by apply utf16_encode_compare)
    (to_scalars x) (to_scalars y) [] [] Sx Sy I I) as H.
  rewrite !app_nil_r, Ex, Ey in H. unfold str_compare. rewrite H; [by destruct (list_compare Z.compare _ _)|..];
    intros cp ? ? ?; unfold Uri.utf16_encode; case_decide; done.
Qed.

(** A string part is a prefix code in the order of the model, when what
    follows it is nothing or another string part. *)
Lemma encode_part_compare x y s1 s2 :
  utf16_well_formed x = true -> utf16_well_formed y = true -> x <> y -> hd 2 s1 = 2 -> hd 2 s2 = 2 ->
  byte_compare (encode_part x ++ s1) (encode_part y ++ s2) = str_compare x y.
Proof.
  intros Hx Hy Hne H1 H2. destruct (to_scalars_well_formed x Hx) as [Sx Ex].
  destruct (to_scalars_well_formed y Hy) as [Sy Ey].
  unfold encode_part. cbn [app]. rewrite list_compare_cons by apply Z.compare_eq_iff.
  rewrite !escape_bytes_bind, <- !app_assoc. cbn [app].
  rewrite (list_compare_code Z.compare Z.compare scalar (fun _ => True)
    (fun cp => escape_bytes (utf8_encode cp)) Z.compare_eq_iff Z.compare_eq_iff Z.compare_antisym)
    by (done || intros; by apply escape_utf8_compare || by apply terminator_first).
  rewrite str_compare_scalars by done.
  destruct (list_compare Z.compare _ _) eqn:E; [|done|done].
  apply list_compare_refl in E; [|apply Z.compare_eq_iff]. congruence.
Qed.
End Layers.

(** Deno KV's order is the order of the model: on keys whose parts are
    well-formed UTF-16, [key_compare] is the byte order of their tuple
    encodings ([encode_key]). *)
Theorem key_compare_encode_key k1 k2 :
  Forall (fun s => Url.utf16_well_formed s = true) k1 ->
  Forall (fun s => Url.utf16_well_formed s = true) k2 ->
  key_compare k1 k2 = byte_compare (encode_key k1) (encode_key k2).
Proof.
  intros H1 H2. unfold encode_key.
  rewrite <- (app_nil_r (k1 ≫= _)), <- (app_nil_r (k2 ≫= _)).
  rewrite (list_compare_code str_compare Z.compare (fun s => Url.utf16_well_formed s = true)
    (fun s => hd 2 s = 2) encode_part str_compare_eq Z.compare_eq_iff Z.compare_antisym)
    by (intros; first [done | by apply encode_part_compare]).
  unfold key_compare. by destruct (list_compare str_compare k1 k2).
Qed.

(** U+FF21 comes before U+1F600 in Deno KV, though its code unit is above
    the surrogates of U+1F600. *)
Example key_order_supplementary :
  key_compare [js "notes"; [65313]] [js "notes"; [55357; 56832]] = Lt /\
  key_compare [js "notes"; [65313]] [js "notes"; [55357; 56832]] =
    byte_compare (encode_key [js "notes"; [65313]]) (encode_key [js "notes"; [55357; 56832]]).
Proof. split; [vm_compute; reflexivity | apply key_compare_encode_key; repeat constructor]. Qed.
