(* ===== verification/KvStore.v ===== *)
(** * The Deno KV store behind [db] (server.ts line 8)

    The handler uses four operations of [Deno.openKv()]: [get], [set],
    [delete] and [list({ prefix })].  Keys are lists of parts (here always
    strings) and the values the handler stores are strings.  The class
    [KvStore] is the contract the handler relies on, with its laws in
    [KvStoreLaws]; [gmap_kv] implements it on a finite map, listing the
    entries under a prefix in key order as Deno KV does.  Deno KV is
    modelled from its documentation; the repository only calls it. *)

From stdpp Require Import gmap sorting.
From S2P Require Import Prelude KeyOrder.

(** ** Key order

    [key_compare] ([KeyOrder]) is Deno KV's order on the keys the handler
    writes. *)

Definition key_le (k1 k2 : kv_key) : Prop := key_compare k1 k2 <> Gt.

#[export] Instance key_le_dec : RelDecision key_le.
Proof. intros k1 k2. unfold key_le. apply _. Defined.

(** [prefix] selects the keys that extend it by at least one part; the
    prefix itself is not listed. *)
Definition strict_prefix (p k : kv_key) : bool :=
  match strip_prefix p k with
  | Some (_ :: _) => true
  | _ => false
  end.

(** ** The contract of the store *)

Class KvStore (S : Type) := {
  kv_get : kv_key -> S -> option jsstr;
  kv_set : kv_key -> jsstr -> S -> S;
  kv_delete : kv_key -> S -> S;
  kv_list : kv_key -> S -> list (kv_key * jsstr)
}.

Class KvStoreLaws (S : Type) `{KvStore S} := {
  kv_get_set_eq k v s : kv_get k (kv_set k v s) = Some v;
  kv_get_set_ne k k' v s : k <> k' -> kv_get k' (kv_set k v s) = kv_get k' s;
  kv_get_delete_eq k s : kv_get k (kv_delete k s) = None;
  kv_get_delete_ne k k' s : k <> k' -> kv_get k' (kv_delete k s) = kv_get k' s;
  kv_list_spec p s k v :
    (k, v) ∈ kv_list p s <-> strict_prefix p k = true /\ kv_get k s = Some v;
  kv_list_nodup p s : NoDup (kv_list p s).*1;
  kv_list_sorted p s : StronglySorted key_le (kv_list p s).*1;
  (** Stores with the same contents are the same store. *)
  kv_ext s1 s2 : (forall k, kv_get k s1 = kv_get k s2) -> s1 = s2
}.

(** The entries of a listing after the last entry already read: the
    cursor of Deno KV's list iterator, from which its next batch starts. *)
Definition list_after (read es : list (kv_key * jsstr)) : list (kv_key * jsstr) :=
  match last read with
  | None => es
  | Some (k, _) => filter (fun e => key_compare k e.1 = Lt) es
  end.

(** ** The implementation on a finite map *)

Definition entry_le (e1 e2 : kv_key * jsstr) : Prop := key_le e1.1 e2.1.

#[export] Instance entry_le_dec : RelDecision entry_le.
Proof. intros e1 e2. unfold entry_le. apply _. Defined.

#[export] Instance gmap_kv : KvStore (gmap kv_key jsstr) := {
  kv_get k s := s !! k;
  kv_set k v s := <[k := v]> s;
  kv_delete k s := delete k s;
  kv_list p s := merge_sort entry_le (filter (fun e => strict_prefix p e.1 = true) (map_to_list s))
}.

(** ** The key order is a total preorder *)

#[export] Instance key_le_total : Total key_le.
Proof.
  intros x y. unfold key_le. rewrite (key_compare_antisym x y).
  destruct (key_compare x y); cbn; naive_solver.
Qed.

#[export] Instance key_le_trans : Transitive key_le.
Proof.
  intros x y z. unfold key_le. intros Hxy Hyz.
  destruct (key_compare x y) eqn:E1; [apply key_compare_eq in E1; by subst | | done].
  destruct (key_compare y z) eqn:E2; [apply key_compare_eq in E2; subst; by rewrite E1 | | done].
  by rewrite (key_compare_trans x y z Lt).
Qed.

#[export] Instance entry_le_total : Total entry_le.
Proof. intros x y. apply key_le_total. Qed.

#[export] Instance entry_le_trans : Transitive entry_le.
Proof. intros x y z. apply key_le_trans. Qed.

Lemma StronglySorted_fst {A B} (R : relation A) (l : list (A * B)) :
  StronglySorted (fun e1 e2 => R e1.1 e2.1) l -> StronglySorted R l.*1.
Proof.
  induction 1 as [|x l _ IH Hall]; cbn; constructor; [done|].
  apply Forall_fmap. eapply Forall_impl; [exact Hall|]. done.
Qed.

(** ** The finite map meets the contract *)

#[export] Instance gmap_kv_laws : KvStoreLaws (gmap kv_key jsstr).
Proof.
  split; cbn.
  - intros. apply lookup_insert_eq.
  - intros. by apply lookup_insert_ne.
  - intros. apply lookup_delete_eq.
  - intros. by apply lookup_delete_ne.
  - intros p s k v. rewrite (elem_of_Permutation_proper _ _ _ (merge_sort_Permutation _ _)).
    rewrite list_elem_of_filter, elem_of_map_to_list. done.
  - intros p s. rewrite (merge_sort_Permutation _ _).
    eapply sublist_NoDup; [apply (NoDup_fst_map_to_list s)|].
    apply fmap_sublist, sublist_filter.
  - intros p s. apply StronglySorted_fst, (StronglySorted_merge_sort entry_le).
  - intros s1 s2 H. by apply map_eq.
Qed.

(** ** Consequences of the contract *)

Section KvDerived.
Context {S : Type} `{KvStoreLaws S}.
#[local] Set Default Proof Using "Type*".

Lemma kv_get_set k k' v s :
  kv_get k' (kv_set k v s) = if decide (k = k') then Some v else kv_get k' s.
Proof. case_decide; subst; [apply kv_get_set_eq | by apply kv_get_set_ne]. Qed.

Lemma kv_get_delete k k' s :
  kv_get k' (kv_delete k s) = if decide (k = k') then None else kv_get k' s.
Proof. case_decide; subst; [apply kv_get_delete_eq | by apply kv_get_delete_ne]. Qed.

(** Deleting an absent key changes nothing. *)
Lemma kv_delete_absent k s : kv_get k s = None -> kv_delete k s = s.
Proof. intros Hk. apply kv_ext. intros k'. rewrite kv_get_delete. case_decide; congruence. Qed.

(** Writing the value a key already holds changes nothing. *)
Lemma kv_set_present k v s : kv_get k s = Some v -> kv_set k v s = s.
Proof. intros Hk. apply kv_ext. intros k'. rewrite kv_get_set. case_decide; congruence. Qed.
End KvDerived.
(** ** The cursor of a listing *)

#[local] Abbreviation entry_lt := (fun e1 e2 : kv_key * jsstr => key_compare e1.1 e2.1 = Lt).

Section Cursor.
Context {S : Type} `{KvStoreLaws S}.
#[local] Set Default Proof Using "Type*".

(** A listing has its keys in strictly increasing order. *)
Lemma kv_list_strict p (s : S) : StronglySorted entry_lt (kv_list p s).
Proof.
  pose proof (kv_list_sorted p s) as Hs. pose proof (kv_list_nodup p s) as Hnd.
  induction (kv_list p s) as [|x l IH]; [constructor|]. cbn in Hs, Hnd.
  apply StronglySorted_cons in Hs as [Hx Hs]. apply NoDup_cons in Hnd as [Hn Hnd].
  constructor; [by apply IH|]. apply Forall_forall. intros y Hy.
  eapply Forall_forall in Hx; [|apply list_elem_of_fmap; by exists y].
  destruct (key_compare x.1 y.1) eqn:E; [|done|done].
  apply key_compare_eq in E. destruct Hn. rewrite E. apply list_elem_of_fmap. by exists y.
Qed.

Lemma StronglySorted_filter_entries (P : kv_key * jsstr -> Prop) `{!forall e, Decision (P e)} l :
  StronglySorted entry_lt l -> StronglySorted entry_lt (filter P l).
Proof.
  induction 1 as [|x l _ IH Hx]; [constructor|]. rewrite filter_cons. case_decide; [|done].
  constructor; [done|]. apply Forall_forall. intros y Hy%list_elem_of_filter.
  eapply Forall_forall in Hx; [|exact (proj2 Hy)]. done.
Qed.

(** In a strictly sorted listing, the entries after the last one of a
    first part are the rest. *)
Lemma filter_after_last b d kb vb :
  StronglySorted entry_lt (b ++ d) -> last b = Some (kb, vb) ->
  filter (fun e => key_compare kb e.1 = Lt) (b ++ d) = d.
Proof.
  intros Hs Hl. apply last_Some in Hl as [b' ->]. rewrite <- app_assoc in Hs |- *. cbn [app] in Hs |- *.
  apply StronglySorted_app in Hs as (Hlt & _ & Hs). apply StronglySorted_cons in Hs as [Hd _].
  rewrite filter_app, filter_cons_False; cbn.
  2:{ intros E. rewrite (proj2 (key_compare_eq kb kb) eq_refl) in E. discriminate. }
  rewrite (filter_all _ d) by done. rewrite filter_none; [done|].
  apply Forall_forall. intros e He Hgt. assert (Hx : key_compare e.1 kb = Lt).
  { apply (Hlt e (kb, vb)); [done|]. apply elem_of_cons; by left. }
  rewrite key_compare_antisym in Hgt. by rewrite Hx in Hgt.
Qed.

(** After a batch, the iterator reads on from the entries that follow it:
    the batches of a listing read on one store make up the whole listing. *)
Lemma list_after_batch read l n :
  StronglySorted entry_lt l -> take n (list_after read l) <> [] ->
  list_after (read ++ take n (list_after read l)) l = drop n (list_after read l).
Proof.
  intros Hs Hne. set (A := list_after read l) in *.
  destruct (last (take n A)) as [[kb vb]|] eqn:Hl; [|by apply last_None in Hl].
  unfold list_after at 1. rewrite last_app, Hl.
  assert (HA : StronglySorted entry_lt A /\ filter (fun e => key_compare kb e.1 = Lt) l =
                                              filter (fun e => key_compare kb e.1 = Lt) A).
  { unfold A, list_after. destruct (last read) as [[kr vr]|] eqn:Hr; [|done].
    split; [by apply StronglySorted_filter_entries|].
    symmetry. apply list_filter_filter_l. intros e He.
    assert (Hkb : (kb, vb) ∈ filter (fun e => key_compare kr e.1 = Lt) l).
    { pose proof (last_Some_elem_of _ _ Hl) as Hin. unfold A, list_after in Hin.
      rewrite Hr in Hin. by apply (subseteq_take n). }
    apply list_elem_of_filter in Hkb as [Hkb _]. by apply (key_compare_trans _ kb). }
  destruct HA as [HA ->]. rewrite <- (take_drop n A) in HA |- * at 1.
  by apply (filter_after_last _ _ kb vb).
Qed.
End Cursor.



#[export] Hint Rewrite @kv_get_set_eq @kv_get_delete_eq : notes_rw.
