(* ===== verification/Views.v ===== *)
(** * The views: indexNote, templateNote and layout (server.ts lines 63-196)

    The three functions build HTML by template literals.  Each literal is
    transcribed character for character, spaces and line breaks included,
    as the sequence of code units it denotes ([tpl] reads a backquote as a
    double quote); each [${...}] is the concatenation of the interpolated
    string.  Nothing is escaped: ids and bodies are inserted as they are. *)

From S2P Require Import Prelude.

Module Views.

(** [layout(content, title)], lines 117-196 *)
Definition layout_open : jsstr :=
  tpl "
    <html>
      <head>
        <meta charset=`UTF-8`>
        <title>".

Definition layout_middle : jsstr :=
  tpl "</title>
        <meta name=`viewport` content=`width=device-width, initial-scale=1`>
        <link rel=`stylesheet` href=`https://cdnjs.cloudflare.com/ajax/libs/modern-normalize/1.1.0/modern-normalize.min.css`>
        <style type=`text/css`>
          body {
            padding: 20px;
            max-width: 800px;
            margin: 0 auto;
          }
          ul {
            list-style: none;
            padding: 0;
          }
          ul a {
            display: block;
            padding: 1em;
            color: #000;
            text-decoration: none;
            font-weight: bold;
          }
          ul a:hover {
            background: #eee;
          }
          li + li {
            border-top: 1px solid #eee;
          }
          textarea {
            width: 100%;
            height: calc(100vh - 40px);
            border: none;
            resize: none;
            padding: 20px;
            line-height: 1.6;
            outline: 0;
          }
          textarea:focus-visible {
            outline: 0;
          }
          form {
            display: flex;
          }
          input[type=`text`] {
            padding: 1em;
            background: #efefef;
            border: none;
            flex: 1;
            outline: 0;
          }
          input[type=`text`]:focus {
            background: #eee;
          }
          .button {
            border: none;
            padding: 1em;
            background: #000;
            color: #fff;
            text-decoration: none;
            cursor: pointer;
          }
          .button:hover {
            background: #333;
          }
          .is-floating {
            position: fixed;
            bottom: 20px;
            right: 20px;
          }
        </style>
      </head>
      <body>
        ".

Definition layout_close : jsstr :=
  tpl "
      </body>
    </html>
  ".

Definition layout (content title : jsstr) : jsstr :=
  layout_open ++ title ++ layout_middle ++ content ++ layout_close.

(** The item of the note list, line 69:
    [`<li><a href="/${id}">${id}</a></li>`] *)
Definition index_item (id : jsstr) : jsstr :=
  tpl "<li><a href=`/" ++ id ++ tpl "`>" ++ id ++ tpl "</a></li>".

(** [indexNote(notes)], lines 63-90; the join with the empty separator
    concatenates the items. *)
Definition index_open : jsstr :=
  tpl "
    <ul>
      ".

Definition index_close : jsstr :=
  tpl "
    </ul>
    <form action=`/` method=`GET` id=`new`>
      <input type=`text` name=`name` required placeholder=`Title of the note` autofocus>
      <button class=`button`>New note</button>
    </form>
    <script type=`module`>
      const form = document.getElementById('new');
      form.addEventListener('submit', function (e) {
        e.preventDefault();
        const name = new FormData(form).get('name');
        if (name) {
          document.location = '/' + name;
        }
      });
    </script>
  ".

Definition indexNote (notes : list jsstr) : jsstr :=
  layout (index_open ++ concat (map index_item notes) ++ index_close) (js "Notes").

(** [templateNote(title, content)], lines 92-115; [content] or the empty
    string ([||]) is the empty string for a missing note ([null]) and for
    an empty one. *)
Definition note_open : jsstr :=
  tpl "
    <textarea id=`text` placeholder=`Write here your notes` autofocus>".

Definition note_close : jsstr :=
  tpl "</textarea>
    <a class=`button is-floating` href=`../`>Back</a>

    <script type=`module`>
        const textarea = document.getElementById('text');
        const button = document.getElementById('delete');

        let sending = false;
        textarea.addEventListener('keyup', function () {
          if (sending) return;
          sending = true;
          fetch(location.pathname, { method: 'POST', body: this.value })
            .then(() => sending = false);
        });
    </script>
  ".

Definition templateNote (title : jsstr) (content : option jsstr) : jsstr :=
  layout (note_open ++ default [] content ++ note_close) title.

End Views.

Section ViewLemmas.
Import Views.

(** The opening tag of the editor, the end of [note_open]. *)
Definition textarea_open : jsstr :=
  tpl "<textarea id=`text` placeholder=`Write here your notes` autofocus>".

Lemma note_open_textarea : note_open = js "
    " ++ textarea_open.
Proof. reflexivity. Qed.

Lemma note_close_split : note_close = js "</textarea>" ++ drop 11 note_close.
Proof. vm_compute. reflexivity. Qed.

Lemma layout_open_split : layout_open = take 64 layout_open ++ js "<title>".
Proof. vm_compute. reflexivity. Qed.

Lemma layout_middle_split : layout_middle = js "</title>" ++ drop 8 layout_middle.
Proof. vm_compute. reflexivity. Qed.

Lemma templateNote_split title c :
  templateNote title c =
  take 64 layout_open ++ js "<title>" ++ title ++ js "</title>" ++ drop 8 layout_middle ++
  js "
    " ++ textarea_open ++ default [] c ++ js "</textarea>" ++ drop 11 note_close ++ layout_close.
Proof.
  unfold templateNote, layout.
  rewrite note_open_textarea, note_close_split, layout_open_split, layout_middle_split.
  by rewrite <- !app_assoc.
Qed.


(** C22: the edit page of a note holds its body verbatim between
    the editor's opening tag and [</textarea>], and its id as the page
    title. *)
Theorem templateNote_shows_body title b :
  occurs_in (textarea_open ++ b ++ js "</textarea>") (templateNote title (Some b)) /\
  occurs_in (js "<title>" ++ title ++ js "</title>") (templateNote title (Some b)).
Proof.
  rewrite templateNote_split. cbn [default id].
  generalize (take 64 layout_open) (drop 8 layout_middle) (drop 11 note_close) layout_close
    textarea_open (js "<title>") (js "</title>") (js "</textarea>") (js "
    ").
  intros A B C D T O1 O2 E N. split.
  - exists (A ++ O1 ++ title ++ O2 ++ B ++ N), (C ++ D). by rewrite <- !app_assoc.
  - exists A, (B ++ N ++ T ++ b ++ E ++ C ++ D). by rewrite <- !app_assoc.
Qed.

(** C23: the list page holds the link items of the ids, in the
    order given, one after the other. *)
Theorem indexNote_lists ids :
  occurs_in (concat (map index_item ids)) (indexNote ids) /\
  forall id, id ∈ ids ->
    occurs_in (tpl "<li><a href=`/" ++ id ++ tpl "`>" ++ id ++ tpl "</a></li>") (indexNote ids).
Proof.
  unfold indexNote, layout.
  generalize layout_open layout_middle layout_close index_open index_close (js "Notes").
  intros LO LM LC IO IC T. split.
  - exists (LO ++ T ++ LM ++ IO), (IC ++ LC). by rewrite <- !app_assoc.
  - intros id Hin. apply list_elem_of_split in Hin as (l1 & l2 & ->).
    rewrite map_app, concat_app. cbn [map concat]. unfold index_item.
    exists (LO ++ T ++ LM ++ IO ++ concat (map index_item l1)),
      (concat (map index_item l2) ++ IC ++ LC).
    by rewrite <- !app_assoc.
Qed.

Lemma textarea_open_split : textarea_open = take 56 textarea_open ++ js "autofocus>".
Proof. vm_compute. reflexivity. Qed.


(** Nothing is escaped: a body that closes the editor and
    opens a script is rendered as is, so the page holds a script element
    of the note's author after the editor's text. *)
Lemma templateNote_injects_script title :
  occurs_in (js "autofocus></textarea><script>alert(1)</script></textarea>")
    (templateNote title (Some (js "</textarea><script>alert(1)</script>"))).
Proof.
  rewrite templateNote_split, textarea_open_split. cbn [default id].
  change (js "autofocus></textarea><script>alert(1)</script></textarea>") with
    (js ("autofocus>" ++ "</textarea><script>alert(1)</script>" ++ "</textarea>")).
  rewrite !js_app.
  generalize (take 64 layout_open) (drop 8 layout_middle) (drop 11 note_close) layout_close
    (take 56 textarea_open) (js "autofocus>") (js "</textarea><script>alert(1)</script>")
    (js "<title>") (js "</title>") (js "</textarea>") (js "
    ").
  intros A B C D T F X O1 O2 E N.
  exists (A ++ O1 ++ title ++ O2 ++ B ++ N ++ T), (C ++ D). by rewrite <- !app_assoc.
Qed.
End ViewLemmas.
