(* ===== verification/Handler.v ===== *)
(** * The request handler passed to serve (server.ts lines 10-61)

    The handler is a program over the store: it awaits [db.get], [db.set],
    [db.delete] and [db.list], and its result depends on what they return.
    [prog] is that program as data (each constructor one awaited store
    operation and the rest of the handler as a continuation), [run]
    executes it against any store meeting the [KvStore] contract, and
    [serve] adds what Deno's [serve] does with a thrown exception: the
    default [onError] answers 500.  Responses are records of the fields
    [new Response(body, init)] sets. *)

From stdpp Require Import gmap sorting.
From S2P Require Import Prelude JsString Base64 Auth Router Uri Url KeyOrder KvStore Views.

Local Open Scope Z_scope.

(** ** Requests and responses *)

Record request := mk_request {
  req_method : jsstr;                 (** [req.method] *)
  req_pathname : jsstr;               (** the pathname of [req.url] *)
  req_authorization : option jsstr;   (** [req.headers.get("authorization")] *)
  req_body : jsstr                    (** [await req.text()] *)
}.

Record response := mk_response {
  res_status : Z;
  res_statusText : jsstr;
  res_headers : list (jsstr * jsstr);
  res_body : jsstr
}.

(** [Headers] stores names in ASCII lower case. *)
Definition to_lower_ascii (s : jsstr) : jsstr :=
  map (fun c => if decide (65 <= c <= 90) then c + 32 else c) s.

(** [new Response(body, { status, statusText, headers })]: a string body
    adds [content-type: text/plain;charset=UTF-8] unless the headers name a
    content type. *)
Definition new_response (body : jsstr) (status : Z) (statusText : jsstr)
    (headers : list (jsstr * jsstr)) : response :=
  let hs := map (fun '(n, v) => (to_lower_ascii n, v)) headers in
  {| res_status := status;
     res_statusText := statusText;
     res_headers :=
       if bool_decide (js "content-type" ∈ hs.*1) then hs
       else hs ++ [(js "content-type", js "text/plain;charset=UTF-8")];
     res_body := body |}.

(** Lines 14-20 *)
Definition unauthorized_response : response :=
  new_response (js "401 Unauthorized") 401 (js "Unauthorized")
    [(js "www-authenticate", tpl "Basic realm=`Basic Authentication`")].

(** Lines 31-33 and 52-54 *)
Definition html_response (body : jsstr) : response :=
  new_response body 200 [] [(js "Content-Type", js "text/html")].

(** Line 49 *)
Definition ok_response : response := new_response (js "OK") 200 [] [].

(** Lines 57-60 *)
Definition not_found_response : response :=
  new_response (Views.layout (js "Not found") (js "Notes")) 404 []
    [(js "Content-Type", js "text/html")].

(** The default [onError] of [serve] (std 0.187.0, http/server.ts). *)
Definition internal_error_response : response :=
  new_response (js "Internal Server Error") 500 [] [].

(** ** The handler as a program over the store *)

(** The awaited operations of the handler.  [KvList prefix read next] is
    [db.list({ prefix })] consumed by [for await] (lines 24-29): [read]
    holds the entries the iterator has returned so far, empty when the
    loop starts, and the listing goes on after the last of them. *)
Inductive prog (A : Type) : Type :=
| Done (a : A)
| Fail (e : js_exn)
| KvGet (k : kv_key) (next : option jsstr -> prog A)
| KvSet (k : kv_key) (v : jsstr) (next : prog A)
| KvDelete (k : kv_key) (next : prog A)
| KvList (prefix : kv_key) (read : list (kv_key * jsstr)) (next : list (kv_key * jsstr) -> prog A).
Arguments Done {A} a.
Arguments Fail {A} e.
Arguments KvGet {A} k next.
Arguments KvSet {A} k v next.
Arguments KvDelete {A} k next.
Arguments KvList {A} prefix read next.

(** The key [["notes", id]] of a note. *)
Definition note_key (id : jsstr) : kv_key := [js "notes"; id].

(** [key[1] as string]: the second part of a listed key. *)
Definition key_id (k : kv_key) : jsstr :=
  match k with
  | _ :: id :: _ => id
  | _ => js "undefined"
  end.

(** Lines 23-60: the routes, once the request is authorised. *)
Definition route_request (req : request) : prog response :=
  if Router.home_test (req_pathname req) then
    KvList [js "notes"] [] (fun entries =>
      Done (html_response (Views.indexNote (map (fun '(k, _) => key_id k) entries))))
  else
    match Router.note_exec (req_pathname req) with
    | Some raw =>
        match Uri.decodeURI raw with
        | Throw ex => Fail ex
        | Normal id =>
            KvGet (note_key id) (fun note =>
              if bool_decide (req_method req = js "POST") then
                let body := req_body req in
                if bool_decide (trim body = []) then
                  KvDelete (note_key id) (Done ok_response)
                else KvSet (note_key id) body (Done ok_response)
              else Done (html_response (Views.templateNote id note)))
        end
    | None => Done not_found_response
    end.

(** Lines 10-22: the authorisation gate, then the routes.  [!authorization]
    holds for a missing header and for the empty one. *)
Definition handler (e : env) (req : request) : prog response :=
  match req_authorization req with
  | None => Done unauthorized_response
  | Some authorization =>
      if bool_decide (authorization = []) then Done unauthorized_response
      else
        match checkAuthorization e authorization with
        | Throw ex => Fail ex
        | Normal false => Done unauthorized_response
        | Normal true => route_request req
        end
  end.

(** ** Running the program against a store *)

Section Run.
Context {S : Type} `{KvStore S}.

Fixpoint run {A} (p : prog A) (s : S) : completion A * S :=
  match p with
  | Done a => (Normal a, s)
  | Fail ex => (Throw ex, s)
  | KvGet k next => run (next (kv_get k s)) s
  | KvSet k v next => run next (kv_set k v s)
  | KvDelete k next => run next (kv_delete k s)
  | KvList p read next => run (next (read ++ list_after read (kv_list p s))) s
  end.

(** [serve(handler)]: a thrown exception becomes the 500 response. *)
Definition respond (r : completion response) : response :=
  match r with Normal resp => resp | Throw _ => internal_error_response end.

Definition serve (e : env) (req : request) (s : S) : response * S :=
  let '(r, s') := run (handler e req) s in (respond r, s').
End Run.

(** ** Lemmas on the handler *)

Definition authorized (e : env) (req : request) : Prop :=
  exists a, req_authorization req = Some a /\ checkAuthorization e a = Normal true.

Section HandlerLemmas.
Context {S : Type} `{KvStoreLaws S}.

Lemma handler_authorized e req : authorized e req -> handler e req = route_request req.
Proof.
  intros (a & Ha & Hc). unfold handler. rewrite Ha.
  case_bool_decide as Hnil; [subst; discriminate|]. by rewrite Hc.
Qed.

Lemma serve_authorized e req s :
  authorized e req -> serve e req s = let '(r, s') := run (route_request req) s in (respond r, s').
Proof. intros Ha. unfold serve. by rewrite handler_authorized. Qed.

Lemma note_not_home p raw : Router.note_exec p = Some raw -> Router.home_test p = false.
Proof.
  intros Hn. destruct (Router.home_test p) eqn:E; [|done].
  by rewrite (home_not_note _ E) in Hn.
Qed.

(** The note route, on every branch. *)
Lemma run_route_note req raw id s :
  Router.note_exec (req_pathname req) = Some raw -> Uri.decodeURI raw = Normal id ->
  run (route_request req) s =
  if bool_decide (req_method req = js "POST") then
    (Normal ok_response,
     if bool_decide (trim (req_body req) = []) then kv_delete (note_key id) s
     else kv_set (note_key id) (req_body req) s)
  else (Normal (html_response (Views.templateNote id (kv_get (note_key id) s))), s).
Proof.
  intros Hn Hd. unfold route_request. rewrite (note_not_home _ _ Hn), Hn, Hd. cbn.
  repeat case_bool_decide; done.
Qed.

Lemma run_route_home req s :
  Router.home_test (req_pathname req) = true ->
  run (route_request req) s =
  (Normal (html_response (Views.indexNote (map (fun '(k, _) => key_id k) (kv_list [js "notes"] s)))), s).
Proof. intros Hh. unfold route_request. by rewrite Hh. Qed.
End HandlerLemmas.

(** ** What a request does to the store *)

(** The store after a request is the store before, the store with one
    note deleted, or the store with one note written with a body that is
    not blank. *)
Definition store_effect {S} `{KvStore S} (s s' : S) : Prop :=
  s' = s \/ (exists id, s' = kv_delete (note_key id) s) \/
  (exists id b, trim b <> [] /\ s' = kv_set (note_key id) b s).

(** The notes of a store are under keys [["notes", id]] and never blank. *)
Definition notes_wf {S} `{KvStore S} (s : S) : Prop :=
  forall k v, kv_get k s = Some v -> strict_prefix [js "notes"] k = true ->
  (exists id, k = note_key id) /\ trim v <> [].

Section Effects.
Context {S : Type} `{KvStoreLaws S}.
#[local] Set Default Proof Using "Type*".

Lemma route_request_effect req s : store_effect s (run (route_request req) s).2.
Proof.
  unfold store_effect, route_request.
  destruct (Router.home_test _); [by left|].
  destruct (Router.note_exec _) as [raw|]; [|by left].
  destruct (Uri.decodeURI raw) as [id|ex]; [|by left]. cbn.
  repeat case_bool_decide; cbn; eauto 10.
Qed.

Lemma serve_effect e req s : store_effect s (serve e req s).2.
Proof.
  unfold serve, handler.
  destruct (req_authorization req) as [a|]; [|by left].
  case_bool_decide; [by left|].
  destruct (checkAuthorization e a) as [[]|]; cbn; [| by left | by left].
  destruct (run (route_request req) s) eqn:E. cbn.
  pose proof (route_request_effect req s) as Hf. by rewrite E in Hf.
Qed.

Lemma strict_prefix_note_key id : strict_prefix [js "notes"] (note_key id) = true.
Proof. unfold strict_prefix, note_key. cbn. by rewrite bool_decide_true. Qed.

Lemma notes_wf_effect s s' : notes_wf s -> store_effect s s' -> notes_wf s'.
Proof.
  intros Hwf [-> | [(id & ->) | (id & b & Hb & ->)]]; [done| |];
    intros k v; rewrite ?kv_get_delete, ?kv_get_set; case_decide; subst.
  - discriminate.
  - apply Hwf.
  - intros [= <-] _. split; [eauto | done].
  - apply Hwf.
Qed.
End Effects.

(** The ids of the notes are well-formed UTF-16. *)
Definition ids_wf {S} `{KvStore S} (s : S) : Prop :=
  forall id v, kv_get (note_key id) s = Some v -> Url.utf16_well_formed id = true.

(** A pathname as the URL parser serializes it: ASCII. *)
Definition ascii_path (p : jsstr) : Prop := Forall (fun c => 0 <= c < 128)%Z p.

Section IdsWf.
Context {S : Type} `{KvStoreLaws S}.
#[local] Set Default Proof Using "Type*".

Lemma route_request_ids_wf req s :
  ascii_path (req_pathname req) -> ids_wf s -> ids_wf (run (route_request req) s).2.
Proof.
  intros Hp Hwf. unfold route_request.
  destruct (Router.home_test _); [done|].
  destruct (Router.note_exec _) as [raw|] eqn:En; [|done].
  destruct (Uri.decodeURI raw) as [id|ex] eqn:Ed; [|done]. cbn.
  apply Router.note_exec_spec in En as (Ep & _ & _). rewrite Ep in Hp.
  apply Forall_cons in Hp as [_ Hraw].
  repeat case_bool_decide; cbn; [| |done]; intros id' v;
    rewrite ?kv_get_delete, ?kv_get_set; case_decide as Hk; try (by apply Hwf); [done|].
  intros _. unfold note_key in Hk. simplify_eq. by eapply decode_loop_well_formed.
Qed.

Lemma serve_ids_wf e req s :
  ascii_path (req_pathname req) -> ids_wf s -> ids_wf (serve e req s).2.
Proof.
  intros Hp Hwf. unfold serve, handler.
  destruct (req_authorization req) as [a|]; [|done].
  case_bool_decide; [done|].
  destruct (checkAuthorization e a) as [[]|]; cbn; [|done|done].
  pose proof (route_request_ids_wf req s Hp Hwf) as Hr.
  destruct (run (route_request req) s). done.
Qed.
End IdsWf.

(** ** Properties of the handler *)

Section HandlerProperties.
Context {S : Type} `{KvStoreLaws S}.
#[local] Set Default Proof Using "Type*".

(** C1: a request with no authorization header, or one that
    checkAuthorization refuses, gets the 401 response with the Basic
    challenge, whatever its path and method, and the store is not
    touched: authentication comes before routing. *)
Theorem serve_unauthorized e req s :
  (req_authorization req = None \/
   exists a, req_authorization req = Some a /\ checkAuthorization e a = Normal false) ->
  serve e req s = (unauthorized_response, s) /\
  res_status unauthorized_response = 401 /\
  (js "www-authenticate", tpl "Basic realm=`Basic Authentication`")
    ∈ res_headers unauthorized_response.
Proof.
  intros Hauth. split; [|split; [done | cbn; by left]].
  unfold serve, handler. destruct Hauth as [-> | (a & -> & Hc)]; [done|].
  case_bool_decide; [done|]. by rewrite Hc.
Qed.

(** C2: after a POST of a body that is not blank to a note's
    path, a request of any other method to that path returns the edit
    page holding that body, and leaves the store as the POST left it. *)
Theorem post_then_get e a path raw id b m b' s :
  checkAuthorization e a = Normal true -> Router.note_exec path = Some raw ->
  Uri.decodeURI raw = Normal id -> trim b <> [] -> m <> js "POST" ->
  let '(r1, s1) := serve e (mk_request (js "POST") path (Some a) b) s in
  let '(r2, s2) := serve e (mk_request m path (Some a) b') s1 in
  r1 = ok_response /\ r2 = html_response (Views.templateNote id (Some b)) /\
  s2 = s1 /\ kv_get (note_key id) s1 = Some b.
Proof.
  intros Ha Hn Hd Hb Hm.
  rewrite serve_authorized by (eexists; eauto).
  rewrite (run_route_note _ raw id) by done. cbn.
  rewrite bool_decide_true, bool_decide_false by done.
  rewrite serve_authorized by (eexists; eauto).
  rewrite (run_route_note _ raw id) by done. cbn.
  rewrite bool_decide_false by done. cbn. by rewrite kv_get_set_eq.
Qed.

(** C3: a POST of a blank body (empty or white space only) answers
    OK, removes that note and no other, and is idempotent: the same POST
    again changes nothing. *)
Theorem post_blank_deletes e a path raw id b s :
  checkAuthorization e a = Normal true -> Router.note_exec path = Some raw ->
  Uri.decodeURI raw = Normal id -> trim b = [] ->
  let req := mk_request (js "POST") path (Some a) b in
  let '(r, s1) := serve e req s in
  r = ok_response /\ kv_get (note_key id) s1 = None /\
  (forall k, k <> note_key id -> kv_get k s1 = kv_get k s) /\
  serve e req s1 = (ok_response, s1).
Proof.
  intros Ha Hn Hd Hb. cbn zeta.
  rewrite !serve_authorized by (eexists; eauto).
  rewrite !(run_route_note _ raw id) by done. cbn.
  rewrite !bool_decide_true by done. cbn.
  split; [done|]. split; [apply kv_get_delete_eq|]. split.
  - intros k Hk. by apply kv_get_delete_ne.
  - rewrite serve_authorized by (eexists; eauto).
    rewrite (run_route_note _ raw id) by done. cbn.
    rewrite !bool_decide_true by done.
    by rewrite (kv_delete_absent _ (kv_delete _ s)) by apply kv_get_delete_eq.
Qed.

(** A POST of a body that is not blank writes it, and the same POST
    again leaves the store as the first one left it. *)
Theorem post_idempotent e a path raw id b s :
  checkAuthorization e a = Normal true -> Router.note_exec path = Some raw ->
  Uri.decodeURI raw = Normal id -> trim b <> [] ->
  let req := mk_request (js "POST") path (Some a) b in
  let s1 := (serve e req s).2 in
  s1 = kv_set (note_key id) b s /\ serve e req s1 = (ok_response, s1).
Proof.
  intros Ha Hn Hd Hb. cbn zeta.
  rewrite !serve_authorized by (eexists; eauto).
  rewrite !(run_route_note _ raw id) by done. cbn.
  rewrite !bool_decide_true, !bool_decide_false by done. cbn.
  split; [done|].
  by rewrite (kv_set_present _ b (kv_set _ b s)) by apply kv_get_set_eq.
Qed.

(** C4: every request keeps the store well formed: notes sit under
    [["notes", id]] and none is blank (a blank POST deletes instead of
    writing). *)
Theorem serve_preserves_wf e req s : notes_wf s -> notes_wf (serve e req s).2.
Proof. intros Hwf. eapply notes_wf_effect; [done | apply serve_effect]. Qed.
End HandlerProperties.

(** ** The note list *)

Definition listed_ids (entries : list (kv_key * jsstr)) : list jsstr :=
  map (fun '(k, _) => key_id k) entries.

Definition str_le (x y : jsstr) : Prop := str_compare x y <> Gt.

Section ListLemmas.
Context {S : Type} `{KvStoreLaws S}.
#[local] Set Default Proof Using "Type*".

Lemma listed_entries_are_notes s k v :
  notes_wf s -> (k, v) ∈ kv_list [js "notes"] s -> exists id, k = note_key id.
Proof. intros Hwf Hin. apply kv_list_spec in Hin as [Hp Hg]. by apply (Hwf k v). Qed.

Lemma listed_ids_spec s id :
  notes_wf s -> id ∈ listed_ids (kv_list [js "notes"] s) <-> exists v, kv_get (note_key id) s = Some v.
Proof.
  intros Hwf. unfold listed_ids. rewrite list_elem_of_In, in_map_iff. split.
  - intros ([k v] & <- & Hin). apply list_elem_of_In in Hin.
    destruct (listed_entries_are_notes s k v Hwf Hin) as [id' ->].
    apply kv_list_spec in Hin as [_ Hg]. eauto.
  - intros [v Hv]. exists (note_key id, v). split; [done|].
    apply list_elem_of_In, kv_list_spec. split; [apply strict_prefix_note_key | done].
Qed.

Lemma listed_ids_nodup (l : list (kv_key * jsstr)) :
  NoDup l.*1 -> Forall (fun e => exists id, e.1 = note_key id) l -> NoDup (listed_ids l).
Proof.
  induction l as [|[k v] l IH]; intros Hnd Hall; cbn in *; [constructor|].
  apply NoDup_cons in Hnd as [Hk Hnd]. apply Forall_cons in Hall as [[id Hid0] Hall].
  cbn in Hid0. subst k.
  constructor; [|by apply IH].
  unfold listed_ids. rewrite list_elem_of_In, in_map_iff. intros ([k' v'] & Hid & Hin).
  apply list_elem_of_In in Hin. rewrite Forall_forall in Hall.
  destruct (Hall _ Hin) as [id' Hk']; cbn in *. subst k'. cbn in Hid. subst id'.
  apply Hk. apply list_elem_of_fmap. by exists (note_key id, v').
Qed.

Lemma note_key_compare x y : key_compare (note_key x) (note_key y) = str_compare x y.
Proof.
  unfold key_compare, note_key. rewrite list_compare_cons by apply str_compare_eq.
  cbn. by destruct (str_compare x y).
Qed.

Lemma listed_ids_sorted (l : list (kv_key * jsstr)) :
  StronglySorted key_le l.*1 -> Forall (fun e => exists id, e.1 = note_key id) l ->
  StronglySorted str_le (listed_ids l).
Proof.
  induction l as [|[k v] l IH]; intros Hs Hall; cbn in *; [constructor|].
  apply StronglySorted_inv in Hs as [Hs Hhd]. apply Forall_cons in Hall as [[id Hid0] Hall].
  cbn in Hid0. subst k.
  constructor; [by apply IH|]. cbn.
  apply Forall_forall. intros id' Hin. apply list_elem_of_In, in_map_iff in Hin as ([k' v'] & <- & Hin).
  apply list_elem_of_In in Hin. rewrite Forall_forall in Hall.
  destruct (Hall _ Hin) as [id'' Hk']; cbn in Hk'; subst k'.
  rewrite Forall_forall in Hhd. unfold str_le. rewrite <- note_key_compare.
  apply (Hhd (note_key id'')), list_elem_of_fmap. by exists (note_key id'', v').
Qed.

(** Sorted without duplicates is sorted strictly. *)
Lemma StronglySorted_strict {A} (R R' : relation A) (P : A -> Prop) (l : list A) :
  (forall x y, P x -> P y -> x <> y -> R x y -> R' x y) ->
  StronglySorted R l -> NoDup l -> Forall P l -> StronglySorted R' l.
Proof.
  intros HR. induction 1 as [|h l _ IH Hall]; intros Hnd HP; constructor.
  - apply NoDup_cons in Hnd as [_ Hnd]. apply Forall_cons in HP as [_ HP]. auto.
  - apply NoDup_cons in Hnd as [Hh _]. apply Forall_cons in HP as [Ph HP].
    rewrite Forall_forall in Hall, HP |- *. intros z Hz.
    apply HR; [done | by apply HP | intros <-; by apply Hh | by apply Hall].
Qed.

(** Two note keys of well-formed ids are in Deno KV's byte order as
    their ids are in the order of the model. *)
Lemma note_key_byte_compare x y :
  Url.utf16_well_formed x = true -> Url.utf16_well_formed y = true ->
  byte_compare (encode_key (note_key x)) (encode_key (note_key y)) = str_compare x y.
Proof.
  intros Hx Hy. rewrite <- key_compare_encode_key, note_key_compare; [done| |];
    repeat constructor; assumption.
Qed.
End ListLemmas.

(** ** Further properties of the handler *)

(** The stores the server reaches from one with no notes by requests
    whose pathnames are ASCII, as the URL parser serializes them. *)
Inductive reachable_ascii {S} `{KvStore S} (e : env) : S -> Prop :=
| reach_ascii_init s :
    (forall k, strict_prefix [js "notes"] k = true -> kv_get k s = None) -> reachable_ascii e s
| reach_ascii_step s req :
    reachable_ascii e s -> ascii_path (req_pathname req) -> reachable_ascii e (serve e req s).2.

Section MoreProperties.
Context {S : Type} `{KvStoreLaws S}.
#[local] Set Default Proof Using "Type*".

(** C5: on a well-formed store, the page of [/] (any method) lists
    each note id exactly once, in key order, and exactly the ids that have
    a note; the store is not touched. *)
Theorem list_page e a m b s :
  checkAuthorization e a = Normal true -> notes_wf s ->
  exists ids,
    serve e (mk_request m (js "/") (Some a) b) s = (html_response (Views.indexNote ids), s) /\
    NoDup ids /\ StronglySorted str_le ids /\
    (forall id, id ∈ ids <-> exists v, kv_get (note_key id) s = Some v).
Proof.
  intros Ha Hwf. exists (listed_ids (kv_list [js "notes"] s)).
  assert (Hall : Forall (fun e => exists id, e.1 = note_key id) (kv_list [js "notes"] s)).
  { apply Forall_forall. intros [k v] Hin. by apply (listed_entries_are_notes s k v). }
  split; [|split; [|split]].
  - rewrite serve_authorized by (eexists; eauto). by rewrite run_route_home.
  - apply listed_ids_nodup; [apply kv_list_nodup | done].
  - apply listed_ids_sorted; [apply kv_list_sorted | done].
  - intros id. by apply listed_ids_spec.
Qed.

(** On a well-formed store whose ids are well-formed, the page of [/]
    lists the ids strictly in the byte order of their encoded keys. *)
Lemma list_page_sorted_bytes e a m b s :
  checkAuthorization e a = Normal true -> notes_wf s -> ids_wf s ->
  exists ids,
    serve e (mk_request m (js "/") (Some a) b) s = (html_response (Views.indexNote ids), s) /\
    (forall id, id ∈ ids <-> exists v, kv_get (note_key id) s = Some v) /\
    StronglySorted (fun x y => byte_compare (encode_key (note_key x)) (encode_key (note_key y)) = Lt) ids.
Proof.
  intros Ha Hwf Hids. exists (listed_ids (kv_list [js "notes"] s)).
  assert (Hall : Forall (fun e => exists id, e.1 = note_key id) (kv_list [js "notes"] s)).
  { apply Forall_forall. intros [k v] Hin. by apply (listed_entries_are_notes s k v). }
  split; [|split].
  - rewrite serve_authorized by (eexists; eauto). by rewrite run_route_home.
  - intros id. by apply listed_ids_spec.
  - apply (StronglySorted_strict str_le _ (fun id => Url.utf16_well_formed id = true)).
    + intros x y Hx Hy Hne Hle. rewrite note_key_byte_compare by done.
      unfold str_le in Hle. destruct (str_compare x y) eqn:E; [|done|done].
      by apply str_compare_eq in E.
    + apply listed_ids_sorted; [apply kv_list_sorted | done].
    + apply listed_ids_nodup; [apply kv_list_nodup | done].
    + apply Forall_forall. intros id Hin.
      apply listed_ids_spec in Hin as [v Hv]; [|done]. eauto.
Qed.

(** C18: in every store the server reaches from one with no notes by
    requests whose pathnames are ASCII, as the URL parser serializes them,
    the page of [/] lists exactly the ids that have a note, each before
    every id whose key comes later in Deno KV's byte order of encoded
    keys: the page shows the notes in the order [db.list] yields them. *)
Theorem list_page_byte_order e a m b s :
  checkAuthorization e a = Normal true -> reachable_ascii e s ->
  exists ids,
    serve e (mk_request m (js "/") (Some a) b) s = (html_response (Views.indexNote ids), s) /\
    (forall id, id ∈ ids <-> exists v, kv_get (note_key id) s = Some v) /\
    StronglySorted (fun x y => byte_compare (encode_key (note_key x)) (encode_key (note_key y)) = Lt) ids.
Proof.
  intros Ha Hr. apply list_page_sorted_bytes; [done| |].
  - induction Hr as [s Hinit | s req _ IH _].
    + intros k v Hk Hp. by rewrite Hinit in Hk.
    + eapply notes_wf_effect; [done | apply serve_effect].
  - induction Hr as [s Hinit | s req _ IH Hp].
    + intros id v Hk. by rewrite Hinit in Hk by apply strict_prefix_note_key.
    + by apply serve_ids_wf.
Qed.

(** C12: a Basic header whose token is not valid base64 makes
    checkAuthorization throw; serve answers 500 where the spec asks for
    401, and the store is not touched. *)
Theorem serve_auth_throws e req a ex s :
  req_authorization req = Some a -> checkAuthorization e a = Throw ex ->
  serve e req s = (internal_error_response, s) /\ res_status internal_error_response = 500.
Proof.
  intros Hr Hc. split; [|done]. unfold serve, handler. rewrite Hr.
  case_bool_decide as Hnil; [subst; discriminate|]. by rewrite Hc.
Qed.

(** C17: an authorised request for a path of more than one
    segment gets the 404 page, and the store is not touched. *)
Theorem serve_nested_404 e a m x y b s :
  checkAuthorization e a = Normal true ->
  serve e (mk_request m (47 :: x ++ 47 :: y) (Some a) b) s = (not_found_response, s) /\
  res_status not_found_response = 404.
Proof.
  intros Ha. split; [|done]. rewrite serve_authorized by (eexists; eauto).
  unfold route_request. cbn [req_pathname].
  pose proof (classify_nested x y) as Hc. unfold Router.classify in Hc.
  destruct (Router.home_test _); [discriminate|].
  destruct (Router.note_exec _); [discriminate|]. done.
Qed.

(** C16: a note can be created at [/%25] (its id decodes to [%]),
    and the list links it as [/%]; but every request to [/%] fails in
    decodeURI and gets a 500: the link of the list does not lead to the
    note. *)
Theorem percent_note_unreachable e a s :
  checkAuthorization e a = Normal true ->
  kv_get (note_key (js "%"))
    (serve e (mk_request (js "POST") (js "/%25") (Some a) (js "x")) s).2 = Some (js "x") /\
  Views.index_item (js "%") = tpl "<li><a href=`/%`>%</a></li>" /\
  forall m b s', serve e (mk_request m (js "/%") (Some a) b) s' = (internal_error_response, s').
Proof.
  intros Ha. split; [|split; [done|]].
  - rewrite serve_authorized by (eexists; eauto).
    rewrite (run_route_note _ (js "%25") (js "%")) by done. cbn.
    rewrite bool_decide_true, bool_decide_false by done. apply kv_get_set_eq.
  - intros m b s'. rewrite serve_authorized by (eexists; eauto). done.
Qed.
End MoreProperties.

(** ** Witnesses, on the finite-map store *)

Definition empty_store : gmap kv_key jsstr := ∅.
Definition alice_header : jsstr := js "Basic YWxpY2U6c2VjcmV0".

Lemma empty_store_wf : notes_wf empty_store.
Proof. intros k v Hk. discriminate Hk. Qed.

Lemma serve_unauthorized_witness :
  serve alice_env (mk_request (js "GET") (js "/") None []) empty_store =
    (unauthorized_response, empty_store) /\
  res_status unauthorized_response = 401 /\
  (js "www-authenticate", tpl "Basic realm=`Basic Authentication`") ∈ res_headers unauthorized_response.
Proof. apply serve_unauthorized. by left. Defined.

Lemma post_then_get_witness :
  let '(r1, s1) := serve alice_env (mk_request (js "POST") (js "/a") (Some alice_header) (js "hello")) empty_store in
  let '(r2, s2) := serve alice_env (mk_request (js "GET") (js "/a") (Some alice_header) []) s1 in
  r1 = ok_response /\ r2 = html_response (Views.templateNote (js "a") (Some (js "hello"))) /\
  s2 = s1 /\ kv_get (note_key (js "a")) s1 = Some (js "hello").
Proof.
  apply (post_then_get alice_env alice_header (js "/a") (js "a") (js "a"));
    (vm_compute; reflexivity) || (vm_compute; discriminate).
Defined.

Lemma post_blank_deletes_witness :
  let req := mk_request (js "POST") (js "/a") (Some alice_header) (js "  ") in
  let '(r, s1) := serve alice_env req empty_store in
  r = ok_response /\ kv_get (note_key (js "a")) s1 = None /\
  (forall k, k <> note_key (js "a") -> kv_get k s1 = kv_get k empty_store) /\
  serve alice_env req s1 = (ok_response, s1).
Proof.
  apply (post_blank_deletes alice_env alice_header (js "/a") (js "a") (js "a")); vm_compute; reflexivity.
Defined.

Lemma post_idempotent_witness :
  let req := mk_request (js "POST") (js "/a") (Some alice_header) (js "hello") in
  let s1 := (serve alice_env req empty_store).2 in
  s1 = kv_set (note_key (js "a")) (js "hello") empty_store /\ serve alice_env req s1 = (ok_response, s1).
Proof.
  apply (post_idempotent alice_env alice_header (js "/a") (js "a") (js "a"));
    (vm_compute; reflexivity) || (vm_compute; discriminate).
Defined.

Lemma serve_preserves_wf_witness :
  notes_wf (serve alice_env (mk_request (js "POST") (js "/a") (Some alice_header) (js "hello")) empty_store).2.
Proof. apply serve_preserves_wf. apply empty_store_wf. Defined.

Definition one_note_store : gmap kv_key jsstr :=
  (serve alice_env (mk_request (js "POST") (js "/a") (Some alice_header) (js "hello")) empty_store).2.

Lemma list_page_witness :
  exists ids,
    serve alice_env (mk_request (js "GET") (js "/") (Some alice_header) []) one_note_store =
      (html_response (Views.indexNote ids), one_note_store) /\
    NoDup ids /\ StronglySorted str_le ids /\
    (forall id, id ∈ ids <-> exists v, kv_get (note_key id) one_note_store = Some v).
Proof.
  apply list_page; [vm_compute; reflexivity|].
  eapply notes_wf_effect; [apply empty_store_wf | apply serve_effect].
Defined.

(** Two notes, U+FF21 and U+1F600, created through their percent-encoded
    paths: the order of their keys is not the order of their first code
    units. *)
Definition post_note (raw body : jsstr) : request :=
  mk_request (js "POST") raw (Some alice_header) body.

Definition two_note_store : gmap kv_key jsstr :=
  (serve alice_env (post_note (js "/%F0%9F%98%80") (js "y"))
     (serve alice_env (post_note (js "/%EF%BC%A1") (js "x")) empty_store).2).2.

Lemma list_page_byte_order_witness :
  exists ids,
    serve alice_env (mk_request (js "GET") (js "/") (Some alice_header) []) two_note_store =
      (html_response (Views.indexNote ids), two_note_store) /\
    (forall id, id ∈ ids <-> exists v, kv_get (note_key id) two_note_store = Some v) /\
    StronglySorted (fun x y => byte_compare (encode_key (note_key x)) (encode_key (note_key y)) = Lt) ids.
Proof.
  apply list_page_byte_order; [vm_compute; reflexivity|].
  apply reach_ascii_step; [apply reach_ascii_step|]; [apply reach_ascii_init; intros k _; reflexivity | |];
    unfold ascii_path; decide_closed.
Defined.

Lemma serve_auth_throws_witness :
  serve alice_env (mk_request (js "GET") (js "/") (Some (js "Basic !")) []) empty_store =
    (internal_error_response, empty_store) /\ res_status internal_error_response = 500.
Proof.
  apply (serve_auth_throws _ _ (js "Basic !") InvalidCharacterError); vm_compute; reflexivity.
Defined.

Lemma serve_nested_404_witness :
  serve alice_env (mk_request (js "GET") (47 :: js "a" ++ 47 :: js "b") (Some alice_header) [])
    empty_store = (not_found_response, empty_store) /\ res_status not_found_response = 404.
Proof. apply serve_nested_404. vm_compute. reflexivity. Defined.

Lemma percent_note_unreachable_witness :
  kv_get (note_key (js "%"))
    (serve alice_env (mk_request (js "POST") (js "/%25") (Some alice_header) (js "x")) empty_store).2
    = Some (js "x") /\
  Views.index_item (js "%") = tpl "<li><a href=`/%`>%</a></li>" /\
  forall m b (s' : gmap kv_key jsstr),
    serve alice_env (mk_request m (js "/%") (Some alice_header) b) s' = (internal_error_response, s').
Proof. apply percent_note_unreachable. vm_compute. reflexivity. Defined.
