(* ===== verification/Concurrency.v ===== *)
(** * Concurrent requests (spec section 5)

    [serve] runs one handler invocation per request, and invocations
    interleave at their awaits; the store is the only state they share.  A
    [pool] holds the store, the requests in flight (each the rest of its
    handler program, as a [prog]), the answered requests and the log of the
    writes performed so far.  [pstep] is one step of the server: a request
    arrives, one in-flight request performs its next awaited store
    operation (atomically, as Deno KV does), or a finished request is
    answered.  The [for await] over [db.list] reads one batch of 100
    entries per step, from the cursor after the last key read, as Deno
    KV's list iterator does.  For every interleaving the store stays well
    formed, and while the listing of the notes fits in one batch every
    answered request is linearizable against [serve]; with 100 notes a
    schedule is exhibited whose list page no sequential order gives. *)

From stdpp Require Import gmap.
From S2P Require Import Prelude JsString Auth Router Uri KeyOrder KvStore Views Handler.

(** ** Writes and one step of a program *)

Inductive write_event :=
| WSet (k : kv_key) (v : jsstr)
| WDelete (k : kv_key).

Definition apply_event {S} `{KvStore S} (s : S) (w : write_event) : S :=
  match w with
  | WSet k v => kv_set k v s
  | WDelete k => kv_delete k s
  end.

Definition replay {S} `{KvStore S} (log : list write_event) (s : S) : S :=
  fold_left apply_event log s.

(** The next awaited operation of a program: its continuation, the new
    store and the writes it made.  A listing is read in batches of 100
    entries (the default [batchSize] of Deno KV's list iterator), each an
    atomic read of the store as it is then, starting after the last entry
    read; a batch of fewer than 100 entries is the last one. *)
Definition advance {S} `{KvStore S} {A} (p : prog A) (s : S) :
    option (prog A * S * list write_event) :=
  match p with
  | Done _ | Fail _ => None
  | KvGet k next => Some (next (kv_get k s), s, [])
  | KvSet k v next => Some (next, kv_set k v s, [WSet k v])
  | KvDelete k next => Some (next, kv_delete k s, [WDelete k])
  | KvList pre read next =>
      let batch := take 100 (list_after read (kv_list pre s)) in
      if decide (length batch < 100) then Some (next (read ++ batch), s, [])
      else Some (KvList pre (read ++ batch) next, s, [])
  end.

(** A finished program and its result. *)
Definition finished {A} (p : prog A) : option (completion A) :=
  match p with
  | Done a => Some (Normal a)
  | Fail ex => Some (Throw ex)
  | _ => None
  end.

(** ** The server *)

(** The state of the server: the store, the requests that have arrived
    (by ticket), the handler invocations in flight (the rest of each
    program), the responses sent, the log of writes and the next ticket. *)
Record pool {St : Type} := mk_pool {
  pool_store : St;
  pool_arrived : list (nat * request);
  pool_inflight : list (nat * prog response);
  pool_answered : list (nat * response);
  pool_log : list write_event;
  pool_next : nat
}.
Arguments pool : clear implicits.
Arguments mk_pool {St}.

Section Server.
Context {St : Type} `{KvStore St}.

(** One step of the server: [serve] calls the handler on a new request;
    a handler in flight performs its next awaited store operation; a
    handler that has returned (or thrown) has its response sent. *)
Inductive pstep (e : env) : pool St -> pool St -> Prop :=
| pstep_arrive s arr fl ans log n req :
    pstep e (mk_pool s arr fl ans log n)
            (mk_pool s (arr ++ [(n, req)]) (fl ++ [(n, handler e req)]) ans log (S n))
| pstep_run s arr pre t p post ans log n p' s' ws :
    advance p s = Some (p', s', ws) ->
    pstep e (mk_pool s arr (pre ++ (t, p) :: post) ans log n)
            (mk_pool s' arr (pre ++ (t, p') :: post) ans (log ++ ws) n)
| pstep_answer s arr pre t p post ans log n r :
    finished p = Some r ->
    pstep e (mk_pool s arr (pre ++ (t, p) :: post) ans log n)
            (mk_pool s arr (pre ++ post) (ans ++ [(t, respond r)]) log n).

Inductive pstar (e : env) : pool St -> pool St -> Prop :=
| pstar_refl st : pstar e st st
| pstar_step st1 st2 st3 : pstep e st1 st2 -> pstar e st2 st3 -> pstar e st1 st3.

(** A server that has just started on a store. *)
Definition initial (s : St) : pool St := mk_pool s [] [] [] [] 0.

(** The response and store a program gives when it runs alone. *)
Definition run_resp (p : prog response) (s : St) : response * St :=
  let '(r, s') := run p s in (respond r, s').

(** A store whose notes a listing reads in one batch. *)
Definition one_batch (s : St) : Prop := (length (kv_list [js "notes"] s) < 100)%nat.

(** A program whose answer and writes are those of [g] taken at one
    store operation: it reads and ignores the result until that
    operation ([lin_read]), performs it and, on a store whose notes fit
    in one batch, returns ([lin_point]), or returns without touching the
    store ([lin_const]). *)
Inductive lin_prog (g : St -> response * St) : prog response -> Prop :=
| lin_point p :
    (forall s, exists p' s' ws, advance p s = Some (p', s', ws) /\
       (one_batch s -> exists r, finished p' = Some r /\ g s = (respond r, s'))) ->
    lin_prog g p
| lin_read k next :
    (forall o, lin_prog g (next o)) -> lin_prog g (KvGet k next)
| lin_const p r :
    finished p = Some r -> (forall s, g s = (respond r, s)) -> lin_prog g p.

(** A request answered with [resp] whose writes [ws] stand at position
    [i] of the log, as if it had been served alone on the store the
    first [i] writes leave. *)
Definition lin_at (e : env) (s0 : St) (log : list write_event) (req : request)
    (i : nat) (ws : list write_event) (resp : response) : Prop :=
  i <= length log /\ take (length ws) (drop i log) = ws /\
  serve e req (replay (take i log) s0) = (resp, replay ws (replay (take i log) s0)).
End Server.

(** ** An executable scheduler

    A schedule names, step by step, which request arrives, which request
    in flight performs its next store operation, and which is answered;
    [run_sched] plays it and fails when a step is not possible. *)
Inductive sched_event :=
| Arrive (req : request)
| Resume (t : nat)
| Reply (t : nat).

Fixpoint split_ticket {B} (t : nat) (fl : list (nat * B)) : option (list (nat * B) * B * list (nat * B)) :=
  match fl with
  | [] => None
  | (t', p) :: fl' =>
      if decide (t' = t) then Some ([], p, fl')
      else '(pre, q, post) ← split_ticket t fl'; Some ((t', p) :: pre, q, post)
  end.

Section Scheduler.
Context {St : Type} `{KvStore St}.

Definition sched_step (e : env) (st : pool St) (ev : sched_event) : option (pool St) :=
  let '(mk_pool s arr fl ans log n) := st in
  match ev with
  | Arrive req => Some (mk_pool s (arr ++ [(n, req)]) (fl ++ [(n, handler e req)]) ans log (S n))
  | Resume t =>
      '(pre, p, post) ← split_ticket t fl;
      '(p', s', ws) ← advance p s;
      Some (mk_pool s' arr (pre ++ (t, p') :: post) ans (log ++ ws) n)
  | Reply t =>
      '(pre, p, post) ← split_ticket t fl;
      r ← finished p;
      Some (mk_pool s arr (pre ++ post) (ans ++ [(t, respond r)]) log n)
  end.

Fixpoint run_sched (e : env) (evs : list sched_event) (st : pool St) : option (pool St) :=
  match evs with
  | [] => Some st
  | ev :: evs' => st' ← sched_step e st ev; run_sched e evs' st'
  end.
End Scheduler.

(** ** Programs, one step at a time *)

Section StepLemmas.
Context {St : Type} `{KvStoreLaws St}.
#[local] Set Default Proof Using "Type*".

Lemma replay_app l1 l2 (s : St) : replay (l1 ++ l2) s = replay l2 (replay l1 s).
Proof. apply fold_left_app. Qed.

Lemma advance_replay {A} (p : prog A) s p' s' ws :
  advance p s = Some (p', s', ws) -> s' = replay ws s.
Proof. destruct p; cbn; repeat case_decide; intros [= <- <- <-]; done. Qed.

(** The batches of a listing, read on one store, make up the listing. *)
Lemma advance_run {A} (p : prog A) s p' s' ws :
  advance p s = Some (p', s', ws) -> run p s = run p' s'.
Proof.
  destruct p as [| | | | |pre read next]; cbn; try (intros [= <- <- <-]; done).
  pose proof (kv_list_strict pre s) as Hs.
  case_decide as Hlen; intros [= <- <- <-]; cbn.
  - rewrite (take_ge (list_after _ _)); [done|]. rewrite length_take in Hlen. lia.
  - rewrite list_after_batch by (done || (intros E; rewrite E in Hlen; cbn in Hlen; lia)).
    by rewrite <- app_assoc, take_drop.
Qed.

(** On a store whose notes fit in one batch, the listing of the notes is
    one step. *)
Lemma advance_list_one_batch {A} (next : list (kv_key * jsstr) -> prog A) (s : St) :
  one_batch s -> advance (KvList [js "notes"] [] next) s = Some (next (kv_list [js "notes"] s), s, []).
Proof.
  intros Hb. unfold one_batch in Hb. cbn. rewrite take_ge by lia. by rewrite decide_True by lia.
Qed.

Lemma finished_run {A} (p : prog A) s r : finished p = Some r -> run p s = (r, s).
Proof. destruct p; cbn; intros [= <-]; done. Qed.

Lemma advance_not_finished {A} (p : prog A) s p' s' ws :
  advance p s = Some (p', s', ws) -> finished p = None.
Proof. by destruct p. Qed.

Lemma lin_prog_ext (g g' : St -> response * St) p :
  (forall s, g s = g' s) -> lin_prog g p -> lin_prog g' p.
Proof.
  intros Hg. induction 1 as [p Hp|k next _ IH|p r Hr Hc].
  - apply lin_point. intros s. destruct (Hp s) as (p' & s' & ws & Ha & Hr).
    exists p', s', ws. split; [done|]. intros Hb. destruct (Hr Hb) as (r & ? & ?).
    exists r. by rewrite <- Hg.
  - by apply lin_read.
  - apply (lin_const _ _ r Hr). intros s. by rewrite <- Hg.
Qed.

(** A program that returns without touching the store is atomic. *)
Lemma atomic_finished p r : finished p = Some r -> lin_prog (run_resp p) p.
Proof.
  intros Hr. apply (lin_const _ _ r Hr). intros s. unfold run_resp.
  by rewrite (finished_run _ _ _ Hr).
Qed.

(** So is one that returns right after its first store operation. *)
Lemma atomic_one p :
  (forall s, exists p' s' ws, advance p s = Some (p', s', ws) /\
     (one_batch s -> exists r, finished p' = Some r)) ->
  lin_prog (run_resp p) p.
Proof.
  intros Hp. apply lin_point. intros s. destruct (Hp s) as (p' & s' & ws & Ha & Hr).
  exists p', s', ws. split; [done|]. intros Hb. destruct (Hr Hb) as [r Hf].
  exists r. split; [done|]. unfold run_resp.
  by rewrite (advance_run _ _ _ _ _ Ha), (finished_run _ _ _ Hf).
Qed.

(** The list page is atomic when the notes fit in one batch. *)
Lemma atomic_list next :
  (forall l, exists r, finished (next l) = Some r) ->
  lin_prog (run_resp (KvList [js "notes"] [] next)) (KvList [js "notes"] [] next).
Proof.
  intros Hn. apply atomic_one. intros s.
  destruct (advance (KvList [js "notes"] [] next) s) as [[[p' s'] ws]|] eqn:Ha; [|by cbn in Ha; case_decide].
  exists p', s', ws. split; [done|]. intros Hb. rewrite advance_list_one_batch in Ha by done.
  simplify_eq. apply Hn.
Qed.

(** A read whose result the rest of the program ignores does not
    matter. *)
Lemma atomic_blind_read k next q :
  (forall o, next o = q) -> lin_prog (run_resp q) q -> lin_prog (run_resp (KvGet k next)) (KvGet k next).
Proof.
  intros Hq Hl. apply lin_read. intros o. rewrite Hq.
  apply (lin_prog_ext (run_resp q)); [|done].
  intros s. unfold run_resp. cbn. by rewrite Hq.
Qed.
End StepLemmas.

Ltac atomic_done_tac := eapply atomic_finished; reflexivity.

Ltac atomic_one_tac :=
  apply atomic_one; intros ?; eexists _, _, _; split; [reflexivity | intros _; eexists; reflexivity].

Section HandlerAtomic.
Context {St : Type} `{KvStoreLaws St}.
#[local] Set Default Proof Using "Type*".

Lemma route_request_atomic req :
  lin_prog (run_resp (St:=St) (route_request req)) (route_request req).
Proof.
  unfold route_request. destruct (Router.home_test _); [apply atomic_list; intros l; by eexists|].
  destruct (Router.note_exec _) as [raw|]; [|atomic_done_tac].
  destruct (Uri.decodeURI raw) as [id|ex]; [|atomic_done_tac].
  case_bool_decide.
  - eapply atomic_blind_read; [intros; reflexivity|].
    case_bool_decide; atomic_one_tac.
  - atomic_one_tac.
Qed.

(** Every invocation of the handler is atomic: it answers and writes as
    if it ran alone at one of its store operations. *)
Lemma handler_atomic e req : lin_prog (serve (S:=St) e req) (handler e req).
Proof.
  apply (lin_prog_ext (run_resp (handler e req))); [intros; reflexivity|].
  unfold handler. destruct (req_authorization req) as [a|]; [|atomic_done_tac].
  case_bool_decide; [atomic_done_tac|].
  destruct (checkAuthorization e a) as [[]|]; [apply route_request_atomic | atomic_done_tac | atomic_done_tac].
Qed.
End HandlerAtomic.

(** ** The store under interleaving *)

(** The writes the handler makes: notes that are not blank, and deletes
    of notes. *)
Definition note_write (w : write_event) : Prop :=
  match w with
  | WSet k v => (exists id, k = note_key id) /\ trim v <> []
  | WDelete k => exists id, k = note_key id
  end.

Inductive prog_ok {A} : prog A -> Prop :=
| ok_done a : prog_ok (Done a)
| ok_fail ex : prog_ok (Fail ex)
| ok_get k next : (forall o, prog_ok (next o)) -> prog_ok (KvGet k next)
| ok_list pre read next : (forall l, prog_ok (next l)) -> prog_ok (KvList pre read next)
| ok_set k v next : note_write (WSet k v) -> prog_ok next -> prog_ok (KvSet k v next)
| ok_delete k next : note_write (WDelete k) -> prog_ok next -> prog_ok (KvDelete k next).

Lemma handler_ok e req : prog_ok (handler e req).
Proof.
  unfold handler. destruct (req_authorization req) as [a|]; [|constructor].
  case_bool_decide; [constructor|].
  destruct (checkAuthorization e a) as [[]|]; [|constructor..].
  unfold route_request. destruct (Router.home_test _); [by constructor; constructor|].
  destruct (Router.note_exec _) as [raw|]; [|constructor].
  destruct (Uri.decodeURI raw) as [id|]; [|constructor].
  constructor. intros o. case_bool_decide; [|constructor].
  case_bool_decide; (constructor; [cbn; eauto | constructor]).
Qed.

Section WfUnderInterleaving.
Context {St : Type} `{KvStoreLaws St}.
#[local] Set Default Proof Using "Type*".

Lemma advance_ok {A} (p : prog A) (s : St) p' s' ws :
  prog_ok p -> advance p s = Some (p', s', ws) -> prog_ok p' /\ Forall note_write ws.
Proof.
  intros Hp; destruct Hp as [| | |pre read next Hn| |]; cbn; repeat case_decide;
    intros [= <- <- <-]; auto. split; [by constructor|done].
Qed.

Lemma replay_wf ws (s : St) : notes_wf s -> Forall note_write ws -> notes_wf (replay ws s).
Proof.
  intros Hs Hws. revert s Hs. induction Hws as [|[k v|k] ws Hw _ IH]; intros s Hs; [done| |];
    apply IH, (notes_wf_effect s); [done| |done|]; unfold store_effect.
  - destruct Hw as [[id ->] Hv]. eauto 10.
  - destruct Hw as [id ->]. eauto.
Qed.

(** The store is well formed and every program in flight writes only
    notes that are not blank. *)
Definition wf_inv (st : pool St) : Prop :=
  notes_wf (pool_store st) /\ Forall (fun x => prog_ok x.2) (pool_inflight st).

Lemma pstep_wf e st st' : pstep e st st' -> wf_inv st -> wf_inv st'.
Proof.
  unfold wf_inv. destruct 1 as [|s arr pre t p post ans log n p' s' ws Ha|]; cbn;
    rewrite ?Forall_app, ?Forall_cons; intros (Hs & Hfl); cbn.
  - split_and!; try tauto; auto using handler_ok.
  - destruct Hfl as (Hpre & Hp & Hpost). destruct (advance_ok _ _ _ _ _ Hp Ha) as [Hp' Hws].
    rewrite (advance_replay _ _ _ _ _ Ha). split_and!; auto using replay_wf.
  - tauto.
Qed.

Lemma pstar_wf e st st' : pstar e st st' -> wf_inv st -> wf_inv st'.
Proof. induction 1; eauto using pstep_wf. Qed.

(** The store is the initial store with the logged writes applied in
    order. *)
Lemma pstar_replay e s0 st st' :
  pstar e st st' -> pool_store st = replay (pool_log st) s0 ->
  pool_store st' = replay (pool_log st') s0.
Proof.
  induction 1 as [|st1 st2 st3 Hs _ IH]; [done|]. intros Hst. apply IH.
  destruct Hs as [| s arr pre t p post ans log n p' s' ws Ha|]; cbn [pool_store pool_log] in *; [done| |done].
  by rewrite replay_app, <- Hst, (advance_replay _ _ _ _ _ Ha).
Qed.

End WfUnderInterleaving.

(** ** Linearizability: each request behaves as if served alone *)

Section Linearizability.
Context {St : Type} `{KvStoreLaws St}.
#[local] Set Default Proof Using "Type*".
Variables (e : env) (s0 : St).

(** A request in flight either has not yet reached the store operation
    at which it takes effect, or has reached it and is waiting to be
    answered. *)
Definition inflight_lin (st : pool St) (x : nat * prog response) : Prop :=
  exists req, (x.1, req) ∈ pool_arrived st /\
    (lin_prog (serve e req) x.2 \/
     exists r i ws, finished x.2 = Some r /\ lin_at e s0 (pool_log st) req i ws (respond r)).

Definition answered_lin (st : pool St) (x : nat * response) : Prop :=
  exists req, (x.1, req) ∈ pool_arrived st /\ exists i ws, lin_at e s0 (pool_log st) req i ws x.2.

Definition lin_inv (st : pool St) : Prop :=
  pool_store st = replay (pool_log st) s0 /\
  (forall t req, (t, req) ∈ pool_arrived st -> t < pool_next st) /\
  NoDup (pool_arrived st).*1 /\
  (forall x, x ∈ pool_inflight st -> inflight_lin st x) /\
  (forall x, x ∈ pool_answered st -> answered_lin st x).

Lemma lin_at_mono log ws' req i ws resp :
  lin_at e s0 log req i ws resp -> lin_at e s0 (log ++ ws') req i ws resp.
Proof.
  intros (Hi & Hw & Hs). pose proof (f_equal length Hw) as Hl.
  rewrite length_take in Hl. unfold lin_at.
  rewrite length_app, drop_app_le, !take_app_le by lia. split_and!; [lia|done|done].
Qed.

(** The pool grows: requests are never forgotten, writes never undone. *)
Definition grows (st st' : pool St) : Prop :=
  pool_arrived st ⊆ pool_arrived st' /\ exists ws, pool_log st' = pool_log st ++ ws.

Lemma inflight_lin_grow st st' x : grows st st' -> inflight_lin st x -> inflight_lin st' x.
Proof.
  intros [Ha [ws Hl]] (req & Hr & Hx). exists req. rewrite Hl. split; [by apply Ha|].
  destruct Hx as [|(r & i & ws' & Hr' & Hat)]; [by left|right].
  exists r, i, ws'. split; [done|]. by apply lin_at_mono.
Qed.

Lemma answered_lin_grow st st' x : grows st st' -> answered_lin st x -> answered_lin st' x.
Proof.
  intros [Ha [ws Hl]] (req & Hr & i & ws' & Hat). exists req. rewrite Hl.
  split; [by apply Ha|]. exists i, ws'. by apply lin_at_mono.
Qed.

(** A request at its store operation takes effect there. *)
Lemma lin_step log req p p' s' ws :
  lin_prog (serve e req) p -> one_batch (replay log s0) -> advance p (replay log s0) = Some (p', s', ws) ->
  lin_prog (serve e req) p' \/
  exists r i ws', finished p' = Some r /\ lin_at e s0 (log ++ ws) req i ws' (respond r).
Proof.
  intros Hl Hb Ha. destruct Hl as [p Hp|k next Hn|p r Hr _].
  - right. destruct (Hp (replay log s0)) as (p'' & s'' & ws'' & Ha' & Hfin).
    rewrite Ha in Ha'. simplify_eq. destruct (Hfin Hb) as (r & Hr & Hg).
    exists r, (length log), ws''. split; [done|].
    unfold lin_at. rewrite drop_app_length, take_app_length, length_app, take_ge by done.
    split_and!; [lia|done|]. by rewrite Hg, (advance_replay _ _ _ _ _ Ha).
  - left. cbn in Ha. by simplify_eq.
  - by rewrite (advance_not_finished _ _ _ _ _ Ha) in Hr.
Qed.

(** A request that returned without reaching the store takes effect
    when it is answered. *)
Lemma lin_answer log req p r :
  lin_prog (serve e req) p -> finished p = Some r ->
  lin_at e s0 log req (length log) [] (respond r).
Proof.
  intros Hl Hr. destruct Hl as [p Hp|k next _|p r' Hr' Hc].
  - destruct (Hp s0) as (? & ? & ? & Ha & _). by rewrite (advance_not_finished _ _ _ _ _ Ha) in Hr.
  - done.
  - rewrite Hr in Hr'. simplify_eq. unfold lin_at. rewrite take_0, take_ge by done.
    split_and!; [done|done|]. apply Hc.
Qed.
End Linearizability.

Section LinearizabilityInv.
Context {St : Type} `{KvStoreLaws St}.
#[local] Set Default Proof Using "Type*".
Variables (e : env) (s0 : St).

Lemma pstep_grows st st' : pstep e st st' -> grows st st'.
Proof.
  destruct 1; split; cbn; [set_solver| exists []; by rewrite app_nil_r | done | eauto
    | done | exists []; by rewrite app_nil_r].
Qed.

Lemma pstep_lin st st' : pstep e st st' -> one_batch (pool_store st) -> lin_inv e s0 st -> lin_inv e s0 st'.
Proof.
  unfold lin_inv. intros Hstep Hb. pose proof (pstep_grows _ _ Hstep) as Hg. revert Hg.
  destruct Hstep as [s arr fl ans log n req | s arr pre t p post ans log n p' s' ws Ha
    | s arr pre t p post ans log n r Hr];
    intros Hg (Hs & Hlt & Hnd & Hfl & Hans); cbn [pool_store pool_arrived pool_inflight
    pool_answered pool_log pool_next] in *; split_and!;
    try (intros x Hx; eapply answered_lin_grow; [exact Hg|]; by apply Hans); try done.
  - intros t' r' Hin. rewrite elem_of_app, list_elem_of_singleton in Hin.
    destruct Hin as [Hin|[= -> ->]]; [specialize (Hlt _ _ Hin)|]; lia.
  - rewrite fmap_app. apply NoDup_app. split_and!; [done| |apply NoDup_singleton].
    intros t' Ht' ->%list_elem_of_singleton. apply list_elem_of_fmap in Ht' as ([t'' r''] & ? & Hin).
    cbn in *; subst. specialize (Hlt _ _ Hin). lia.
  - intros x Hx. rewrite elem_of_app, list_elem_of_singleton in Hx.
    destruct Hx as [Hx| ->]; [eapply inflight_lin_grow; [exact Hg|]; by apply Hfl|].
    exists req. split; [cbn; set_solver|]. left. apply handler_atomic.
  - by rewrite replay_app, <- Hs, (advance_replay _ _ _ _ _ Ha).
  - intros x Hx. rewrite elem_of_app, elem_of_cons in Hx.
    destruct Hx as [Hx|[->|Hx]]; try (eapply inflight_lin_grow; [exact Hg|]; apply Hfl; set_solver).
    destruct (Hfl (t, p)) as (req & Hreq & [Hl|(r & i & ws' & Hr & _)]); [set_solver| |].
    + exists req. split; [done|]. rewrite Hs in Ha, Hb. exact (lin_step e s0 log req p p' s' ws Hl Hb Ha).
    + cbn in Hr. by rewrite (advance_not_finished _ _ _ _ _ Ha) in Hr.
  - intros x Hx. apply Hfl. set_solver.
  - intros x Hx. rewrite elem_of_app, list_elem_of_singleton in Hx.
    destruct Hx as [Hx| ->]; [by apply Hans|].
    destruct (Hfl (t, p)) as (req & Hreq & [Hl|(r' & i & ws & Hr' & Hat)]); [set_solver| |];
      exists req; split; [done| |done|].
    + exists (length log), []. exact (lin_answer e s0 log req p r Hl Hr).
    + cbn in Hr'. rewrite Hr in Hr'. simplify_eq. eauto.
Qed.

Lemma pstar_log_app st st' : pstar e st st' -> exists ws, pool_log st' = pool_log st ++ ws.
Proof.
  induction 1 as [st|st1 st2 st3 Hs _ [ws IH]]; [exists []; by rewrite app_nil_r|].
  destruct (pstep_grows _ _ Hs) as [_ [ws' Hl]]. exists (ws' ++ ws). by rewrite IH, Hl, app_assoc.
Qed.

(** The invariant holds along an execution whose stores (those of the
    prefixes of its final log) have their notes in one batch. *)
Lemma pstar_lin st st' : pstar e st st' ->
  (forall i, i <= length (pool_log st') -> one_batch (replay (take i (pool_log st')) s0)) ->
  lin_inv e s0 st -> lin_inv e s0 st'.
Proof.
  induction 1 as [st|st1 st2 st3 Hs Hst IH]; intros Hsm Hinv; [done|].
  apply IH; [done|]. apply (pstep_lin st1); [done| |done].
  destruct Hinv as [Hstore _]. rewrite Hstore.
  destruct (pstar_log_app _ _ (pstar_step _ _ _ _ Hs Hst)) as [ws Hl].
  rewrite Hl in Hsm. rewrite <- (take_app_length (pool_log st1) ws). apply Hsm.
  rewrite length_app. lia.
Qed.

Lemma initial_lin : lin_inv e s0 (initial s0).
Proof. split_and!; cbn; try done; [set_solver | constructor | set_solver | set_solver]. Qed.
End LinearizabilityInv.

(** ** Schedules are executions *)

Section Progress.
Context {St : Type} `{KvStore St}.

Lemma pstar_trans e (st1 st2 st3 : pool St) : pstar e st1 st2 -> pstar e st2 st3 -> pstar e st1 st3.
Proof. induction 1; eauto using pstar_step. Qed.

Lemma split_ticket_Some {B} t (fl : list (nat * B)) pre p post :
  split_ticket t fl = Some (pre, p, post) -> fl = pre ++ (t, p) :: post.
Proof.
  revert pre. induction fl as [|[t' q] fl IH]; intros pre; cbn; [done|].
  case_decide; [intros [= <- <- <-]; by subst|].
  destruct (split_ticket t fl) as [[[pre' q'] post']|]; cbn; [|done].
  intros [= <- <- <-]. by rewrite (IH pre').
Qed.

Lemma sched_step_pstep e (st st' : pool St) ev : sched_step e st ev = Some st' -> pstep e st st'.
Proof.
  destruct st as [s arr fl ans log n], ev as [req|t|t]; cbn; [intros [= <-]; constructor| |];
    destruct (split_ticket t fl) as [[[pre p] post]|] eqn:Hs; cbn; try done;
    rewrite (split_ticket_Some _ _ _ _ _ Hs).
  - destruct (advance p s) as [[[p' s'] ws]|] eqn:Ha; cbn; [|done]. intros [= <-]. by constructor.
  - destruct (finished p) as [r|] eqn:Hr; cbn; [|done]. intros [= <-]. by constructor.
Qed.

Lemma run_sched_pstar e evs (st st' : pool St) : run_sched e evs st = Some st' -> pstar e st st'.
Proof.
  revert st. induction evs as [|ev evs IH]; intros st; cbn; [intros [= <-]; constructor|].
  destruct (sched_step e st ev) as [st1|] eqn:Hs; cbn; [|done].
  intros Hr. apply (pstar_step _ _ st1); [exact (sched_step_pstep e st st1 ev Hs) | by apply IH].
Qed.

End Progress.

(** ** What every interleaving guarantees *)

Section Claims.
Context {St : Type} `{KvStoreLaws St}.
#[local] Set Default Proof Using "Type*".

(** C24: however the requests interleave at their awaits, a server
  started on a well-formed store keeps it well formed: notes live under
  [["notes", id]] and none is blank. *)
Theorem pstar_notes_wf e (s0 : St) st :
notes_wf s0 -> pstar e (initial s0) st -> notes_wf (pool_store st).
Proof. intros Hs0 Hst. apply (pstar_wf e (initial s0) st Hst). split; [done|constructor]. Qed.

(** C25: linearizability while every listing is one batch: in every
  interleaving in which no store holds 100 notes or more, each answered
  request got the response [serve] gives it alone on the store some
  prefix of the write log leaves, and its own writes follow that prefix
  in the log, just as [serve] would make them. *)
Theorem pstar_linearizable e (s0 : St) st t req resp :
pstar e (initial s0) st ->
(forall i, i <= length (pool_log st) -> one_batch (replay (take i (pool_log st)) s0)) ->
(t, resp) ∈ pool_answered st -> (t, req) ∈ pool_arrived st ->
exists i ws, lin_at e s0 (pool_log st) req i ws resp.
Proof.
intros Hst Hsm Hans Harr.
destruct (pstar_lin e s0 _ _ Hst Hsm (initial_lin e s0)) as (_ & _ & Hnd & _ & Hall).
destruct (Hall _ Hans) as (req' & Harr' & Hat). cbn in Harr'.
by rewrite (NoDup_fst_functional _ _ _ _ Hnd Harr Harr').
Qed.

End Claims.

(** ** Two concurrent saves of one note

    Two POSTs to [/a] arrive; both read the note, the second writes
    first, then the first: the first request's body is what stays. *)

Definition post_note (body : jsstr) : request :=
  mk_request (js "POST") (js "/a") (Some alice_header) body.

Definition demo_sched : list sched_event :=
  [Arrive (post_note (js "x")); Arrive (post_note (js "y")); Resume 0; Resume 1;
   Resume 1; Resume 0; Reply 1; Reply 0].

Definition demo_pool : pool (gmap kv_key jsstr) :=
  default (initial empty_store) (run_sched alice_env demo_sched (initial empty_store)).

Lemma pstar_notes_wf_witness : notes_wf (pool_store demo_pool).
Proof.
  apply (pstar_notes_wf alice_env empty_store); [apply empty_store_wf|].
  apply (run_sched_pstar _ demo_sched). vm_compute. reflexivity.
Defined.

Lemma pstar_linearizable_witness :
  exists i ws, lin_at alice_env empty_store (pool_log demo_pool) (post_note (js "y")) i ws ok_response.
Proof.
  apply (pstar_linearizable alice_env empty_store demo_pool 1).
  - apply (run_sched_pstar _ demo_sched). vm_compute. reflexivity.
  - intros i Hi. vm_compute in Hi. unfold one_batch.
    destruct i as [|[|[|i]]]; [vm_compute; lia..|lia].
  - apply list_elem_of_In. vm_compute. left. reflexivity.
  - apply list_elem_of_In. vm_compute. right. left. reflexivity.
Defined.


(** ** A listing of 100 notes is not atomic

    The store holds the 100 notes [A0] to [J9].  The list page reads its
    first batch (all 100 notes); meanwhile one request deletes [A0] and
    another creates [Z]; the second batch reads [Z].  The page lists 101
    ids, [A0] and [Z] among them, although no store of the execution ever
    held both. *)

Definition hundred_store : gmap kv_key jsstr :=
  list_to_map ((fun i => (note_key [65 + Z.of_nat i / 10; 48 + Z.of_nat i mod 10]%Z, js "x")) <$> seq 0 100).

Definition post_to (path body : jsstr) : request :=
  mk_request (js "POST") path (Some alice_header) body.

Definition list_request : request := mk_request (js "GET") (js "/") (Some alice_header) [].

Definition batch_sched : list sched_event :=
  [Arrive list_request; Resume 0;
   Arrive (post_to (js "/A0") []); Resume 1; Resume 1; Reply 1;
   Arrive (post_to (js "/Z") (js "x")); Resume 2; Resume 2; Reply 2;
   Resume 0; Reply 0].

Definition batch_pool : pool (gmap kv_key jsstr) :=
  default (initial hundred_store) (run_sched alice_env batch_sched (initial hundred_store)).

(** The answer the list page got. *)
Definition batch_answer : response := (default (0, ok_response) (pool_answered batch_pool !! 2)).2.

Lemma batch_run : run_sched alice_env batch_sched (initial hundred_store) = Some batch_pool.
Proof.
  assert (Hs : bool_decide (is_Some (run_sched alice_env batch_sched (initial hundred_store))) = true)
    by (vm_compute; reflexivity).
  unfold batch_pool. destruct (run_sched alice_env batch_sched (initial hundred_store));
    [reflexivity | by apply bool_decide_eq_true_1, is_Some_None in Hs].
Qed.

Lemma batch_arrived : (0, list_request) ∈ pool_arrived batch_pool.
Proof.
  apply list_elem_of_lookup_2 with 0.
  assert (E : pool_arrived batch_pool !! 0 = Some (0, list_request)) by (vm_compute; reflexivity).
  exact E.
Qed.

Lemma batch_answered : (0, batch_answer) ∈ pool_answered batch_pool.
Proof.
  assert (Ht : fst <$> pool_answered batch_pool !! 2 = Some 0) by (vm_compute; reflexivity).
  unfold batch_answer. destruct (pool_answered batch_pool !! 2) as [[t r]|] eqn:E; cbn in Ht; [|discriminate].
  injection Ht as ->. cbn. by apply list_elem_of_lookup_2 with 2.
Qed.

(** C26: with 100 notes, a list page served while two saves run
  shows a list that no prefix of the write log gives: the for-await over
  [db.list] reads in batches, so the page mixes two states of the
  store. *)
Theorem list_batches_not_atomic :
  exists st t req resp,
    pstar alice_env (initial hundred_store) st /\ (t, req) ∈ pool_arrived st /\
    (t, resp) ∈ pool_answered st /\
    forall i ws, ~ lin_at alice_env hundred_store (pool_log st) req i ws resp.
Proof.
  exists batch_pool, 0, list_request, batch_answer.
  split_and!; [exact (run_sched_pstar _ _ _ _ batch_run) | exact batch_arrived | exact batch_answered |].
  intros i ws (Hi & _ & Hs). apply (f_equal (fun r => Z.of_nat (length (res_body r.1)))) in Hs.
  assert (Hl : length (pool_log batch_pool) = 2%nat) by (vm_compute; reflexivity).
  rewrite Hl in Hi. destruct i as [|[|[|i]]]; [revert Hs; vm_compute; discriminate .. | lia].
Qed.
