(* ===== verification/Client.v ===== *)
(** * The browser scripts of the pages (server.ts lines 77-86 and 100-111)

    The pages carry two scripts that run in the browser.  The edit page's
    autosave (lines 100-111) is a small state machine: the textarea's
    value, the flag [sending], and the fetches the network has not yet
    settled.  [Autosave.step] is one event: a keystroke (the [keyup]
    listener), a fetch that resolves (its [then] clears the flag), or a
    fetch that rejects (the [then] callback never runs).  The list page's
    form (lines 77-86) navigates to ['/' + name]; [NewNote.submit] is that
    target. *)

From S2P Require Import Prelude.

Module Autosave.

(** [textarea.value], the script's [sending] flag, and the bodies of the
    fetches the network has not yet settled, oldest first. *)
Record state := mk_state {
  value : jsstr;
  sending : bool;
  network : list jsstr
}.

(** A keystroke leaves the new value in the textarea and fires [keyup];
    a fetch resolves (the server answered), or rejects, after its POST was
    or was not delivered. *)
Inductive event :=
| Keyup (v : jsstr)
| Resolve
| Reject (delivered : bool).

(** Lines 95-97 and 104: the textarea holds the note's body, nothing is
    being sent. *)
Definition init (content : jsstr) : state := mk_state content false [].

(** Lines 105-110.  The result is the new state and the body the server
    receives at this event, if any; an event that cannot happen (no fetch
    to settle) gives [None]. *)
Definition step (st : state) (ev : event) : option (state * option jsstr) :=
  match ev with
  | Keyup v =>
      if sending st then Some (mk_state v true (network st), None)
      else Some (mk_state v true (network st ++ [v]), None)
  | Resolve =>
      match network st with
      | b :: rest => Some (mk_state (value st) false rest, Some b)
      | [] => None
      end
  | Reject d =>
      match network st with
      | b :: rest => Some (mk_state (value st) (sending st) rest, if d then Some b else None)
      | [] => None
      end
  end.

(** A sequence of events, with the bodies the server receives in order. *)
Fixpoint run_events (st : state) (evs : list event) : option (state * list jsstr) :=
  match evs with
  | [] => Some (st, [])
  | ev :: evs' =>
      match step st ev with
      | Some (st', d) =>
          match run_events st' evs' with
          | Some (st'', ds) => Some (st'', option_list d ++ ds)
          | None => None
          end
      | None => None
      end
  end.

(** At most one fetch is unsettled, and while one is, the flag is set. *)
Definition inv (st : state) : Prop :=
  length (network st) <= 1 /\ (network st <> [] -> sending st = true).

Lemma step_inv st ev st' d : inv st -> step st ev = Some (st', d) -> inv st'.
Proof.
  destruct st as [v snd [|b [|b' net]]]; unfold inv; cbn; intros [Hl Hs];
    [|specialize (Hs ltac:(done))|lia]; subst;
    destruct ev as [v'| |[]]; cbn; try destruct snd; intros [= <- <-]; cbn; split; first [lia | naive_solver].
Qed.

Lemma run_inv st evs st' ds : inv st -> run_events st evs = Some (st', ds) -> inv st'.
Proof.
  revert st ds. induction evs as [|ev evs IH]; intros st ds Hst; cbn; [by intros [= <- _]|].
  destruct (step st ev) as [[st1 d]|] eqn:Hs; cbn; [|discriminate].
  destruct (run_events st1 evs) as [[st2 ds2]|] eqn:Hr; cbn; [|discriminate].
  intros [= <- _]. exact (IH _ _ (step_inv _ _ _ _ Hst Hs) Hr).
Qed.

(** Once a fetch has failed, the flag stays set: keystrokes send nothing
    and no fetch is left to settle. *)
Lemma run_stalled st evs st' ds :
  sending st = true -> network st = [] -> run_events st evs = Some (st', ds) ->
  ds = [] /\ sending st' = true /\ network st' = [].
Proof.
  revert st ds. induction evs as [|[v| |d] evs IH]; intros [v0 snd net] ds Hs Hn; cbn in *;
    subst; [by intros [= <- <-]| |done|done].
  destruct (run_events (mk_state v true []) evs) as [[st2 ds2]|] eqn:Hr; cbn; [|discriminate].
  intros [= <- <-]. exact (IH (mk_state v true []) _ eq_refl eq_refl Hr).
Qed.

(** C27: whatever the user types and however the network settles
    the fetches, the flag keeps at most one autosave POST in flight, and
    the flag is set while one is. *)
Theorem one_save_in_flight c evs st' ds :
  run_events (init c) evs = Some (st', ds) ->
  length (network st') <= 1 /\ (network st' <> [] -> sending st' = true).
Proof. apply run_inv. split; cbn; [lia|done]. Qed.

(** C28: a keystroke made while a save is in flight is never
    sent: after the first save resolves the textarea holds the second
    value, the server received only the first, and nothing but another
    keystroke can send anything. *)
Theorem keystroke_during_save_lost c v1 v2 :
  run_events (init c) [Keyup v1; Keyup v2; Resolve] = Some (mk_state v2 false [], [v1]) /\
  forall ev st' d, step (mk_state v2 false []) ev = Some (st', d) -> d = None /\ exists v, ev = Keyup v.
Proof. split; [done|]. intros [v| |d] st' d'; cbn; [intros [= _ <-]; eauto|done|done]. Qed.

(** C29: when a save fails (its fetch rejects), the [then]
    callback never clears the flag: the server gets at most that body, and
    no later keystroke is ever saved. *)
Theorem reject_stalls_autosave c v d evs st' ds :
  run_events (init c) (Keyup v :: Reject d :: evs) = Some (st', ds) ->
  ds = (if d then [v] else []) /\ sending st' = true.
Proof.
  cbn. destruct (run_events (mk_state v true []) evs) as [[st2 ds2]|] eqn:Hr; cbn; [|discriminate].
  intros [= <- <-]. destruct (run_stalled (mk_state v true []) _ _ _ eq_refl eq_refl Hr) as (-> & Hs & _).
  by destruct d.
Qed.

Lemma one_save_in_flight_witness :
  length (network (mk_state (js "ab") true [js "ab"])) <= 1 /\
  (network (mk_state (js "ab") true [js "ab"]) <> [] -> sending (mk_state (js "ab") true [js "ab"]) = true).
Proof.
  apply (one_save_in_flight (js "") [Keyup (js "a"); Resolve; Keyup (js "ab")] _ [js "a"]).
  vm_compute. reflexivity.
Defined.

Lemma reject_stalls_autosave_witness :
  [js "a"] = (if true then [js "a"] else []) /\ sending (mk_state (js "c") true []) = true.
Proof.
  apply (reject_stalls_autosave (js "") (js "a") true [Keyup (js "b"); Keyup (js "c")]).
  vm_compute. reflexivity.
Defined.

End Autosave.

Module NewNote.

(** Lines 78-85: on submit, [new FormData(form).get('name')] ([None] for
    [null]); a non-empty name sends the browser to ['/' + name]. *)
Definition submit (name : option jsstr) : option jsstr :=
  match name with
  | Some n => if bool_decide (n = []) then None else Some (js "/" ++ n)
  | None => None
  end.

End NewNote.
