(* ===== verification/Session.v ===== *)
(** * An editing session: the autosave script against the server

    The edit page's script POSTs the textarea to [location.pathname]
    (line 108), and the browser attaches the Basic credentials it holds.
    [session] runs the script's events ([Client.Autosave.step]) and has a
    server ([serve], or the server with the store's limits of [Limits])
    answer each body it receives, in order, on the store.  The theorem
    [paced_session_saves] is the contract of autosave when each keystroke
    waits for the previous save; [Client.Autosave.keystroke_during_save_lost]
    shows the pause is needed. *)

From stdpp Require Import gmap.
From S2P Require Import Prelude JsString Auth Router Uri KeyOrder KvStore Handler Client.

Import Autosave.

(** Line 108: [fetch(location.pathname, { method: 'POST', body: this.value })]. *)
Definition save_request (auth path body : jsstr) : request :=
  mk_request (js "POST") path (Some auth) body.

Section Session.
Context {S : Type} `{KvStore S}.

(** A server: the response to a request and the store after it. *)
Abbreviation server S := (request -> S -> response * S).

Definition deliver (srv : server S) (auth path : jsstr) (d : option jsstr) (s : S) : S :=
  match d with
  | Some b => (srv (save_request auth path b) s).2
  | None => s
  end.

Fixpoint session (srv : server S) (auth path : jsstr) (st : state) (s : S) (evs : list event) :
    option (state * S) :=
  match evs with
  | [] => Some (st, s)
  | ev :: evs' =>
      match step st ev with
      | Some (st', d) => session srv auth path st' (deliver srv auth path d s) evs'
      | None => None
      end
  end.

(** The user types [v] and waits for its save to resolve. *)
Definition paced (vs : list jsstr) : list event := vs ≫= fun v => [Keyup v; Resolve].
End Session.

Section SessionLemmas.
Context {S : Type} `{KvStoreLaws S}.
#[local] Set Default Proof Using "Type*".

Lemma serve_save e a path raw id b (s : S) :
  checkAuthorization e a = Normal true -> Router.note_exec path = Some raw ->
  Uri.decodeURI raw = Normal id ->
  serve e (save_request a path b) s =
    (ok_response, if bool_decide (trim b = []) then kv_delete (note_key id) s
                  else kv_set (note_key id) b s).
Proof.
  intros Ha Hn Hd. rewrite serve_authorized by (by exists a).
  rewrite (run_route_note (save_request a path b) raw id s Hn Hd). cbn. by rewrite bool_decide_true.
Qed.

Lemma session_app srv a path st (s : S) evs1 evs2 :
  session srv a path st s (evs1 ++ evs2) =
  match session srv a path st s evs1 with
  | Some (st', s') => session srv a path st' s' evs2
  | None => None
  end.
Proof.
  revert st s. induction evs1 as [|ev evs1 IH]; intros st s; [done|].
  cbn. destruct (step st ev) as [[st' d]|]; [apply IH|done].
Qed.

(** A keystroke made with no save in flight is sent, and its save
    resolves. *)
Lemma session_keyup_resolve srv a path st (s : S) v rest :
  sending st = false -> network st = [] ->
  session srv a path st s ([Keyup v; Resolve] ++ rest) =
  session srv a path (mk_state v false []) (deliver srv a path (Some v) s) rest.
Proof. destruct st as [v0 snd net]; cbn; intros -> ->. done. Qed.

(** C30: when each keystroke waits for the previous save to
    resolve, the session ends with no save pending and the note on the
    server holding the textarea's last value, or deleted when that value
    is blank. *)
Theorem paced_session_saves e a path raw id vs v c (s : S) :
  checkAuthorization e a = Normal true -> Router.note_exec path = Some raw ->
  Uri.decodeURI raw = Normal id ->
  exists s', session (serve e) a path (init c) s (paced (vs ++ [v])) = Some (mk_state v false [], s') /\
    kv_get (note_key id) s' = if bool_decide (trim v = []) then None else Some v.
Proof.
  intros Ha Hn Hd. generalize (init c) (eq_refl : sending (init c) = false)
    (eq_refl : network (init c) = []). clear c.
  revert s. induction vs as [|v0 vs IH]; intros s st Hs Hnet.
  - change (paced ([] ++ [v])) with ([Keyup v; Resolve] ++ []).
    rewrite (session_keyup_resolve _ _ _ _ _ _ _ Hs Hnet). eexists. split; [reflexivity|]. cbn. rewrite (serve_save e a path raw id v s Ha Hn Hd). cbn.
    case_bool_decide; by rewrite ?kv_get_delete_eq, ?kv_get_set_eq.
  - change (paced ((v0 :: vs) ++ [v])) with ([Keyup v0; Resolve] ++ paced (vs ++ [v])).
    rewrite (session_keyup_resolve _ _ _ _ _ _ _ Hs Hnet). by apply IH.
Qed.
End SessionLemmas.

Lemma paced_session_saves_witness :
  exists s', session (serve alice_env) alice_header (js "/a") (init []) empty_store
               (paced ([js "h"] ++ [js "hi"])) = Some (mk_state (js "hi") false [], s') /\
    kv_get (note_key (js "a")) s' = if bool_decide (trim (js "hi") = []) then None else Some (js "hi").
Proof.
  apply (paced_session_saves alice_env alice_header (js "/a") (js "a") (js "a"));
    vm_compute; reflexivity.
Defined.
