(* ===== verification/Links.v ===== *)
(** * Following the links of the pages

    The list page links a note as [href="/${id}"] (line 69) and the
    new-note form navigates to ['/' + name] (line 83).  The browser's HTML
    parser reads the value of the href ([attr_value]), its URL parser
    resolves it ([Url.resolve_path]), and it requests the page with GET,
    carrying the credentials it holds.  These theorems compose the pages,
    the HTML attribute value, the URL parser, the router, decodeURI and
    the handler: the links of an id the HTML parser leaves as it is open
    its note, and an id ending in spaces or control characters is linked
    to the note without them. *)

From stdpp Require Import gmap.
From S2P Require Import Prelude JsString Auth Router Uri Url KeyOrder KvStore Views Handler Client.

Import Url.

(** The request of a page the browser opens at [path]. *)
Definition get_request (auth path : jsstr) : request := mk_request (js "GET") path (Some auth) [].

(** ** The value of an [href] attribute

    The double-quoted attribute value state of the HTML tokenizer on the
    text after the quotation mark that opens an href: the value ends at
    the next quotation mark and
    U+0000 becomes U+FFFD.  [None] at a character reference ([&]), at a
    carriage return (which the input stream preprocessing turns into a
    line feed) and at the end of the input: the development does not
    follow those. *)
Fixpoint attr_value (s : jsstr) : option jsstr :=
  match s with
  | [] => None
  | c :: rest =>
      if bool_decide (c = 34) then Some []
      else if bool_decide (c = 38 \/ c = 13) then None
      else if bool_decide (c = 0) then cons 65533 <$> attr_value rest
      else cons c <$> attr_value rest
  end%Z.

(** An id whose list link the HTML parser leaves as it is: link-safe,
    without a quotation mark, an ampersand or U+0000. *)
Definition html_safe_id (id : jsstr) : bool :=
  link_safe_id id && forallb (fun c => bool_decide (c ∉ [34; 38; 0]%Z)) id.

Lemma attr_value_app u r :
  Forall (fun c => c ∉ [34; 38; 13; 0]%Z) u -> attr_value (u ++ r) = (fun v => u ++ v) <$> attr_value r.
Proof.
  induction 1 as [|c u Hc _ IH]; cbn; [by destruct (attr_value r)|].
  rewrite !bool_decide_false by (intros ?; apply Hc; set_solver). rewrite IH.
  by destruct (attr_value r).
Qed.

Lemma html_safe_chars id :
  html_safe_id id = true -> link_safe_id id = true /\ Forall (fun c => c ∉ [34; 38; 13; 0]%Z) id.
Proof.
  unfold html_safe_id. intros [Hl Hf]%andb_prop. split; [done|].
  apply Forall_forall. intros c Hc. rewrite forallb_forall in Hf.
  apply list_elem_of_In in Hc. specialize (Hf c Hc). apply bool_decide_eq_true_1 in Hf.
  unfold link_safe_id in Hl. apply andb_prop in Hl as [Hl _]. apply andb_prop in Hl as [_ Hl].
  rewrite forallb_forall in Hl. specialize (Hl c Hc). apply bool_decide_eq_true_1 in Hl. set_solver.
Qed.

Lemma index_item_href id :
  Views.index_item id = tpl "<li><a href=`" ++ (js "/" ++ id) ++ tpl "`>" ++ id ++ tpl "</a></li>".
Proof. unfold Views.index_item. by rewrite app_assoc. Qed.

(** The href of a list item whose id the HTML parser leaves as it is. *)
Lemma index_item_attr id w :
  Forall (fun c => c ∉ [34; 38; 13; 0]%Z) (id ++ w) ->
  exists t, Views.index_item (id ++ w) = tpl "<li><a href=`" ++ t /\ attr_value t = Some (js "/" ++ id ++ w).
Proof.
  intros Hc. exists ((js "/" ++ (id ++ w)) ++ tpl "`>" ++ (id ++ w) ++ tpl "</a></li>").
  split; [apply index_item_href|]. rewrite (attr_value_app (js "/" ++ (id ++ w))).
  - replace (tpl "`>" ++ (id ++ w) ++ tpl "</a></li>") with (34%Z :: 62%Z :: (id ++ w) ++ tpl "</a></li>")
      by reflexivity.
    cbn. rewrite bool_decide_true by done. cbn. by rewrite app_nil_r.
  - apply Forall_cons. split; [set_solver|done].
Qed.

Lemma resolve_path_trailing base s w :
  Forall (fun c => is_c0_or_space c = true) w -> resolve_path base (s ++ w) = resolve_path base s.
Proof. intros Hw. unfold resolve_path. by rewrite strip_app_trailing. Qed.


Section Links.
Context {S : Type} `{KvStoreLaws S}.
#[local] Set Default Proof Using "Type*".

(** Opening the link of a link-safe id shows that id's note. *)
Lemma link_get base e a id (s : S) :
  checkAuthorization e a = Normal true -> link_safe_id id = true ->
  exists p, resolve_path base (js "/" ++ id) = Some p /\
    serve e (get_request a p) s = (html_response (Views.templateNote id (kv_get (note_key id) s)), s).
Proof.
  intros Ha Hid. destruct (link_path base id Hid) as (raw & Hr & Hn & Hd).
  exists (js "/" ++ raw). split; [done|]. rewrite serve_authorized by (by exists a).
  rewrite (run_route_note (get_request a (js "/" ++ raw)) raw id s Hn Hd).
  by rewrite bool_decide_false by (vm_compute; discriminate).
Qed.

(** C32: the list page's link of a stored note whose id is link-safe
    and holds no quotation mark, ampersand or U+0000: the HTML parser reads
    its href as [/] and the id, the URL parser resolves that to a path
    whose page is the note's editor with its body, and the new-note form
    given the id navigates to the same href. *)
Theorem note_links_open_note base e a id v (s : S) :
  checkAuthorization e a = Normal true -> kv_get (note_key id) s = Some v -> html_safe_id id = true ->
  exists t href p, Views.index_item id = tpl "<li><a href=`" ++ t /\ attr_value t = Some href /\
    resolve_path base href = Some p /\
    serve e (get_request a p) s = (html_response (Views.templateNote id (Some v)), s) /\
    NewNote.submit (Some id) = Some href.
Proof.
  intros Ha Hv Hid. apply html_safe_chars in Hid as [Hid Hc].
  destruct (index_item_attr id [] ltac:(by rewrite app_nil_r)) as (t & Ht & Hat).
  rewrite !app_nil_r in Ht, Hat.
  destruct (link_get base e a id s Ha Hid) as (p & Hp & Hs). rewrite Hv in Hs.
  exists t, (js "/" ++ id), p. split_and!; try done.
  unfold NewNote.submit. rewrite bool_decide_false; [done|]. intros ->. discriminate.
Qed.

(** C33: the HTML parser keeps C0 controls other than U+0000 and
    carriage return, and spaces, at the end of an href, and the URL parser
    strips them, so the list link of a note whose id ends in such
    characters (created with [%20] or [%09] at the end of its path) opens
    the note of the id without them, whatever either holds. *)
Theorem trailing_space_link base e a id (w : jsstr) (s : S) :
  checkAuthorization e a = Normal true -> html_safe_id id = true ->
  Forall (fun c => 0 < c <= 32 /\ c <> 13)%Z w ->
  exists t href p, Views.index_item (id ++ w) = tpl "<li><a href=`" ++ t /\ attr_value t = Some href /\
    resolve_path base href = Some p /\
    serve e (get_request a p) s = (html_response (Views.templateNote id (kv_get (note_key id) s)), s).
Proof.
  intros Ha Hid Hw. apply html_safe_chars in Hid as [Hid Hc].
  destruct (index_item_attr id w) as (t & Ht & Hat).
  { apply Forall_app. split; [done|]. eapply Forall_impl; [exact Hw|]. intros c Hc' Hin.
    repeat (apply elem_of_cons in Hin as [->|Hin]; [lia|]). by apply elem_of_nil in Hin. }
  destruct (link_get base e a id s Ha Hid) as (p & Hp & Hs).
  exists t, (js "/" ++ id ++ w), p. split_and!; [done|done| |done].
  rewrite app_assoc, resolve_path_trailing; [done|].
  eapply Forall_impl; [exact Hw|]. intros c [Hc' _]. apply bool_decide_eq_true_2. lia.
Qed.

End Links.

Lemma link_roundtrip_witness :
  exists raw, resolve_path [[]] (js "/" ++ [104; 233; 32; 55357; 56832]%Z) = Some (js "/" ++ raw) /\
    Router.note_exec (js "/" ++ raw) = Some raw /\
    Uri.decodeURI raw = Normal [104; 233; 32; 55357; 56832]%Z.
Proof. apply (link_roundtrip [[]]). vm_compute. reflexivity. Defined.

Lemma note_links_open_note_witness :
  exists t href p, Views.index_item (js "a") = tpl "<li><a href=`" ++ t /\ attr_value t = Some href /\
    resolve_path [[]] href = Some p /\
    serve alice_env (get_request alice_header p) one_note_store =
      (html_response (Views.templateNote (js "a") (Some (js "hello"))), one_note_store) /\
    NewNote.submit (Some (js "a")) = Some href.
Proof. apply (note_links_open_note [[]]); vm_compute; reflexivity. Defined.

Lemma trailing_space_link_witness :
  exists t href p, Views.index_item (js "a" ++ [32%Z]) = tpl "<li><a href=`" ++ t /\ attr_value t = Some href /\
    resolve_path [[]] href = Some p /\
    serve alice_env (get_request alice_header p) empty_store =
      (html_response (Views.templateNote (js "a") (kv_get (note_key (js "a")) empty_store)), empty_store).
Proof.
  apply (trailing_space_link [[]]); [vm_compute; reflexivity | vm_compute; reflexivity | decide_closed].
Defined.
