(* ===== verification/Limits.v ===== *)
(** * The size limits of Deno KV and the errors they raise

    Every store operation of the handler ([db.get] line 40, [db.delete]
    line 45, [db.set] line 47, [db.list] line 24) is checked by Deno KV
    before it touches the store: a key whose encoding is longer than 2048
    bytes (2049 for a read) or a value whose serialization is longer than
    65536 bytes makes the operation reject with a TypeError.  The key
    encoding ([encode_key]) is the tuple layer of Deno KV (a string part is 0x02, its
    UTF-8 bytes with 0x00 escaped as 0x00 0xFF, and 0x00); a string value
    is serialized by V8's ValueSerializer, one byte or two bytes per code
    unit depending on how V8 represents the string, which the theorems
    leave open ([one_byte]).  [run_kv] is [Handler.run] with these checks,
    [serve_kv] the server that runs it. *)

From stdpp Require Import gmap.
From S2P Require Import Prelude JsString Auth Router Uri Url KeyOrder KvStore Views Handler Client Session.

Module KvLimits.

(** The length of the encoded key ([KeyOrder.encode_key]). *)
Definition key_size (k : kv_key) : nat := length (encode_key k).

(** The bytes of a base-128 varint. *)
Definition varint_len (n : nat) : nat :=
  if decide (Z.of_nat n < 128)%Z then 1
  else if decide (Z.of_nat n < 16384)%Z then 2
  else if decide (Z.of_nat n < 2097152)%Z then 3
  else if decide (Z.of_nat n < 268435456)%Z then 4 else 5.

(** The V8 serialization of a string, with its two-byte header: a one-byte
    string is the tag, the varint length and the bytes; a two-byte string
    is an optional padding byte (so that its code units are aligned), the
    tag, the varint byte length and two bytes per code unit.  A string is
    one-byte only if all its code units are below 256. *)
Definition v8_string_size (one_byte : bool) (v : jsstr) : nat :=
  let n := length v in
  if one_byte && forallb (fun c => bool_decide (c <= 255)%Z) v then 3 + varint_len n + n
  else
    let pre := 3 + varint_len (2 * n) in
    (if Nat.even pre then 0 else 1) + pre + 2 * n.

Definition read_key_ok (k : kv_key) : bool := bool_decide (key_size k <= 2049).
Definition write_key_ok (k : kv_key) : bool := bool_decide (key_size k <= 2048).
Definition value_ok (one_byte : bool) (v : jsstr) : bool :=
  bool_decide (Z.of_nat (v8_string_size one_byte v) <= 65536)%Z.

(** The selectors of [list({ prefix })] are the prefix followed by 0x00
    and by 0xFF. *)
Definition list_ok (prefix : kv_key) : bool := bool_decide (key_size prefix + 1 <= 2049).

End KvLimits.

Import KvLimits.

Section RunKv.
Context {S : Type} `{KvStore S} (one_byte : bool).

(** [run] with the checks of Deno KV: a refused operation throws a
    TypeError and leaves the store as it was. *)
Fixpoint run_kv {A} (p : prog A) (s : S) : completion A * S :=
  match p with
  | Done a => (Normal a, s)
  | Fail ex => (Throw ex, s)
  | KvGet k next => if read_key_ok k then run_kv (next (kv_get k s)) s else (Throw TypeError, s)
  | KvSet k v next =>
      if write_key_ok k && value_ok one_byte v then run_kv next (kv_set k v s)
      else (Throw TypeError, s)
  | KvDelete k next => if write_key_ok k then run_kv next (kv_delete k s) else (Throw TypeError, s)
  | KvList pre read next =>
      if list_ok pre then run_kv (next (read ++ list_after read (kv_list pre s))) s
      else (Throw TypeError, s)
  end.

Definition serve_kv (e : env) (req : request) (s : S) : response * S :=
  let '(r, s') := run_kv (handler e req) s in (respond r, s').
End RunKv.

(** ** The serialized size of a string *)

Lemma v8_size_lower ob v : length v + 4 <= v8_string_size ob v.
Proof.
  unfold v8_string_size. destruct (_ && _); [|destruct (Nat.even _)];
    unfold varint_len; repeat case_decide; lia.
Qed.

Lemma v8_size_upper ob v : v8_string_size ob v <= 2 * length v + 9.
Proof.
  unfold v8_string_size. destruct (_ && _); [|destruct (Nat.even _)];
    unfold varint_len; repeat case_decide; lia.
Qed.

Lemma list_ok_notes : list_ok [js "notes"] = true.
Proof. vm_compute. reflexivity. Qed.

(** ** The server with the limits *)

(** A request whose note key and (for a POST that writes) body are within
    the limits. *)
Definition request_fits (one_byte : bool) (req : request) : Prop :=
  forall raw id, Router.note_exec (req_pathname req) = Some raw -> Uri.decodeURI raw = Normal id ->
  key_size (note_key id) <= 2048 /\
  (req_method req = js "POST" -> trim (req_body req) <> [] ->
   Z.of_nat (v8_string_size one_byte (req_body req)) <= 65536)%Z.

Section LimitsLemmas.
Context {S : Type} `{KvStoreLaws S}.
#[local] Set Default Proof Using "Type*".

Lemma run_kv_route_fits ob req (s : S) :
  request_fits ob req -> run_kv ob (route_request req) s = run (route_request req) s.
Proof.
  intros Hfits. unfold route_request.
  destruct (Router.home_test _); [cbn; by rewrite list_ok_notes|].
  destruct (Router.note_exec _) as [raw|] eqn:Hn; [|done].
  destruct (Uri.decodeURI raw) as [id|] eqn:Hd; [|done].
  destruct (Hfits raw id Hn Hd) as [Hk Hv]. cbn. unfold read_key_ok, write_key_ok, value_ok.
  rewrite (bool_decide_true (key_size (note_key id) <= 2049)) by lia.
  case_bool_decide as Hpost; [|done]. case_bool_decide as Hblank; cbn.
  - unfold write_key_ok. by rewrite bool_decide_true by lia.
  - unfold write_key_ok, value_ok. rewrite !bool_decide_true by auto with lia. done.
Qed.

Lemma run_kv_handler_fits ob e req (s : S) :
  request_fits ob req -> run_kv ob (handler e req) s = run (handler e req) s.
Proof.
  intros Hfits. unfold handler.
  destruct (req_authorization req) as [a|]; [|done]. case_bool_decide; [done|].
  destruct (checkAuthorization e a) as [[]|]; [by apply run_kv_route_fits|done|done].
Qed.

(** The authorised requests to the note route of [id]. *)
Lemma run_kv_note ob e a m path raw id b (s : S) :
  checkAuthorization e a = Normal true -> Router.note_exec path = Some raw ->
  Uri.decodeURI raw = Normal id ->
  run_kv ob (handler e (mk_request m path (Some a) b)) s =
  if read_key_ok (note_key id) then
    if bool_decide (m = js "POST") then
      if bool_decide (trim b = []) then
        if write_key_ok (note_key id) then (Normal ok_response, kv_delete (note_key id) s)
        else (Throw TypeError, s)
      else if write_key_ok (note_key id) && value_ok ob b then
        (Normal ok_response, kv_set (note_key id) b s)
      else (Throw TypeError, s)
    else (Normal (html_response (Views.templateNote id (kv_get (note_key id) s))), s)
  else (Throw TypeError, s).
Proof.
  intros Ha Hn Hd. rewrite (handler_authorized e (mk_request m path (Some a) b)) by (by exists a).
  unfold route_request. cbn [req_pathname req_method req_body].
  rewrite (note_not_home _ _ Hn), Hn, Hd. cbn.
  destruct (read_key_ok _); [|done]. repeat case_bool_decide; cbn; done.
Qed.

(** A non-blank body of 65533 code units or more is refused. *)
Lemma value_too_large ob b : (65533 <= Z.of_nat (length b))%Z -> value_ok ob b = false.
Proof. intros Hb. pose proof (v8_size_lower ob b). apply bool_decide_false. lia. Qed.

Lemma serve_kv_post_too_large ob e a path raw id b (s : S) :
  checkAuthorization e a = Normal true -> Router.note_exec path = Some raw ->
  Uri.decodeURI raw = Normal id -> key_size (note_key id) <= 2048 ->
  (65533 <= Z.of_nat (length b))%Z -> trim b <> [] ->
  serve_kv ob e (mk_request (js "POST") path (Some a) b) s = (internal_error_response, s).
Proof.
  intros Ha Hn Hd Hk Hb Hblank. unfold serve_kv.
  rewrite (run_kv_note ob e a _ path raw id b s Ha Hn Hd).
  unfold read_key_ok, write_key_ok.
  rewrite (bool_decide_true (_ <= 2049)), (bool_decide_true (js "POST" = _)) by (done || lia).
  rewrite (bool_decide_false (trim b = [])), (bool_decide_true (_ <= 2048)) by (done || lia).
  by rewrite value_too_large.
Qed.

Lemma serve_kv_key_too_large ob e a m path raw id b (s : S) :
  checkAuthorization e a = Normal true -> Router.note_exec path = Some raw ->
  Uri.decodeURI raw = Normal id -> 2049 < key_size (note_key id) ->
  serve_kv ob e (mk_request m path (Some a) b) s = (internal_error_response, s).
Proof.
  intros Ha Hn Hd Hk. unfold serve_kv.
  rewrite (run_kv_note ob e a m path raw id b s Ha Hn Hd).
  unfold read_key_ok. by rewrite bool_decide_false by lia.
Qed.
End LimitsLemmas.

(** ** What the limits change *)

Section LimitsClaims.
Context {S : Type} `{KvStoreLaws S}.
#[local] Set Default Proof Using "Type*".

(** The server with Deno KV's limits refines the ideal server: on a
    request within the limits it answers and changes the store exactly
    as [serve] does, whatever representation V8 gives the body. *)
Lemma serve_kv_fits ob e req (s : S) :
  request_fits ob req -> serve_kv ob e req s = serve e req s.
Proof. intros Hfits. unfold serve_kv, serve. by rewrite run_kv_handler_fits. Qed.


(** C20: past the limits the store refuses the operation and
    the server answers 500 with the store unchanged: every authorised
    request to a note whose key is longer than 2049 bytes, and every
    authorised POST of a non-blank body of 65533 code units or more. *)
Theorem serve_kv_limits ob e a path raw id (s : S) :
  checkAuthorization e a = Normal true -> Router.note_exec path = Some raw ->
  Uri.decodeURI raw = Normal id ->
  (2049 < key_size (note_key id) -> forall m b,
     serve_kv ob e (mk_request m path (Some a) b) s = (internal_error_response, s)) /\
  (key_size (note_key id) <= 2048 -> forall b, (65533 <= Z.of_nat (length b))%Z -> trim b <> [] ->
     serve_kv ob e (mk_request (js "POST") path (Some a) b) s = (internal_error_response, s)).
Proof.
  intros Ha Hn Hd. split.
  - intros Hk m b. exact (serve_kv_key_too_large ob e a m path raw id b s Ha Hn Hd Hk).
  - intros Hk b Hb Hblank. exact (serve_kv_post_too_large ob e a path raw id b s Ha Hn Hd Hk Hb Hblank).
Qed.

(** C34: once the textarea holds 65533 code units or more, every
    autosave fails with a 500 that the page's script ignores: each fetch
    resolves, the flag is cleared and nothing is left in flight, as after
    a successful save, yet the note on the server never changes. *)
Theorem oversize_edits_lost ob e a path raw id vs v c (s : S) :
  checkAuthorization e a = Normal true -> Router.note_exec path = Some raw ->
  Uri.decodeURI raw = Normal id -> key_size (note_key id) <= 2048 ->
  Forall (fun w => (65533 <= Z.of_nat (length w))%Z /\ trim w <> []) (vs ++ [v]) ->
  session (serve_kv ob e) a path (Autosave.init c) s (paced (vs ++ [v])) =
    Some (Autosave.mk_state v false [], s).
Proof.
  intros Ha Hn Hd Hk Hall.
  assert (Hsave : forall w, (65533 <= Z.of_nat (length w))%Z /\ trim w <> [] ->
            deliver (serve_kv ob e) a path (Some w) s = s).
  { intros w [Hw Hb]. cbn. unfold save_request.
    by rewrite (serve_kv_post_too_large ob e a path raw id w s Ha Hn Hd Hk Hw Hb). }
  generalize (Autosave.init c) (eq_refl : Autosave.sending (Autosave.init c) = false)
    (eq_refl : Autosave.network (Autosave.init c) = []). clear c.
  induction vs as [|v0 vs IH]; intros st Hs Hnet; cbn [app] in Hall.
  - change (paced ([] ++ [v])) with ([Autosave.Keyup v; Autosave.Resolve] ++ []).
    rewrite (session_keyup_resolve _ _ _ _ _ _ _ Hs Hnet).
    apply Forall_cons in Hall as [Hv _]. by rewrite Hsave.
  - change (paced ((v0 :: vs) ++ [v])) with ([Autosave.Keyup v0; Autosave.Resolve] ++ paced (vs ++ [v])).
    rewrite (session_keyup_resolve _ _ _ _ _ _ _ Hs Hnet).
    apply Forall_cons in Hall as [Hv0 Hall]. rewrite Hsave by done. by apply IH.
Qed.
End LimitsClaims.


(** A note id of 2100 letters. *)
Definition long_id : jsstr := repeat 97%Z 2100.

Lemma serve_kv_limits_witness :
  (2049 < key_size (note_key long_id) -> forall m b,
     serve_kv true alice_env (mk_request m (47%Z :: long_id) (Some alice_header) b) empty_store =
       (internal_error_response, empty_store)) /\
  (key_size (note_key long_id) <= 2048 -> forall b, (65533 <= Z.of_nat (length b))%Z -> trim b <> [] ->
     serve_kv true alice_env (mk_request (js "POST") (47%Z :: long_id) (Some alice_header) b) empty_store =
       (internal_error_response, empty_store)).
Proof. apply (serve_kv_limits true alice_env alice_header _ long_id); vm_compute; reflexivity. Defined.

(** A body of 65533 letters. *)
Definition long_body : jsstr := 97%Z :: repeat 97%Z (Z.to_nat 65532).

Lemma oversize_edits_lost_witness :
  session (serve_kv true alice_env) alice_header (js "/a") (Autosave.init []) empty_store
    (paced ([] ++ [long_body])) = Some (Autosave.mk_state long_body false [], empty_store).
Proof.
  apply (oversize_edits_lost true alice_env alice_header (js "/a") (js "a") (js "a") [] long_body []
           empty_store); [vm_compute; reflexivity .. | vm_compute; lia |].
  apply Forall_singleton. split; [vm_compute; intros ?; discriminate|].
  rewrite trim_nil_iff. intros Hall. apply Forall_inv in Hall. vm_compute in Hall. discriminate.
Defined.
